(** * Verification of the DeepSeek OCR relay backend ([backend/main.py])

    The backend forwards an uploaded image and a prompt to a local Ollama
    endpoint, accumulates the streamed JSON fragments into one text, draws the
    bounding boxes found in that text on the image and answers with the text
    and the annotated image.

    The development is a shallow embedding of [main.py].  The Python library
    functions the program calls are modelled as follows.

    - [bytes.decode('utf-8')], [json.loads], [base64.b64encode], [re.findall],
      [int] and [/] on integers are given executable models that follow
      CPython 3.11 (Unicode 14.0.0 character tables).
    - [print] writes to a console that encodes its output as UTF-8 with the
      strict error handler, the default of the interpreter: it raises
      [UnicodeEncodeError] on a surrogate code point and nothing else.
    - Pillow and the httpx transport are interfaces: the theorems hold for
      every implementation of them.

    The models come first, then [main.py], the notions the properties are
    stated with, and the proofs: the properties C1 to C10 of the
    specification, and after them further properties of the program, X1 to
    X16: what the chunk loop makes of chunks that are cut or joined in
    transit or cannot be decoded, which fields of a fragment it reads, when
    a request succeeds, which texts the pattern matches, what numbers beyond
    the floats do to the annotation, and what the base64 texts decode to. *)

From Stdlib Require Import List ZArith NArith PArith Lia Bool String Ascii.
From Stdlib Require Import Strings.Byte.
From Stdlib Require Import DecimalString.
From Stdlib Require Import Floats.SpecFloat.
Import ListNotations.

Set Warnings "-register-all".
Local Open Scope N_scope.

(* ================================================================== *)
(** * Python values, exceptions and results *)
(* ================================================================== *)

Module Py.

(** A Python [str] is a sequence of Unicode code points, a [bytes] object a
    sequence of bytes. *)
Definition char := N.
Definition str := list char.
Definition bytes := list byte.

(** [u "abc"] is the Python literal ["abc"] (ASCII literals only). *)
Definition u (s : string) : str := map N_of_ascii (list_ascii_of_string s).

(** [b "abc"] is the Python literal [b"abc"]. *)
Definition b (s : string) : bytes := list_byte_of_string s.

(** JSON text written with apostrophes for its quotation marks:
    [jb "{'a':1}"] is the [bytes] object of the JSON text with the key [a]. *)
Definition jb (s : string) : bytes :=
  map (fun x => if Byte.eqb x x27 then x22 else x) (list_byte_of_string s).

Definition str_eqb (s t : str) : bool :=
  if list_eq_dec N.eq_dec s t then true else false.

(** [str(n)] for a non-negative integer. *)
Definition str_of_N (n : N) : str := u (NilZero.string_of_uint (N.to_uint n)).
Definition str_of_nat (n : nat) : str := str_of_N (N.of_nat n).

(** Exception classes.  The httpx classes are the subclasses of
    [httpx.HTTPError]: [HTTPStatusError] and the [RequestError] family. *)
Inductive httpx_error :=
| HTTPStatusError
| ConnectError | ReadError | WriteError | CloseError
| ConnectTimeout | ReadTimeout | WriteTimeout | PoolTimeout
| ProtocolError | ProxyError | UnsupportedProtocol
| DecodingError | TooManyRedirects.

Inductive exn_class :=
| JSONDecodeError        (* json.JSONDecodeError(ValueError) *)
| UnicodeDecodeError     (* UnicodeDecodeError(UnicodeError(ValueError)) *)
| UnicodeEncodeError     (* UnicodeEncodeError(UnicodeError(ValueError)) *)
| ValueError
| AttributeError
| TypeError
| OverflowError
| ZeroDivisionError
| RecursionError
| OSError
| UnidentifiedImageError (* PIL.UnidentifiedImageError(OSError) *)
| Httpx (k : httpx_error)
| OtherException.        (* any other subclass of Exception *)

(** An exception object: its class and [str(e)]. *)
Record exn := Exn { exn_class_of : exn_class; exn_str : str }.

Definition is_JSONDecodeError (e : exn) : bool :=
  match exn_class_of e with JSONDecodeError => true | _ => false end.

Definition is_HTTPError (e : exn) : bool :=
  match exn_class_of e with Httpx _ => true | _ => false end.

(** Every class above derives from [Exception]. *)
Definition is_Exception (e : exn) : bool := true.

(** The outcome of evaluating a Python expression or block. *)
Inductive pyresult (A : Type) :=
| Ok (a : A)
| Raise (e : exn).
Arguments Ok {A} a.
Arguments Raise {A} e.

Definition bind {A B} (m : pyresult A) (k : A -> pyresult B) : pyresult B :=
  match m with
  | Ok a => k a
  | Raise e => Raise e
  end.

(** [try: body except <class>: handler]. *)
Definition try_except {A} (body : pyresult A) (catches : exn -> bool)
    (handler : exn -> pyresult A) : pyresult A :=
  match body with
  | Ok a => Ok a
  | Raise e => if catches e then handler e else Raise e
  end.

End Py.
Import Py.

Declare Scope py_scope.
Delimit Scope py_scope with py.
Notation "x <- m ;; k" := (bind m (fun x => k))
  (at level 61, m at next level, right associativity) : py_scope.
Notation "' p <- m ;; k" := (bind m (fun x => match x with p => k end))
  (at level 61, p pattern, m at next level, right associativity) : py_scope.
Local Open Scope py_scope.

(* ================================================================== *)
(** * [bytes.decode('utf-8')] *)
(* ================================================================== *)

Module Utf8.

Definition hex_digit (n : N) : char :=
  if n <? 10 then 48 + n else 87 + n.   (* '0'..'9', 'a'..'f' *)

(** ["0x%02x" % byte] *)
Definition hex_byte (c : N) : str :=
  u "0x" ++ [hex_digit (c / 16); hex_digit (c mod 16)].

(** [str(UnicodeDecodeError('utf-8', obj, start, end, reason))]; [first] is
    [obj[start]] and the slice [obj[start:end]] has [len] bytes. *)
Definition decode_error (first : N) (start len : nat) (reason : string) : exn :=
  Exn UnicodeDecodeError
    (match len with
     | 1%nat => u "'utf-8' codec can't decode byte " ++ hex_byte first
                ++ u " in position " ++ str_of_nat start
     | _ => u "'utf-8' codec can't decode bytes in position " ++ str_of_nat start
            ++ u "-" ++ str_of_nat (start + len - 1)
     end ++ u ": " ++ u reason).

Definition invalid_start (first : N) (pos : nat) : exn :=
  decode_error first pos 1 "invalid start byte".

(** The continuation byte at offset [k] of the sequence is wrong: the error
    covers the [k] bytes before it. *)
Definition invalid_continuation (first : N) (pos k : nat) : exn :=
  decode_error first pos k "invalid continuation byte".

(** The input ends inside a sequence of which [have] bytes are present. *)
Definition unexpected_end (first : N) (pos have : nat) : exn :=
  decode_error first pos have "unexpected end of data".

Definition is_continuation (c : N) : bool := (0x80 <=? c) && (c <=? 0xBF).

(** The second byte of a three-byte sequence: a continuation byte that makes
    the sequence neither overlong ([E0 80..9F]) nor a surrogate ([ED A0..BF]). *)
Definition second_of_3 (c1 c2 : N) : bool :=
  is_continuation c2 &&
  negb (if c2 <? 0xA0 then c1 =? 0xE0 else c1 =? 0xED).

(** The second byte of a four-byte sequence: neither overlong ([F0 80..8F])
    nor above U+10FFFF ([F4 90..BF]). *)
Definition second_of_4 (c1 c2 : N) : bool :=
  is_continuation c2 &&
  negb (if c2 <? 0x90 then c1 =? 0xF0 else c1 =? 0xF4).

Definition low6 (c : N) : N := c mod 64.

(** The strict decoder of CPython ([errors='strict']), reading the byte at
    index [pos] first. *)
Fixpoint decode_from (pos : nat) (bs : bytes) : pyresult str :=
  match bs with
  | [] => Ok []
  | b1 :: r1 =>
    let c1 := Byte.to_N b1 in
    if c1 <? 0x80 then
      s <- decode_from (1 + pos) r1 ;; Ok (c1 :: s)
    else if c1 <? 0xC2 then Raise (invalid_start c1 pos)
    else if c1 <? 0xE0 then
      match r1 with
      | [] => Raise (unexpected_end c1 pos 1)
      | b2 :: r2 =>
        let c2 := Byte.to_N b2 in
        if is_continuation c2 then
          s <- decode_from (2 + pos) r2 ;;
          Ok ((c1 mod 32) * 64 + low6 c2 :: s)
        else Raise (invalid_continuation c1 pos 1)
      end
    else if c1 <? 0xF0 then
      match r1 with
      | [] => Raise (unexpected_end c1 pos 1)
      | b2 :: r2 =>
        let c2 := Byte.to_N b2 in
        if second_of_3 c1 c2 then
          match r2 with
          | [] => Raise (unexpected_end c1 pos 2)
          | b3 :: r3 =>
            let c3 := Byte.to_N b3 in
            if is_continuation c3 then
              s <- decode_from (3 + pos) r3 ;;
              Ok ((c1 mod 16) * 4096 + low6 c2 * 64 + low6 c3 :: s)
            else Raise (invalid_continuation c1 pos 2)
          end
        else Raise (invalid_continuation c1 pos 1)
      end
    else if c1 <? 0xF5 then
      match r1 with
      | [] => Raise (unexpected_end c1 pos 1)
      | b2 :: r2 =>
        let c2 := Byte.to_N b2 in
        if second_of_4 c1 c2 then
          match r2 with
          | [] => Raise (unexpected_end c1 pos 2)
          | b3 :: r3 =>
            let c3 := Byte.to_N b3 in
            if is_continuation c3 then
              match r3 with
              | [] => Raise (unexpected_end c1 pos 3)
              | b4 :: r4 =>
                let c4 := Byte.to_N b4 in
                if is_continuation c4 then
                  s <- decode_from (4 + pos) r4 ;;
                  Ok ((c1 mod 8) * 262144 + low6 c2 * 4096
                      + low6 c3 * 64 + low6 c4 :: s)
                else Raise (invalid_continuation c1 pos 3)
              end
            else Raise (invalid_continuation c1 pos 2)
          end
        else Raise (invalid_continuation c1 pos 1)
      end
    else Raise (invalid_start c1 pos)
  end.

(** [chunk.decode('utf-8')] *)
Definition decode (bs : bytes) : pyresult str := decode_from 0 bs.

End Utf8.

(* ================================================================== *)
(** * [base64.b64encode(...).decode('utf-8')] *)
(* ================================================================== *)

Module Base64.

(** The standard alphabet: [A-Z], [a-z], [0-9], [+], [/]. *)
Definition sextet (n : N) : char :=
  if n <? 26 then 65 + n
  else if n <? 52 then 71 + n
  else if n <? 62 then n - 4
  else if n =? 62 then 43
  else 47.

Definition pad : char := 61.   (* '=' *)

Fixpoint encode (bs : bytes) : str :=
  match bs with
  | [] => []
  | [b1] =>
    let n := Byte.to_N b1 in
    [sextet (n / 4); sextet (n mod 4 * 16); pad; pad]
  | [b1; b2] =>
    let n := Byte.to_N b1 * 256 + Byte.to_N b2 in
    [sextet (n / 1024); sextet (n / 16 mod 64); sextet (n mod 16 * 4); pad]
  | b1 :: b2 :: b3 :: rest =>
    let n := Byte.to_N b1 * 65536 + Byte.to_N b2 * 256 + Byte.to_N b3 in
    sextet (n / 262144) :: sextet (n / 4096 mod 64)
      :: sextet (n / 64 mod 64) :: sextet (n mod 64) :: encode rest
  end.

(** [base64.b64encode(data).decode('utf-8')]: the encoding is ASCII, so the
    decoding cannot fail. *)
Definition b64encode_str (data : bytes) : str := encode data.

End Base64.

(* ================================================================== *)
(** * [json.loads] *)
(* ================================================================== *)

Module Json.

(** The Python objects [json.loads] builds.  A float keeps its lexeme; a
    [dict] keeps its items in insertion order, one per key. *)
Inductive value :=
| JNone
| JBool (v : bool)
| JInt (n : Z)
| JFloat (lexeme : str)
| JStr (s : str)
| JList (items : list value)
| JDict (items : list (str * value)).

(** [type(v).__name__] *)
Definition type_name (v : value) : string :=
  match v with
  | JNone => "NoneType"
  | JBool _ => "bool"
  | JInt _ => "int"
  | JFloat _ => "float"
  | JStr _ => "str"
  | JList _ => "list"
  | JDict _ => "dict"
  end.

(** [d[k] = v] *)
Fixpoint dict_set (d : list (str * value)) (k : str) (v : value)
    : list (str * value) :=
  match d with
  | [] => [(k, v)]
  | (k', v') :: d' =>
    if str_eqb k' k then (k', v) :: d' else (k', v') :: dict_set d' k v
  end.

Fixpoint dict_lookup (d : list (str * value)) (k : str) : option value :=
  match d with
  | [] => None
  | (k', v) :: d' => if str_eqb k' k then Some v else dict_lookup d' k
  end.

(** [obj.get(key, default)]: only a [dict] has the attribute [get]. *)
Definition get (obj : value) (key : str) (default : value) : pyresult value :=
  match obj with
  | JDict d =>
    Ok (match dict_lookup d key with Some v => v | None => default end)
  | _ =>
    Raise (Exn AttributeError
             (u "'" ++ u (type_name obj) ++ u "' object has no attribute 'get'"))
  end.

(** [sys.get_int_max_str_digits()] *)
Definition int_max_str_digits : nat := 4300.

Definition int_too_long (digits : nat) : exn :=
  Exn ValueError
    (u "Exceeds the limit (" ++ str_of_nat int_max_str_digits
     ++ u " digits) for integer string conversion: value has "
     ++ str_of_nat digits
     ++ u " digits; use sys.set_int_max_str_digits() to increase the limit").

(** [sys.getrecursionlimit()]; the frames already on the stack when
    [json.loads] is called are not counted. *)
Definition recursion_limit : nat := 1000.

Definition is_whitespace (c : char) : bool :=
  (c =? 32) || (c =? 9) || (c =? 10) || (c =? 13).

Definition is_digit (c : char) : bool := (48 <=? c) && (c <=? 57).

Fixpoint skip_whitespace (s : str) : str :=
  match s with
  | c :: r => if is_whitespace c then skip_whitespace r else s
  | [] => []
  end.

Fixpoint span_digits (s : str) : str * str :=
  match s with
  | c :: r =>
    if is_digit c then let '(ds, r') := span_digits r in (c :: ds, r')
    else ([], s)
  | [] => ([], [])
  end.

Definition decimal_value (ds : str) : Z :=
  fold_left (fun acc c => (10 * acc + Z.of_N (c - 48))%Z) ds 0%Z.

Definition hex_value (c : char) : option N :=
  if is_digit c then Some (c - 48)
  else if (97 <=? c) && (c <=? 102) then Some (c - 87)
  else if (65 <=? c) && (c <=? 70) then Some (c - 55)
  else None.

Definition hex4 (h1 h2 h3 h4 : char) : option N :=
  match hex_value h1, hex_value h2, hex_value h3, hex_value h4 with
  | Some a, Some b, Some c, Some d => Some (((a * 16 + b) * 16 + c) * 16 + d)
  | _, _, _, _ => None
  end.

Definition is_high_surrogate (c : N) : bool := (0xD800 <=? c) && (c <=? 0xDBFF).
Definition is_low_surrogate (c : N) : bool := (0xDC00 <=? c) && (c <=? 0xDFFF).
Definition join_surrogates (hi lo : N) : N :=
  0x10000 + (hi - 0xD800) * 1024 + (lo - 0xDC00).

(** The character of a one-letter escape. *)
Definition simple_escape (c : char) : option char :=
  if c =? 34 then Some 34            (* quotation mark *)
  else if c =? 92 then Some 92       (* backslash *)
  else if c =? 47 then Some 47       (* solidus *)
  else if c =? 98 then Some 8        (* b: backspace *)
  else if c =? 102 then Some 12      (* f: form feed *)
  else if c =? 110 then Some 10      (* n: line feed *)
  else if c =? 114 then Some 13      (* r: carriage return *)
  else if c =? 116 then Some 9       (* t: tab *)
  else None.

Fixpoint starts_with (p s : str) : option str :=
  match p, s with
  | [], _ => Some s
  | a :: p', c :: s' => if a =? c then starts_with p' s' else None
  | _ :: _, [] => None
  end.

Section Decoder.

(** The document being decoded; positions in error messages refer to it. *)
Variable doc : str.

(** The index in [doc] at which the suffix [rest] starts. *)
Definition index_of (rest : str) : nat := (List.length doc - List.length rest)%nat.

Fixpoint count_newlines (s : str) : nat :=
  match s with
  | c :: r => ((if (c =? 10)%N then 1 else 0) + count_newlines r)%nat
  | [] => 0%nat
  end.

(** [pos - doc.rfind('\n', 0, pos)], where [rfind] gives -1 without a match. *)
Fixpoint column (prefix : str) (col : nat) : nat :=
  match prefix with
  | c :: r => column r (if c =? 10 then 1%nat else S col)
  | [] => col
  end.

(** [JSONDecodeError(msg, doc, pos)] *)
Definition decode_error (msg : string) (pos : nat) : exn :=
  let prefix := firstn pos doc in
  Exn JSONDecodeError
    (u msg ++ u ": line " ++ str_of_nat (S (count_newlines prefix))
     ++ u " column " ++ str_of_nat (column prefix 1%nat)
     ++ u " (char " ++ str_of_nat pos ++ u ")").

Definition fail_at {A} (msg : string) (rest : str) : pyresult A :=
  Raise (decode_error msg (index_of rest)).

(** [scanstring] with [strict=True], started after the opening quote, which is
    at index [start]; [acc] holds the characters read so far, last first. *)
Fixpoint scanstring (start : nat) (s : str) (acc : str) : pyresult (str * str) :=
  match s with
  | [] => Raise (decode_error "Unterminated string starting at" start)
  | c :: r =>
    if c =? 34 then Ok (rev acc, r)
    else if c =? 92 then
      match r with
      | [] => Raise (decode_error "Unterminated string starting at" start)
      | e :: r1 =>
        if e =? 117 then                              (* \uXXXX *)
          match r1 with
          | h1 :: h2 :: h3 :: h4 :: ((_ :: _) as r5) =>
            match hex4 h1 h2 h3 h4 with
            | None => fail_at "Invalid \uXXXX escape" r
            | Some c1 =>
              match r5 with
              | b :: v :: l1 :: l2 :: l3 :: l4 :: ((_ :: _) as r11) =>
                if is_high_surrogate c1 && (b =? 92) && (v =? 117) then
                  match hex4 l1 l2 l3 l4 with
                  | None => fail_at "Invalid \uXXXX escape" (v :: l1 :: l2 :: l3 :: l4 :: r11)
                  | Some c2 =>
                    if is_low_surrogate c2
                    then scanstring start r11 (join_surrogates c1 c2 :: acc)
                    else scanstring start r5 (c1 :: acc)
                  end
                else scanstring start r5 (c1 :: acc)
              | _ => scanstring start r5 (c1 :: acc)
              end
            end
          | _ => fail_at "Invalid \uXXXX escape" r
          end
        else
          match simple_escape e with
          | Some c' => scanstring start r1 (c' :: acc)
          | None => fail_at "Invalid \escape" s
          end
      end
    else if c <=? 0x1F then fail_at "Invalid control character at" s
    else scanstring start r (c :: acc)
  end.

(** A number: an optional minus sign, then [0] or a digit string that does
    not start with [0], then optionally a point and digits, then optionally an
    exponent ([e] or [E], an optional sign, digits). *)
Definition scan_fraction (s : str) : str * str :=
  match s with
  | dot :: d :: r =>
    if (dot =? 46) && is_digit d then
      let '(ds, r') := span_digits r in (dot :: d :: ds, r')
    else ([], s)
  | _ => ([], s)
  end.

Definition scan_exponent (s : str) : str * str :=
  match s with
  | e :: r =>
    if (e =? 101) || (e =? 69) then
      let '(sign, r1) :=
        match r with
        | sg :: r' => if (sg =? 45) || (sg =? 43) then ([sg], r') else ([], r)
        | [] => ([], r)
        end in
      match span_digits r1 with
      | ([], _) => ([], s)
      | (ds, r2) => (e :: sign ++ ds, r2)
      end
    else ([], s)
  | [] => ([], s)
  end.

Definition match_number (s : str) : pyresult (value * str) :=
  let '(sign, s1) :=
    match s with
    | c :: r => if c =? 45 then ([c], r) else ([], s)
    | [] => ([], s)
    end in
  let '(int_part, s2) :=
    match s1 with
    | c :: r =>
      if c =? 48 then ([c], r)
      else if is_digit c then let '(ds, r') := span_digits r in (c :: ds, r')
      else ([], s1)
    | [] => ([], s1)
    end in
  match int_part with
  | [] => fail_at "Expecting value" s
  | _ =>
    let '(frac, s3) := scan_fraction s2 in
    let '(expo, s4) := scan_exponent s3 in
    match frac, expo with
    | [], [] =>
      if (int_max_str_digits <? List.length int_part)%nat
      then Raise (int_too_long (List.length int_part))
      else Ok (JInt (match sign with
                     | [] => decimal_value int_part
                     | _ => - decimal_value int_part
                     end%Z), s4)
    | _, _ => Ok (JFloat (sign ++ int_part ++ frac ++ expo), s4)
    end
  end.

(** The items of an array after the opening bracket and the whitespace that
    follows it; [scan] reads one value. *)
Fixpoint parse_array (scan : str -> pyresult (value * str))
    (fuel : nat) (s : str) (acc : list value) : pyresult (value * str) :=
  match fuel with
  | O => fail_at "Expecting value" s
  | S fuel' =>
    '(v, r) <- scan s ;;
    match skip_whitespace r with
    | c :: r' =>
      if c =? 93 then Ok (JList (rev (v :: acc)), r')
      else if c =? 44 then parse_array scan fuel' (skip_whitespace r') (v :: acc)
      else fail_at "Expecting ',' delimiter" (c :: r')
    | [] => fail_at "Expecting ',' delimiter" []
    end
  end.

(** The members of an object, likewise. *)
Fixpoint parse_object (scan : str -> pyresult (value * str))
    (fuel : nat) (s : str) (acc : list (str * value)) : pyresult (value * str) :=
  match fuel with
  | O => fail_at "Expecting value" s
  | S fuel' =>
    match s with
    | q :: r0 =>
      if q =? 34 then
        '(key, r1) <- scanstring (index_of s) r0 [] ;;
        match skip_whitespace r1 with
        | colon :: r2 =>
          if colon =? 58 then
            '(v, r3) <- scan (skip_whitespace r2) ;;
            let acc' := dict_set acc key v in
            match skip_whitespace r3 with
            | c :: r4 =>
              if c =? 125 then Ok (JDict acc', r4)
              else if c =? 44
              then parse_object scan fuel' (skip_whitespace r4) acc'
              else fail_at "Expecting ',' delimiter" (c :: r4)
            | [] => fail_at "Expecting ',' delimiter" []
            end
          else fail_at "Expecting ':' delimiter" (colon :: r2)
        | [] => fail_at "Expecting ':' delimiter" []
        end
      else fail_at "Expecting property name enclosed in double quotes" s
    | [] => fail_at "Expecting property name enclosed in double quotes" s
    end
  end.

Definition recursion_error (what : string) : exn :=
  Exn RecursionError
    (u "maximum recursion depth exceeded while decoding a JSON " ++ u what
     ++ u " from a unicode string").

(** [scan_once]: one JSON value at the start of [s]; [depth] is the number of
    nested arrays and objects the interpreter still allows. *)
Fixpoint scan_once (depth : nat) (s : str) : pyresult (value * str) :=
  match s with
  | [] => fail_at "Expecting value" s
  | c :: r =>
    if c =? 34 then
      '(v, r') <- scanstring (index_of s) r [] ;; Ok (JStr v, r')
    else if c =? 123 then
      match depth with
      | O => Raise (recursion_error "object")
      | S d =>
        match skip_whitespace r with
        | c' :: r' =>
          if c' =? 125 then Ok (JDict [], r')
          else parse_object (scan_once d) (S (List.length r)) (c' :: r') []
        | [] => parse_object (scan_once d) (S (List.length r)) [] []
        end
      end
    else if c =? 91 then
      match depth with
      | O => Raise (recursion_error "array")
      | S d =>
        match skip_whitespace r with
        | c' :: r' =>
          if c' =? 93 then Ok (JList [], r')
          else parse_array (scan_once d) (S (List.length r)) (c' :: r') []
        | [] => parse_array (scan_once d) (S (List.length r)) [] []
        end
      end
    else
      match starts_with (u "null") s, starts_with (u "true") s,
            starts_with (u "false") s, starts_with (u "NaN") s,
            starts_with (u "Infinity") s, starts_with (u "-Infinity") s with
      | Some r', _, _, _, _, _ => Ok (JNone, r')
      | _, Some r', _, _, _, _ => Ok (JBool true, r')
      | _, _, Some r', _, _, _ => Ok (JBool false, r')
      | _, _, _, Some r', _, _ => Ok (JFloat (u "NaN"), r')
      | _, _, _, _, Some r', _ => Ok (JFloat (u "Infinity"), r')
      | _, _, _, _, _, Some r' => Ok (JFloat (u "-Infinity"), r')
      | _, _, _, _, _, _ => match_number s
      end
  end.

End Decoder.

(** [json.loads(s)] for a [str] argument, with the default decoder. *)
Definition loads (s : str) : pyresult value :=
  match s with
  | c :: _ =>
    if c =? 0xFEFF
    then Raise (decode_error s "Unexpected UTF-8 BOM (decode using utf-8-sig)" 0)
    else
      '(v, r) <- scan_once s recursion_limit (skip_whitespace s) ;;
      match skip_whitespace r with
      | [] => Ok v
      | r' => fail_at s "Extra data" r'
      end
  | [] => fail_at s "Expecting value" s
  end.

(** ** Truth values *)

(** The digits of a float lexeme, mantissa and exponent apart: the integer
    that the digits before and after the point spell, the number of digits
    after the point, and the exponent. *)
Definition float_parts (lexeme : str) : Z * Z * Z :=
  let unsigned :=
    match lexeme with
    | c :: r => if c =? 45 then r else lexeme
    | [] => lexeme
    end in
  let '(int_part, r1) := span_digits unsigned in
  let '(frac, r2) :=
    match r1 with
    | c :: r => if c =? 46 then span_digits r else ([], r1)
    | [] => ([], r1)
    end in
  let exponent :=
    match r2 with
    | _ :: c :: r =>
      if c =? 45 then (- decimal_value r)%Z
      else if c =? 43 then decimal_value r
      else decimal_value (c :: r)
    | _ => 0%Z
    end in
  (decimal_value (int_part ++ frac), Z.of_nat (List.length frac), exponent).

(** The float a lexeme denotes is zero: its digits are zeros, or it is at most
    [2 ^ -1075], half of the least positive float, and rounds to zero. *)
Definition float_is_zero (lexeme : str) : bool :=
  match lexeme with
  | c :: _ =>
    if (c =? 78) || (c =? 73) then false              (* NaN, Infinity *)
    else
      match starts_with (u "-I") lexeme with
      | Some _ => false                                (* -Infinity *)
      | None =>
        let '(digits, frac_len, exponent) := float_parts lexeme in
        let e10 := (exponent - frac_len)%Z in
        (digits =? 0)%Z ||
        ((e10 <? 0)%Z && (digits * 2 ^ 1075 <=? 10 ^ (- e10))%Z)
      end
  | [] => false
  end.

(** [bool(v)] *)
Definition truthy (v : value) : bool :=
  match v with
  | JNone => false
  | JBool t => t
  | JInt n => negb (n =? 0)%Z
  | JFloat lexeme => negb (float_is_zero lexeme)
  | JStr s => match s with [] => false | _ :: _ => true end
  | JList l => match l with [] => false | _ :: _ => true end
  | JDict d => match d with [] => false | _ :: _ => true end
  end.

End Json.

(* ================================================================== *)
(** * [print] *)
(* ================================================================== *)

(** [sys.stdout] is a text stream with the encoding UTF-8 and the error
    handler [strict], the default: every code point can be written but the
    surrogates U+D800 to U+DFFF. *)
Module Console.

Definition is_surrogate (c : char) : bool := (0xD800 <=? c) && (c <=? 0xDFFF).

(** A text without surrogates. *)
Definition encodable (s : str) : bool := forallb (fun c => negb (is_surrogate c)) s.

(** The number of surrogates [s] starts with. *)
Fixpoint surrogate_run (s : str) : nat :=
  match s with
  | c :: r => if is_surrogate c then S (surrogate_run r) else O
  | [] => O
  end.

(** The escape of a surrogate in a message: a backslash, [u] and four
    hexadecimal digits. *)
Definition escape (c : char) : str :=
  [92; 117; Utf8.hex_digit (c / 4096); Utf8.hex_digit (c / 256 mod 16);
   Utf8.hex_digit (c / 16 mod 16); Utf8.hex_digit (c mod 16)].

(** [str(UnicodeEncodeError('utf-8', s, start, start + len, reason))] *)
Definition encode_error (c : char) (start len : nat) : exn :=
  Exn UnicodeEncodeError
    (match len with
     | 1%nat => u "'utf-8' codec can't encode character '" ++ escape c
                ++ u "' in position " ++ str_of_nat start
     | _ => u "'utf-8' codec can't encode characters in position "
            ++ str_of_nat start ++ u "-" ++ str_of_nat (start + len - 1)
     end ++ u ": surrogates not allowed").

(** [sys.stdout.write(s)], the character at index [pos] first. *)
Fixpoint write_from (pos : nat) (s : str) : pyresult unit :=
  match s with
  | [] => Ok tt
  | c :: r =>
    if is_surrogate c then Raise (encode_error c pos (S (surrogate_run r)))
    else write_from (S pos) r
  end.

(** [print(s, ...)] for a [str]. *)
Definition print_str (s : str) : pyresult unit := write_from 0 s.

(** [print(v, end="", flush=True)] for a decoded JSON value.  What [str]
    makes of a value that is not a [str] has every surrogate escaped and can
    be written. *)
Definition print (v : Json.value) : pyresult unit :=
  match v with
  | Json.JStr s => print_str s
  | _ => Ok tt
  end.

End Console.

(* ================================================================== *)
(** * [int], [/] and the character categories of [str] *)
(* ================================================================== *)

Module Num.

(** The first code points of the runs of ten decimal digits (general
    category Nd); the digit values in a run are 0 to 9 in order. *)
Definition decimal_runs : list N :=
  [0x30; 0x660; 0x6F0; 0x7C0; 0x966; 0x9E6; 0xA66; 0xAE6; 0xB66; 0xBE6;
   0xC66; 0xCE6; 0xD66; 0xDE6; 0xE50; 0xED0; 0xF20; 0x1040; 0x1090; 0x17E0;
   0x1810; 0x1946; 0x19D0; 0x1A80; 0x1A90; 0x1B50; 0x1BB0; 0x1C40; 0x1C50;
   0xA620; 0xA8D0; 0xA900; 0xA9D0; 0xA9F0; 0xAA50; 0xABF0; 0xFF10; 0x104A0;
   0x10D30; 0x11066; 0x110F0; 0x11136; 0x111D0; 0x112F0; 0x11450; 0x114D0;
   0x11650; 0x116C0; 0x11730; 0x118E0; 0x11950; 0x11C50; 0x11D50; 0x11DA0;
   0x16A60; 0x16AC0; 0x16B50;
   0x1D7CE; 0x1D7D8; 0x1D7E2; 0x1D7EC; 0x1D7F6;
   0x1E140; 0x1E2F0; 0x1E950; 0x1FBF0].

(** [unicodedata.decimal(c, None)] *)
Definition decimal (c : char) : option N :=
  match find (fun r => (r <=? c) && (c <? r + 10)) decimal_runs with
  | Some r => Some (c - r)
  | None => None
  end.

(** [c.isdecimal()] *)
Definition isdecimal (c : char) : bool :=
  match decimal c with Some _ => true | None => false end.

(** [c.isspace()] *)
Definition isspace (c : char) : bool :=
  existsb (N.eqb c)
    [0x9; 0xA; 0xB; 0xC; 0xD; 0x1C; 0x1D; 0x1E; 0x1F; 0x20; 0x85; 0xA0;
     0x1680; 0x2000; 0x2001; 0x2002; 0x2003; 0x2004; 0x2005; 0x2006; 0x2007;
     0x2008; 0x2009; 0x200A; 0x2028; 0x2029; 0x202F; 0x205F; 0x3000].

(** The value of a string of decimal digits, if it is one. *)
Fixpoint digits_value (acc : Z) (s : str) : option Z :=
  match s with
  | [] => Some acc
  | c :: r =>
    match decimal c with
    | Some d => digits_value (10 * acc + Z.of_N d) r
    | None => None
    end
  end.

(** [int(s)] for a string [s] made of decimal digits only, the strings the
    coordinate pattern captures.  Signs, underscores and surrounding
    whitespace, which [int] also accepts, are left out: every other string is
    rejected. *)
Definition int (s : str) : pyresult Z :=
  match s, digits_value 0 s with
  | _ :: _, Some n =>
    if (Json.int_max_str_digits <? List.length s)%nat
    then Raise (Json.int_too_long (List.length s))
    else Ok n
  | _, _ =>
    Raise (Exn ValueError
             (u "invalid literal for int() with base 10: '" ++ s ++ u "'"))
  end.

(** A Python [float]: an IEEE 754 binary64 number. *)
Definition float := spec_float.

Definition prec : Z := 53.
Definition emax : Z := 1024.

(** An integer as an exact binary number (the mantissa is not rounded). *)
Definition exact (n : Z) : spec_float :=
  match n with
  | Z0 => S754_zero false
  | Zpos p => S754_finite false p 0
  | Zneg p => S754_finite true p 0
  end.

(** [a / b] on integers: the quotient rounded once, to nearest even. *)
Definition truediv (a b : Z) : pyresult float :=
  match b with
  | Z0 => Raise (Exn ZeroDivisionError (u "division by zero"))
  | _ =>
    match SFdiv prec emax (exact a) (exact b) with
    | S754_infinity _ =>
      Raise (Exn OverflowError (u "integer division result too large for a float"))
    | q => Ok q
    end
  end.

(** [float(n)] for an integer that a binary64 number represents exactly. *)
Definition of_int (n : Z) : float := binary_normalize prec emax n 0 false.

End Num.

(* ================================================================== *)
(** * [re.findall] *)
(* ================================================================== *)

Module Re.

(** The part of the pattern language that [coords_pattern] uses. *)
Inductive atom :=
| Lit (c : char)    (* a literal character, escaped or not *)
| Digit             (* \d *)
| Space.            (* \s *)

Inductive regex :=
| Empty
| One (a : atom)
| Star (a : atom)            (* a*, greedy *)
| Plus (a : atom)            (* a+, greedy *)
| Group (r : regex)          (* (r), capturing *)
| Seq (r1 r2 : regex).

(** The concatenation of the items of a pattern, in order. *)
Definition concat (items : list regex) : regex := fold_right Seq Empty items.

Definition accepts (a : atom) (c : char) : bool :=
  match a with
  | Lit x => x =? c
  | Digit => Num.isdecimal c
  | Space => Num.isspace c
  end.

(** The text between the start of [s] and the start of its suffix [rest]. *)
Definition consumed (s rest : str) : str :=
  firstn (List.length s - List.length rest) s.

Section Matcher.

Context {A : Type}.

(** The backtracking matcher.  The continuation receives the rest of the input
    and the groups captured so far; when it fails the matcher tries the next
    alternative, a shorter repetition. *)
Fixpoint repeat_greedy (a : atom) (s : str) (k : str -> option A) : option A :=
  match s with
  | c :: r =>
    if accepts a c then
      match repeat_greedy a r k with
      | Some x => Some x
      | None => k s
      end
    else k s
  | [] => k s
  end.

Fixpoint run (r : regex) (s : str) (k : str -> list str -> option A) : option A :=
  match r with
  | Empty => k s []
  | One a =>
    match s with
    | c :: s' => if accepts a c then k s' [] else None
    | [] => None
    end
  | Star a => repeat_greedy a s (fun s' => k s' [])
  | Plus a =>
    match s with
    | c :: s' =>
      if accepts a c then repeat_greedy a s' (fun s'' => k s'' []) else None
    | [] => None
    end
  | Group r1 => run r1 s (fun s' gs => k s' (consumed s s' :: gs))
  | Seq r1 r2 =>
    run r1 s (fun s1 g1 => run r2 s1 (fun s2 g2 => k s2 (g1 ++ g2)))
  end.

End Matcher.

(** A match of the pattern at the start of [s]: its groups and the rest of the
    input.  With [must_advance] an empty match is refused, which makes the
    matcher backtrack. *)
Definition match_at (p : regex) (must_advance : bool) (s : str)
    : option (list str * str) :=
  run p s (fun rest gs =>
    if must_advance && (List.length rest =? List.length s)%nat
    then None else Some (gs, rest)).

(** A match found by a search: the number of characters skipped before it,
    its groups, the matched text and the input after it. *)
Record found := Found {
  skipped : nat;
  groups : list str;
  matched : str;
  rest : str
}.

(** The first match at or after the start of [s], which is [skip] characters
    into the search; [must_advance] only concerns the first position. *)
Fixpoint search (p : regex) (must_advance : bool) (skip : nat) (s : str)
    : option found :=
  match match_at p must_advance s with
  | Some (gs, r) => Some (Found skip gs (consumed s r) r)
  | None =>
    match s with
    | [] => None
    | _ :: s' => search p false (S skip) s'
    end
  end.

Definition is_empty (s : str) : bool :=
  match s with [] => true | _ :: _ => false end.

(** The loop of [findall]: each search starts where the last match ended, and
    after an empty match the next one must advance. *)
Fixpoint findall_loop (fuel : nat) (p : regex) (must_advance : bool) (s : str)
    : list (list str) :=
  match fuel with
  | O => []
  | S fuel' =>
    match search p must_advance 0 s with
    | None => []
    | Some m =>
      groups m :: findall_loop fuel' p (is_empty (matched m)) (rest m)
    end
  end.

(** [re.findall(pattern, string)] for a pattern with several groups: the
    groups of every match, in the order the matches are found.  Two rounds per
    position are enough, since an empty match is followed by one that
    advances. *)
Definition findall (p : regex) (s : str) : list (list str) :=
  findall_loop (2 * List.length s + 2) p false s.

End Re.

(* ================================================================== *)
(** * The collaborators: Pillow and the httpx transport *)
(* ================================================================== *)

(** The Pillow calls of [draw_bounding_boxes].  An [image] is the state of the
    object [Image.open] returns; [rectangle] draws on it in place, which is
    modelled by returning the new state. *)
Class Pillow := {
  image : Type;
  (** [Image.open(io.BytesIO(data))] *)
  Image_open : bytes -> pyresult image;
  (** [ImageDraw.Draw(img)]: the drawing handle on [img] *)
  ImageDraw_Draw : image -> pyresult unit;
  (** [img.size]: the width and the height, which Pillow holds in C [int]s *)
  size : image -> Z * Z;
  size_range : forall img,
    (0 <= fst (size img) < 2 ^ 31)%Z /\ (0 <= snd (size img) < 2 ^ 31)%Z;
  (** [draw.rectangle(xy, outline=..., width=...)] *)
  rectangle : image -> list Num.float -> str -> Z -> pyresult image;
  (** [img.save(buffered, format=...)] followed by [buffered.getvalue()] *)
  save : image -> str -> pyresult bytes;
  (** the messages of the exceptions Pillow raises can be printed *)
  Image_open_message : forall data e,
    Image_open data = Raise e -> Console.encodable (exn_str e) = true;
  ImageDraw_Draw_message : forall img e,
    ImageDraw_Draw img = Raise e -> Console.encodable (exn_str e) = true;
  rectangle_message : forall img xy outline width e,
    rectangle img xy outline width = Raise e ->
    Console.encodable (exn_str e) = true;
  save_message : forall img format e,
    save img format = Raise e -> Console.encodable (exn_str e) = true
}.

(** The JSON body of the request to Ollama. *)
Record payload := Payload {
  model : str;
  prompt : str;
  images : list str;
  stream : bool
}.

(** How a streamed body ends: the connection is closed, or reading raises. *)
Inductive stream_end :=
| Closed
| Broken (e : exn).

(** A streamed response: its status and what [aiter_bytes] yields. *)
Record response := Response {
  status_code : Z;
  chunks : list bytes;
  ending : stream_end
}.

(** The httpx calls of [perform_ocr]. *)
Class HttpxClient := {
  (** [AsyncClient(timeout=t).stream(method, url, json=payload)], entered:
      the response, or the exception raised while sending the request *)
  client_stream : Z -> str -> str -> payload -> pyresult response;
  (** the message of the [HTTPStatusError] of a response *)
  status_error_message : response -> str
}.

(** [response.raise_for_status()] *)
Definition raise_for_status `{HttpxClient} (r : response) : pyresult unit :=
  if (200 <=? status_code r)%Z && (status_code r <=? 299)%Z then Ok tt
  else Raise (Exn (Httpx HTTPStatusError) (status_error_message r)).

(** [for x in xs: body], the loop threading the state [st]. *)
Fixpoint for_each {S X : Type} (xs : list X) (st : S)
    (body : S -> X -> pyresult S) : pyresult S :=
  match xs with
  | [] => Ok st
  | x :: xs' => st' <- body st x ;; for_each xs' st' body
  end.

(* ================================================================== *)
(** * [main.py] *)
(* ================================================================== *)

Definition OLLAMA_API_URL : str := u "http://localhost:11434/api/generate".
Definition MODEL_NAME : str := u "deepseek-ocr".

(** [r'\[\[(\d+),\s*(\d+),\s*(\d+),\s*(\d+)\]\]'] *)
Definition coords_pattern : Re.regex :=
  Re.concat
    [Re.One (Re.Lit 91); Re.One (Re.Lit 91);            (* \[\[ *)
     Re.Group (Re.Plus Re.Digit);                       (* (\d+) *)
     Re.One (Re.Lit 44); Re.Star Re.Space;              (* ,\s* *)
     Re.Group (Re.Plus Re.Digit);
     Re.One (Re.Lit 44); Re.Star Re.Space;
     Re.Group (Re.Plus Re.Digit);
     Re.One (Re.Lit 44); Re.Star Re.Space;
     Re.Group (Re.Plus Re.Digit);
     Re.One (Re.Lit 93); Re.One (Re.Lit 93)].           (* \]\] *)

Definition unpack_error (msg : str) : exn := Exn ValueError msg.

(** [x1, y1, x2, y2 = map(int, match)]: the items are converted one by one
    while the four targets are filled, and one more is asked for. *)
Definition unpack_int4 (m : list str) : pyresult (Z * Z * Z * Z) :=
  match m with
  | a :: b :: c :: d :: more =>
    x1 <- Num.int a ;; y1 <- Num.int b ;; x2 <- Num.int c ;; y2 <- Num.int d ;;
    match more with
    | [] => Ok (x1, y1, x2, y2)
    | e :: _ =>
      _ <- Num.int e ;;
      Raise (unpack_error (u "too many values to unpack (expected 4)"))
    end
  | _ =>
    _ <- for_each m tt (fun _ x => _ <- Num.int x ;; Ok tt) ;;
    Raise (unpack_error (u "not enough values to unpack (expected 4, got "
                         ++ str_of_nat (List.length m) ++ u ")"))
  end.

Section Backend.

Context {pil : Pillow} {net : HttpxClient}.

(** The body of the loop of [draw_bounding_boxes] (lines 37 to 45). *)
Definition draw_match (w h : Z) (img : image) (m : list str) : pyresult image :=
  '(x1, y1, x2, y2) <- unpack_int4 m ;;
  left <- Num.truediv (x1 * w) 1000 ;;
  top <- Num.truediv (y1 * h) 1000 ;;
  right <- Num.truediv (x2 * w) 1000 ;;
  bottom <- Num.truediv (y2 * h) 1000 ;;
  rectangle img [left; top; right; bottom] (u "#00ff00") 3.

(** The [try] block of [draw_bounding_boxes] (lines 28 to 50). *)
Definition draw_bounding_boxes_try (image_bytes : bytes) (response_text : str)
    : pyresult str :=
  img <- Image_open image_bytes ;;
  _ <- ImageDraw_Draw img ;;
  let '(w, h) := size img in
  let matches := Re.findall coords_pattern response_text in
  img' <- for_each matches img (draw_match w h) ;;
  buffered <- save img' (u "PNG") ;;
  Ok (Base64.b64encode_str buffered).

(** [draw_bounding_boxes]: [None] stands for Python's [None].  The handler
    prints the exception and returns [None]. *)
Definition draw_bounding_boxes (image_bytes : bytes) (response_text : str)
    : pyresult (option str) :=
  try_except
    (s <- draw_bounding_boxes_try image_bytes response_text ;; Ok (Some s))
    is_Exception
    (fun e =>
       _ <- Console.print_str (u "Error drawing boxes: " ++ exn_str e) ;;
       Ok None).

(** [text_response += content] *)
Definition iadd (text_response : str) (content : Json.value) : pyresult str :=
  match content with
  | Json.JStr s => Ok (text_response ++ s)
  | _ =>
    Raise (Exn TypeError
             (u "can only concatenate str (not " ++ [34] ++ u (Json.type_name content)
              ++ [34] ++ u ") to str"))
  end.

(** The body of the chunk loop (lines 87 to 102).  What [print] writes is not
    kept, only whether it raises.  [continue] in the handler leaves
    [text_response] as it is, and [json.loads], the only call that can raise
    [JSONDecodeError], comes before the text is extended. *)
Definition process_chunk (text_response : str) (chunk : bytes) : pyresult str :=
  match chunk with
  | [] => Ok text_response
  | _ :: _ =>
    try_except
      (s <- Utf8.decode chunk ;;
       chunk_data <- Json.loads s ;;
       content <- Json.get chunk_data (u "response") (Json.JStr []) ;;
       _ <- Console.print content ;;
       text_response' <- iadd text_response content ;;
       finished <- Json.get chunk_data (u "done") Json.JNone ;;
       _ <- (if Json.truthy finished
             then Console.print_str ([10] ++ u "--- Generation Complete ---")
             else Ok tt) ;;
       Ok text_response')
      is_JSONDecodeError
      (fun _ => Ok text_response)
  end.

(** The dictionary [perform_ocr] returns. *)
Record ocr_result := OcrResult {
  text : str;
  processed_image : option str;
  done : bool
}.

(** The outer [try] block of [perform_ocr] (lines 65 to 111). *)
Definition perform_ocr_try (image_data : bytes) (prompt : str)
    : pyresult ocr_result :=
  let base64_image := Base64.b64encode_str image_data in
  let payload := Payload MODEL_NAME prompt [base64_image] true in
  _ <- Console.print_str
         (u "--- Sending request to Ollama (" ++ MODEL_NAME ++ u ") ---") ;;
  response <- client_stream 120 (u "POST") OLLAMA_API_URL payload ;;
  _ <- raise_for_status response ;;
  text_response <- for_each (chunks response) [] process_chunk ;;
  _ <- match ending response with
       | Closed => Ok tt
       | Broken e => Raise e
       end ;;
  processed_image_base64 <- draw_bounding_boxes image_data text_response ;;
  Ok (OcrResult text_response processed_image_base64 true).

(** What the endpoint does: it returns the result, or raises
    [HTTPException(status_code, detail)]. *)
Inductive outcome :=
| Return (r : ocr_result)
| HTTPException (status_code : Z) (detail : str).

(** [perform_ocr]: the handler of [POST /ocr]. *)
Definition perform_ocr (image_data : bytes) (prompt : str) : outcome :=
  match perform_ocr_try image_data prompt with
  | Ok r => Return r
  | Raise e =>
    if is_HTTPError e
    then HTTPException 500 (u "Ollama API Error: " ++ exn_str e)
    else HTTPException 500 (u "Internal Server Error: " ++ exn_str e)
  end.

End Backend.

(** An ASCII literal holds no surrogate. *)
Lemma encodable_literal (message : string) : Console.encodable (u message) = true.
Proof.
  unfold Console.encodable, u. apply forallb_forall. intros c Hc.
  apply in_map_iff in Hc as (a & <- & _).
  pose proof (N_ascii_bounded a) as Ha. unfold Console.is_surrogate.
  destruct (N.leb_spec 0xD800 (N_of_ascii a)); [lia|reflexivity].
Qed.

(* ================================================================== *)
(** * Stand-ins for the collaborators *)
(* ================================================================== *)

(** Small implementations of the two interfaces, on which the program can be
    run.  [Fake.pillow] reads a five-byte picture format and behaves like
    Pillow 9.5 and later in the two places the program depends on: [rectangle]
    refuses a box whose second corner lies before the first, and the PNG writer
    refuses the mode CMYK. *)
Module Fake.

Inductive mode := RGB | CMYK.

(** A picture: the bytes of its width and height (most significant first), its
    mode, and the boxes drawn on it, first drawn first. *)
Record picture := Picture {
  width_hi : byte; width_lo : byte;
  height_hi : byte; height_lo : byte;
  mode_of : mode;
  drawn : list (list Num.float)
}.

Definition word (hi lo : byte) : Z :=
  Z.of_N (Byte.to_N hi) * 256 + Z.of_N (Byte.to_N lo).

Definition picture_size (p : picture) : Z * Z :=
  (word (width_hi p) (width_lo p), word (height_hi p) (height_lo p)).

(** An exception with an ASCII message. *)
Definition fail {A} (class : exn_class) (message : string) : pyresult A :=
  Raise (Exn class (u message)).

(** The format: a mode byte (0 for RGB, 1 for CMYK), two bytes of width and
    two bytes of height. *)
Definition open (data : bytes) : pyresult picture :=
  match data with
  | [m; wh; wl; hh; hl] =>
    if Byte.eqb m x00 then Ok (Picture wh wl hh hl RGB [])
    else if Byte.eqb m x01 then Ok (Picture wh wl hh hl CMYK [])
    else fail UnidentifiedImageError "cannot identify image file"
  | _ => fail UnidentifiedImageError "cannot identify image file"
  end.

Definition draw_rectangle (p : picture) (xy : list Num.float)
    (outline : str) (width : Z) : pyresult picture :=
  match xy with
  | [x0; y0; x1; y1] =>
    if SFltb x1 x0
    then fail ValueError "x1 must be greater than or equal to x0"
    else if SFltb y1 y0
    then fail ValueError "y1 must be greater than or equal to y0"
    else Ok (Picture (width_hi p) (width_lo p) (height_hi p) (height_lo p)
               (mode_of p) (drawn p ++ [xy]))
  | _ => fail TypeError "incorrect coordinate type"
  end.

Definition count_byte (n : nat) : byte :=
  match Byte.of_N (N.of_nat n mod 256) with Some x => x | None => x00 end.

Definition write (p : picture) (format : str) : pyresult bytes :=
  match mode_of p with
  | CMYK => fail OSError "cannot write mode CMYK as PNG"
  | RGB =>
    Ok [x00; width_hi p; width_lo p; height_hi p; height_lo p;
        count_byte (List.length (drawn p))]
  end.

(** A word fits a C [int], as [size_range] asks. *)
Lemma word_range (hi lo : byte) : (0 <= word hi lo < 2 ^ 31)%Z.
Proof.
  unfold word.
  pose proof (Byte.to_N_bounded hi); pose proof (Byte.to_N_bounded lo).
  change (2 ^ 31)%Z with 2147483648%Z. lia.
Qed.

Lemma fail_message {A} class message (e : exn) :
  @fail A class message = Raise e -> Console.encodable (exn_str e) = true.
Proof. intros H. injection H as <-. apply encodable_literal. Qed.

Lemma open_message data e :
  open data = Raise e -> Console.encodable (exn_str e) = true.
Proof.
  unfold open.
  destruct data as [|m [|wh [|wl [|hh [|hl [|x r]]]]]];
    try apply fail_message.
  destruct (Byte.eqb m x00); [discriminate|].
  destruct (Byte.eqb m x01); [discriminate|apply fail_message].
Qed.

Lemma draw_rectangle_message p xy outline width e :
  draw_rectangle p xy outline width = Raise e ->
  Console.encodable (exn_str e) = true.
Proof.
  unfold draw_rectangle.
  destruct xy as [|x0 [|y0 [|x1 [|y1 [|z r]]]]]; try apply fail_message.
  destruct (SFltb x1 x0); [apply fail_message|].
  destruct (SFltb y1 y0); [apply fail_message|discriminate].
Qed.

Lemma write_message p format e :
  write p format = Raise e -> Console.encodable (exn_str e) = true.
Proof.
  unfold write. destruct (mode_of p); [discriminate|apply fail_message].
Qed.

#[local] Instance pillow : Pillow := {
  image := picture;
  Image_open := open;
  ImageDraw_Draw := fun _ => Ok tt;
  size := picture_size;
  size_range := fun p =>
    conj (word_range (width_hi p) (width_lo p))
         (word_range (height_hi p) (height_lo p));
  rectangle := draw_rectangle;
  save := write;
  Image_open_message := open_message;
  ImageDraw_Draw_message := fun _ e H =>
    match H in _ = r return match r with Raise _ => _ | Ok _ => True end
    with eq_refl => I end;
  rectangle_message := draw_rectangle_message;
  save_message := write_message
}.

(** A transport that answers every request in the same way. *)
Definition httpx (answer : pyresult response) : HttpxClient := {|
  client_stream := fun _ _ _ _ => answer;
  status_error_message := fun r =>
    u "Server error for url '" ++ OLLAMA_API_URL ++ u "'"
|}.

End Fake.

(* ================================================================== *)
(** * The notions the properties are stated with *)
(* ================================================================== *)

(** ** Textual matches of a pattern *)

(** [matches r s gs]: the text [s] as a whole matches [r], and [gs] are the
    texts of the groups, in the order of their opening parentheses. *)
Inductive matches : Re.regex -> str -> list str -> Prop :=
| matches_empty : matches Re.Empty [] []
| matches_one a c :
    Re.accepts a c = true -> matches (Re.One a) [c] []
| matches_star a s :
    forallb (Re.accepts a) s = true -> matches (Re.Star a) s []
| matches_plus a c s :
    forallb (Re.accepts a) (c :: s) = true -> matches (Re.Plus a) (c :: s) []
| matches_group r s gs :
    matches r s gs -> matches (Re.Group r) s (s :: gs)
| matches_seq r1 r2 s1 s2 g1 g2 :
    matches r1 s1 g1 -> matches r2 s2 g2 ->
    matches (Re.Seq r1 r2) (s1 ++ s2) (g1 ++ g2).

(** The slice [text[i:j]]. *)
Definition slice (text : str) (i j : nat) : str := firstn (j - i) (skipn i text).

(** The pattern matches [text[i:j]] with the groups [gs]. *)
Definition occurs (p : Re.regex) (text : str) (i j : nat) (gs : list str) : Prop :=
  (i <= j <= List.length text)%nat /\ matches p (slice text i j) gs.

(** A match found in a text: where it starts, where it ends, its groups. *)
Record span := Span {
  span_start : nat;
  span_end : nat;
  span_groups : list str
}.

(** [leftmost p text from spans]: [spans] are the non-overlapping matches of
    [p] in [text] from index [from] on, in the order of appearance: each one
    is not empty, starts at the first index, not before the end of the one
    before it, at which the pattern matches, and no match starts after the
    last. *)
Inductive leftmost (p : Re.regex) (text : str) : nat -> list span -> Prop :=
| leftmost_nil from :
    (forall i j gs, (from <= i)%nat -> ~ occurs p text i j gs) ->
    leftmost p text from []
| leftmost_cons from i j gs spans :
    (from <= i < j)%nat ->
    occurs p text i j gs ->
    (forall i' j' gs', (from <= i' < i)%nat -> ~ occurs p text i' j' gs') ->
    leftmost p text j spans ->
    leftmost p text from (Span i j gs :: spans).

(** [p] matches a prefix of [s]. *)
Definition matches_prefix (p : Re.regex) (s : str) : Prop :=
  exists s1 s2 gs, s = s1 ++ s2 /\ matches p s1 gs.

(** A pattern that does not match the empty text. *)
Definition never_empty (p : Re.regex) : Prop := forall gs, ~ matches p [] gs.

(** A non-empty string of decimal digits. *)
Definition digits (s : str) : Prop :=
  s <> [] /\ forallb Num.isdecimal s = true.

Definition spaces (s : str) : Prop := forallb Num.isspace s = true.

(** The bracketed four-integer pattern in the words of the specification:
    two opening brackets, four unsigned integers separated by commas, each
    comma followed by optional whitespace, and two closing brackets.  The
    groups are the four integers as written. *)
Definition bracketed_tuple (s : str) (gs : list str) : Prop :=
  exists a b c d sp1 sp2 sp3,
    digits a /\ digits b /\ digits c /\ digits d /\
    spaces sp1 /\ spaces sp2 /\ spaces sp3 /\
    gs = [a; b; c; d] /\
    s = u "[[" ++ a ++ u "," ++ sp1 ++ b ++ u "," ++ sp2 ++ c
        ++ u "," ++ sp3 ++ d ++ u "]]".

Ltac invert_matches :=
  repeat match goal with
  | H : matches Re.Empty _ _ |- _ => inversion H; clear H; subst
  | H : matches (Re.One _) _ _ |- _ => inversion H; clear H; subst
  | H : matches (Re.Star _) _ _ |- _ => inversion H; clear H; subst
  | H : matches (Re.Plus _) _ _ |- _ => inversion H; clear H; subst
  | H : matches (Re.Group _) _ _ |- _ => inversion H; clear H; subst
  | H : matches (Re.Seq _ _) _ _ |- _ => inversion H; clear H; subst
  | H : Re.accepts (Re.Lit _) _ = true |- _ =>
      cbn [Re.accepts] in H; apply N.eqb_eq in H; subst
  end.

(** The groups of a match of the coordinate pattern. *)
Definition digit_groups (m : list str) : Prop :=
  exists a b c d, m = [a; b; c; d] /\ digits a /\ digits b /\ digits c /\ digits d.

(** ** Stream chunks *)

(** What decoding a chunk gives: [chunk.decode('utf-8')], then [json.loads]. *)
Definition decode_chunk (chunk : bytes) : pyresult Json.value :=
  s <- Utf8.decode chunk ;; Json.loads s.

(** The chunk decodes as a fragment with the text delta [delta]: it decodes
    to a JSON object whose field [response] is the string [delta], or that has
    no such field, and then [delta] is the empty string. *)
Inductive decodes_as_fragment (chunk : bytes) : str -> Prop :=
| decodes_with_text d delta :
    decode_chunk chunk = Ok (Json.JDict d) ->
    Json.dict_lookup d (u "response") = Some (Json.JStr delta) ->
    decodes_as_fragment chunk delta
| decodes_without_text d :
    decode_chunk chunk = Ok (Json.JDict d) ->
    Json.dict_lookup d (u "response") = None ->
    decodes_as_fragment chunk [].

(** The fragments that go through the loop: the chunk decodes as a fragment
    with the text delta [delta], and [print] can write [delta], which holds no
    surrogate code point ([Console.encodable]).  JSON can spell a surrogate
    with an escape such as [\ud800]; a chunk with such a delta decodes as a
    fragment and is no [fragment] in this sense. *)
Inductive fragment (chunk : bytes) : str -> Prop :=
| fragment_text d delta :
    decode_chunk chunk = Ok (Json.JDict d) ->
    Json.dict_lookup d (u "response") = Some (Json.JStr delta) ->
    Console.encodable delta = true ->
    fragment chunk delta
| fragment_no_text d :
    decode_chunk chunk = Ok (Json.JDict d) ->
    Json.dict_lookup d (u "response") = None ->
    fragment chunk [].

(** The chunk is not valid JSON: decoding it raises [JSONDecodeError]. *)
Definition json_undecodable (chunk : bytes) : Prop :=
  exists e, decode_chunk chunk = Raise e /\ is_JSONDecodeError e = true.

(** The chunks of a stream with the text delta of each valid one; an
    undecodable chunk has none. *)
Inductive deltas : list bytes -> list str -> Prop :=
| deltas_nil : deltas [] []
| deltas_fragment chunk delta chunks ds :
    fragment chunk delta -> deltas chunks ds ->
    deltas (chunk :: chunks) (delta :: ds)
| deltas_skip chunk chunks ds :
    json_undecodable chunk -> deltas chunks ds ->
    deltas (chunk :: chunks) ds.

(** ** Chunk boundaries *)

(** The bytes of JSON whitespace: space, tab, line feed, carriage return. *)
Definition whitespace_byte (b : byte) : bool := Json.is_whitespace (Byte.to_N b).

(** The first character of [l], if there is one, does not satisfy [P]. *)
Definition not_first (P : char -> bool) (l : str) : Prop :=
  match l with [] => True | c :: _ => P c = false end.

(** The characters that can come next in a number: a digit, the point, and
    the letters of the exponent. *)
Definition continues_number (c : char) : bool :=
  Json.is_digit c || (c =? 46) || (c =? 101) || (c =? 69).

(** The condition under which a value is read in the same way when text is
    added after it: a number must be followed by a character that cannot
    continue it. *)
Definition number_ends (v : Json.value) (l : str) : Prop :=
  match v with
  | Json.JInt _ | Json.JFloat _ => not_first continues_number l
  | _ => True
  end.

(** The exceptions of [json.loads]: [JSONDecodeError], [ValueError] for an
    integer with too many digits, [RecursionError] for a document nested too
    deep. *)
Definition json_error (e : exn) : Prop :=
  exn_class_of e = JSONDecodeError \/ exn_class_of e = ValueError \/
  exn_class_of e = RecursionError.

(** ** Upstream failures *)

Definition is_success (r : response) : bool :=
  (200 <=? status_code r)%Z && (status_code r <=? 299)%Z.

Section UpstreamFailure.

Context {pil : Pillow} {net : HttpxClient}.

(** [unavailable answer msg]: the answer of the transport is an upstream
    failure whose message is [msg]: the request could not be sent (the
    connection failed or timed out), the status is not 2xx, or reading the
    body raised a transport error, a timeout for one, after chunks that were
    processed without an error. *)
Inductive unavailable : pyresult response -> str -> Prop :=
| unavailable_send e k :
    exn_class_of e = Httpx k ->
    unavailable (Raise e) (exn_str e)
| unavailable_status r :
    is_success r = false ->
    unavailable (Ok r) (status_error_message r)
| unavailable_read r e k partial_text :
    is_success r = true ->
    for_each (chunks r) [] process_chunk = Ok partial_text ->
    ending r = Broken e ->
    exn_class_of e = Httpx k ->
    unavailable (Ok r) (exn_str e).

End UpstreamFailure.

(** The request, as [perform_ocr] sends it. *)
Definition the_request `{HttpxClient} (image_data : bytes) (prompt : str)
    : pyresult response :=
  client_stream 120 (u "POST") OLLAMA_API_URL
    (Payload MODEL_NAME prompt [Base64.b64encode_str image_data] true).

(** ** Scaled coordinates *)

(** The binary64 number nearest to [n / 1000]. *)
Definition scaled (n : Z) : Num.float :=
  SFdiv Num.prec Num.emax (Num.exact n) (Num.exact 1000).


(** [float(n)] as a [spec_float] literal, for examples. *)
Definition flt (n : Z) : Num.float := Num.of_int n.

(** The annotation the renderer returns when [rendered] is the outcome of
    drawing and encoding. *)
Definition annotation (rendered : pyresult bytes) : option str :=
  match rendered with
  | Ok png => Some (Base64.b64encode_str png)
  | Raise _ => None
  end.

(** ** The rectangles of the matches *)

(** The integer that a string of decimal digits spells. *)
Definition number (s : str) : Z :=
  match Num.digits_value 0 s with Some n => n | None => 0%Z end.

(** The rectangle of a match on an image of width [w] and height [h]: the
    first and the third number scaled by the width, the second and the fourth
    by the height. *)
Definition box (w h : Z) (m : list str) : list Num.float :=
  match m with
  | [a; b; c; d] =>
    [scaled (number a * w); scaled (number b * h);
     scaled (number c * w); scaled (number d * h)]
  | _ => []
  end.

(** ** Where a tuple can start *)

(** The text starts like a tuple: two opening brackets and a decimal digit. *)
Definition starts_tuple (s : str) : bool :=
  match s with
  | a :: b :: c :: _ => (a =? 91) && (b =? 91) && Num.isdecimal c
  | _ => false
  end.

(** A tuple starts somewhere in the text. *)
Fixpoint has_tuple_start (s : str) : bool :=
  match s with
  | [] => false
  | _ :: r => starts_tuple s || has_tuple_start r
  end.

(** ** Base64 text *)

(** The value of a character of the base64 alphabet. *)
Definition unsextet (c : char) : option N :=
  if (65 <=? c) && (c <=? 90) then Some (c - 65)
  else if (97 <=? c) && (c <=? 122) then Some (c - 71)
  else if (48 <=? c) && (c <=? 57) then Some (c + 4)
  else if c =? 43 then Some 62
  else if c =? 47 then Some 63
  else None.

(** The byte of the eight low bits of [n]. *)
Definition byte_of (n : N) : option byte := Byte.of_N (n mod 256).

Definition bytes_of (ns : list N) : option bytes :=
  fold_right (fun n acc =>
                match byte_of n, acc with
                | Some b, Some bs => Some (b :: bs)
                | _, _ => None
                end) (Some []) ns.

(** The decoder that a reader of the text applies ([base64.b64decode]):
    four characters give three bytes, and a last group with one or two signs
    of padding gives two bytes or one. *)
Fixpoint b64decode (s : str) : option bytes :=
  match s with
  | [] => Some []
  | c1 :: c2 :: c3 :: c4 :: rest =>
    match unsextet c1, unsextet c2 with
    | Some v1, Some v2 =>
      if c3 =? 61 then
        match rest with
        | [] => if c4 =? 61 then bytes_of [(v1 * 64 + v2) / 16] else None
        | _ :: _ => None
        end
      else
        match unsextet c3 with
        | Some v3 =>
          let w := (v1 * 64 + v2) * 64 + v3 in
          if c4 =? 61 then
            match rest with
            | [] => bytes_of [w / 1024; w / 4]
            | _ :: _ => None
            end
          else
            match unsextet c4, b64decode rest with
            | Some v4, Some bs =>
              let n := w * 64 + v4 in
              match bytes_of [n / 65536; n / 256; n] with
              | Some b3 => Some (b3 ++ bs)
              | None => None
              end
            | _, _ => None
            end
        | None => None
        end
    | _, _ => None
    end
  | _ => None
  end.

(** A character of base64 text: a letter, a digit, [+], [/] or the padding
    sign [=]. *)
Definition base64_char (c : char) : bool :=
  match unsextet c with Some _ => true | None => c =? 61 end.

(* ================================================================== *)
(** * Loops *)
(* ================================================================== *)

Lemma for_each_app {S X} (xs ys : list X) (st : S) body :
  for_each (xs ++ ys) st body =
    (st' <- for_each xs st body ;; for_each ys st' body).
Proof.
  revert st. induction xs as [|x xs IH]; intros st; [reflexivity|].
  cbn [for_each app]. destruct (body st x); cbn [bind]; auto.
Qed.

(** A loop over the images of a list is the loop over the list. *)
Lemma for_each_map {S X Y} (f : X -> Y) (xs : list X) : forall (st : S) body,
  for_each (map f xs) st body = for_each xs st (fun s x => body s (f x)).
Proof.
  induction xs as [|x xs IH]; intros st body; [reflexivity|].
  cbn [map for_each]. destruct (body st (f x)); cbn [bind]; auto.
Qed.

(** [print] raises nothing but [UnicodeEncodeError], and only for a text
    with a surrogate. *)
Lemma write_from_raises s : forall pos e,
  Console.write_from pos s = Raise e -> exn_class_of e = UnicodeEncodeError.
Proof.
  induction s as [|c r IH]; intros pos e H; cbn [Console.write_from] in H.
  - discriminate H.
  - destruct (Console.is_surrogate c); [injection H as <-; reflexivity|].
    eapply IH; eauto.
Qed.

Lemma print_error_not_json v e :
  Console.print v = Raise e -> is_JSONDecodeError e = false.
Proof.
  intros H. unfold is_JSONDecodeError.
  destruct v; try discriminate H.
  now rewrite (write_from_raises _ _ _ H).
Qed.

Lemma write_from_encodable s : forall pos,
  Console.write_from pos s = Ok tt <-> Console.encodable s = true.
Proof.
  unfold Console.encodable.
  induction s as [|c r IH]; intros pos; cbn [Console.write_from forallb].
  - tauto.
  - destruct (Console.is_surrogate c); cbn [negb andb]; [|apply IH].
    split; discriminate.
Qed.

Lemma print_str_encodable s :
  Console.print_str s = Ok tt <-> Console.encodable s = true.
Proof. apply write_from_encodable. Qed.

(* ================================================================== *)
(** * The matcher and [findall] *)
(* ================================================================== *)

Lemma consumed_app (s1 s2 : str) : Re.consumed (s1 ++ s2) s2 = s1.
Proof.
  unfold Re.consumed. rewrite length_app.
  replace (List.length s1 + List.length s2 - List.length s2)%nat
    with (List.length s1 + 0)%nat by lia.
  rewrite firstn_app_2. cbn [firstn]. apply app_nil_r.
Qed.

Section MatcherCorrect.

Context {A : Type}.

(** A repetition hands some split of the input to its continuation, and
    every split whose first part the atom accepts is tried, the longest
    first. *)
Lemma repeat_greedy_sound a s (k : str -> option A) x :
  Re.repeat_greedy a s k = Some x ->
  exists s1 s2,
    s = s1 ++ s2 /\ forallb (Re.accepts a) s1 = true /\ k s2 = Some x.
Proof.
  induction s as [|c r IH]; cbn [Re.repeat_greedy]; intros H.
  - exists [], []. auto.
  - destruct (Re.accepts a c) eqn:Hc.
    + destruct (Re.repeat_greedy a r k) as [y|] eqn:E.
      * injection H as ->. destruct (IH eq_refl) as (s1 & s2 & -> & Hs1 & Hk).
        exists (c :: s1), s2. cbn [forallb app]. rewrite Hc. auto.
      * exists [], (c :: r). auto.
    + exists [], (c :: r). auto.
Qed.

Lemma repeat_greedy_fallback a s (k : str -> option A) x :
  k s = Some x -> exists y, Re.repeat_greedy a s k = Some y.
Proof.
  intros H. destruct s as [|c r]; cbn [Re.repeat_greedy]; [eauto|].
  destruct (Re.accepts a c); [|eauto].
  destruct (Re.repeat_greedy a r k); eauto.
Qed.

Lemma repeat_greedy_complete a s1 s2 (k : str -> option A) x :
  forallb (Re.accepts a) s1 = true -> k s2 = Some x ->
  exists y, Re.repeat_greedy a (s1 ++ s2) k = Some y.
Proof.
  induction s1 as [|c r IH]; cbn [forallb app]; intros Hs Hk.
  - eapply repeat_greedy_fallback; eauto.
  - apply andb_prop in Hs as [Hc Hr]. cbn [Re.repeat_greedy]. rewrite Hc.
    destruct (IH Hr Hk) as [y ->]. eauto.
Qed.

End MatcherCorrect.

(** A successful run hands its continuation a match of the pattern. *)
Lemma run_sound {A} r : forall s (k : str -> list str -> option A) x,
  Re.run r s k = Some x ->
  exists s1 s2 gs, s = s1 ++ s2 /\ matches r s1 gs /\ k s2 gs = Some x.
Proof.
  induction r as [|a|a|a|r IH|r1 IH1 r2 IH2]; intros s k x H; cbn [Re.run] in H.
  - exists [], s, []. repeat split; auto. constructor.
  - destruct s as [|c s']; [discriminate|].
    destruct (Re.accepts a c) eqn:Hc; [|discriminate].
    exists [c], s', []. repeat split; auto. now constructor.
  - apply repeat_greedy_sound in H as (s1 & s2 & -> & Hs1 & Hk).
    exists s1, s2, []. repeat split; auto. now constructor.
  - destruct s as [|c s']; [discriminate|].
    destruct (Re.accepts a c) eqn:Hc; [|discriminate].
    apply repeat_greedy_sound in H as (s1 & s2 & -> & Hs1 & Hk).
    exists (c :: s1), s2, []. repeat split; auto.
    constructor. cbn [forallb]. now rewrite Hc.
  - apply IH in H as (s1 & s2 & gs & -> & Hm & Hk).
    rewrite consumed_app in Hk.
    exists s1, s2, (s1 :: gs). repeat split; auto. now constructor.
  - apply IH1 in H as (s1 & t & g1 & -> & Hm1 & H).
    apply IH2 in H as (s2 & s3 & g2 & -> & Hm2 & Hk).
    exists (s1 ++ s2), s3, (g1 ++ g2). rewrite app_assoc.
    repeat split; auto. now constructor.
Qed.

(** Whenever some match of the pattern satisfies the continuation, the run
    succeeds. *)
Lemma run_complete {A} r s1 gs :
  matches r s1 gs ->
  forall s2 (k : str -> list str -> option A) x,
    k s2 gs = Some x -> exists y, Re.run r (s1 ++ s2) k = Some y.
Proof.
  induction 1 as [|a c Hc|a s Hs|a c s Hs|r s gs Hm IH
                  |r1 r2 s1 s2 g1 g2 Hm1 IH1 Hm2 IH2];
    intros t k x Hk; cbn [Re.run app].
  - eauto.
  - rewrite Hc. eauto.
  - eapply repeat_greedy_complete; eauto.
  - cbn [forallb] in Hs. apply andb_prop in Hs as [Hc Hs]. rewrite Hc.
    eapply repeat_greedy_complete; eauto.
  - eapply IH. rewrite consumed_app. eauto.
  - rewrite <- app_assoc.
    destruct (IH2 t (fun s2' g2' => k s2' (g1 ++ g2')) x Hk) as [y Hy].
    eapply IH1. exact Hy.
Qed.

(** The match at the start of a text. *)
Lemma match_at_sound p s gs rest :
  Re.match_at p false s = Some (gs, rest) ->
  exists s1, s = s1 ++ rest /\ matches p s1 gs.
Proof.
  unfold Re.match_at. intros H.
  apply run_sound in H as (s1 & s2 & gs' & -> & Hm & Hk).
  cbn [andb] in Hk. injection Hk as -> ->. eauto.
Qed.

Lemma match_at_complete p s1 s2 gs :
  matches p s1 gs -> exists m, Re.match_at p false (s1 ++ s2) = Some m.
Proof.
  intros Hm. unfold Re.match_at.
  eapply run_complete; [exact Hm|]. reflexivity.
Qed.

Lemma match_at_none p s :
  Re.match_at p false s = None -> ~ matches_prefix p s.
Proof.
  intros H (s1 & s2 & gs & -> & Hm).
  destruct (match_at_complete p s1 s2 gs Hm) as [m Hm']. congruence.
Qed.

(** The search finds the first position at which the pattern matches. *)
Lemma search_sound p : forall s skip m,
  Re.search p false skip s = Some m ->
  exists pre,
    s = pre ++ Re.matched m ++ Re.rest m /\
    Re.skipped m = (skip + List.length pre)%nat /\
    matches p (Re.matched m) (Re.groups m) /\
    (forall n, (n < List.length pre)%nat -> ~ matches_prefix p (skipn n s)).
Proof.
  induction s as [|c s IH]; intros skip m H; cbn [Re.search] in H.
  - destruct (Re.match_at p false []) as [[gs r]|] eqn:E; [|discriminate].
    injection H as <-. cbn [Re.matched Re.rest Re.skipped Re.groups].
    apply match_at_sound in E as (s1 & E & Hm).
    symmetry in E. apply app_eq_nil in E as [-> ->].
    exists []. cbn [Re.consumed List.length app firstn Nat.sub].
    split; [reflexivity|]. split; [lia|]. split; [exact Hm|].
    intros n Hn; lia.
  - destruct (Re.match_at p false (c :: s)) as [[gs r]|] eqn:E.
    + injection H as <-. cbn [Re.matched Re.rest Re.skipped Re.groups].
      apply match_at_sound in E as (s1 & E & Hm).
      exists []. rewrite E, consumed_app. cbn [List.length app].
      split; [reflexivity|]. split; [lia|]. split; [exact Hm|].
      intros n Hn; lia.
    + apply IH in H as (pre & Hs & Hskip & Hm & Hfirst).
      exists (c :: pre). cbn [app List.length]. repeat split; auto.
      * now rewrite <- Hs.
      * lia.
      * intros [|n] Hn; cbn [skipn].
        -- now apply match_at_none.
        -- apply Hfirst. lia.
Qed.

Lemma search_none p : forall s skip,
  Re.search p false skip s = None ->
  forall n, ~ matches_prefix p (skipn n s).
Proof.
  induction s as [|c s IH]; intros skip H n; cbn [Re.search] in H.
  - destruct (Re.match_at p false []) as [[gs r]|] eqn:E; [discriminate H|].
    rewrite skipn_nil. now apply match_at_none.
  - destruct (Re.match_at p false (c :: s)) as [[gs r]|] eqn:E;
      [discriminate H|].
    destruct n as [|n]; cbn [skipn].
    + now apply match_at_none.
    + eapply IH; eauto.
Qed.

Lemma occurs_prefix p text from i j gs :
  occurs p text i j gs -> (from <= i)%nat ->
  matches_prefix p (skipn (i - from) (skipn from text)).
Proof.
  intros [Hij Hm] Hfrom. rewrite skipn_skipn.
  replace (i - from + from)%nat with i by lia.
  exists (slice text i j), (skipn (j - i) (skipn i text)), gs.
  split; [|exact Hm]. unfold slice. symmetry. apply firstn_skipn.
Qed.

(** The loop of [findall] returns the groups of the leftmost non-overlapping
    matches, in the order of appearance. *)
Lemma findall_loop_leftmost p text :
  never_empty p ->
  forall fuel from,
    (from <= List.length text)%nat ->
    (List.length text - from < fuel)%nat ->
    exists spans,
      leftmost p text from spans /\
      Re.findall_loop fuel p false (skipn from text) = map span_groups spans.
Proof.
  intros Hne. induction fuel as [|fuel IH]; intros from Hfrom Hfuel; [lia|].
  cbn [Re.findall_loop].
  destruct (Re.search p false 0 (skipn from text)) as [m|] eqn:E.
  - apply search_sound in E as (pre & Hs & _ & Hm & Hfirst).
    destruct m as [sk gs mt rs].
    cbn [Re.matched Re.rest Re.groups] in *.
    assert (Hmt : mt <> []) by (intros ->; exact (Hne _ Hm)).
    assert (Hlen : (List.length text - from =
                    List.length pre + List.length mt + List.length rs)%nat).
    { rewrite <- length_skipn, Hs, !length_app. lia. }
    assert (Hpos : (0 < List.length mt)%nat).
    { destruct mt; [congruence|cbn; lia]. }
    set (i := (from + List.length pre)%nat).
    set (j := (i + List.length mt)%nat).
    assert (Hi : skipn i text = mt ++ rs).
    { unfold i. rewrite Nat.add_comm, <- skipn_skipn, Hs.
      rewrite skipn_app, skipn_all, Nat.sub_diag. reflexivity. }
    assert (Hj : skipn j text = rs).
    { unfold j. rewrite Nat.add_comm, <- skipn_skipn, Hi.
      rewrite skipn_app, skipn_all, Nat.sub_diag. reflexivity. }
    destruct (IH j) as (spans & Hspans & Hloop); [unfold j, i; lia..|].
    exists (Span i j gs :: spans). split.
    + apply leftmost_cons; [unfold j, i; lia| | |exact Hspans].
      * split; [unfold j, i; lia|]. unfold slice. rewrite Hi.
        replace (j - i)%nat with (List.length mt + 0)%nat by (unfold j; lia).
        rewrite firstn_app_2. cbn [firstn]. now rewrite app_nil_r.
      * intros i' j' gs' Hi' Hocc.
        apply (Hfirst (i' - from)%nat); [unfold i in Hi'; lia|].
        apply occurs_prefix with (j := j') (gs := gs'); [exact Hocc|lia].
    + cbn [map span_groups]. f_equal.
      replace (Re.is_empty mt) with false by (destruct mt; [congruence|reflexivity]).
      rewrite <- Hj. exact Hloop.
  - exists []. split; [|reflexivity]. apply leftmost_nil.
    intros i j gs Hi Hocc.
    apply (search_none _ _ _ E (i - from)%nat).
    apply occurs_prefix with (j := j) (gs := gs); assumption.
Qed.

Lemma findall_leftmost p text :
  never_empty p ->
  exists spans,
    leftmost p text 0 spans /\ Re.findall p text = map span_groups spans.
Proof.
  intros Hne. unfold Re.findall.
  apply (findall_loop_leftmost p text Hne _ 0%nat); lia.
Qed.

(** The coordinate pattern starts with a bracket: it matches no empty text. *)
Lemma coords_never_empty : never_empty coords_pattern.
Proof.
  intros gs H. unfold coords_pattern in H. cbn [Re.concat fold_right] in H.
  inversion H as [| | | | |r1 r2 s1 s2 g1 g2 H1 H2 Er Es Eg]; subst.
  inversion H1; subst. discriminate.
Qed.

(** Without an occurrence of the pattern [findall] finds nothing. *)
Lemma findall_no_match text :
  (forall i j gs, ~ occurs coords_pattern text i j gs) ->
  Re.findall coords_pattern text = [].
Proof.
  intros Hno.
  destruct (findall_leftmost coords_pattern text coords_never_empty)
    as (spans & Hl & ->).
  inversion Hl as [|from i j gs rest Hij Hocc]; subst; [reflexivity|].
  destruct (Hno _ _ _ Hocc).
Qed.

Lemma findall_nil_no_match text :
  Re.findall coords_pattern text = [] ->
  forall i j gs, ~ occurs coords_pattern text i j gs.
Proof.
  intros Hnil.
  destruct (findall_leftmost coords_pattern text coords_never_empty)
    as (spans & Hl & Hf).
  rewrite Hnil in Hf. destruct spans; [|discriminate Hf].
  inversion Hl as [from Hno|]; subst.
  intros i j gs. apply Hno. apply Nat.le_0_l.
Qed.

(** ** What the coordinate pattern matches *)

Lemma coords_pattern_spec s gs :
  matches coords_pattern s gs <-> bracketed_tuple s gs.
Proof.
  split.
  - intros H. unfold coords_pattern in H. cbn [Re.concat fold_right] in H.
    invert_matches.
    match goal with
    | |- bracketed_tuple
           (_ ++ _ ++ ?a ++ _ ++ ?sp1 ++ ?b ++ _ ++ ?sp2 ++ ?c ++ _ ++ ?sp3
            ++ ?d ++ _) _ =>
      exists a, b, c, d, sp1, sp2, sp3
    end.
    unfold digits, spaces. repeat split; try assumption; discriminate.
  - intros (a & b & c & d & sp1 & sp2 & sp3 & [Ha Ha'] & [Hb Hb'] & [Hc Hc']
            & [Hd Hd'] & H1 & H2 & H3 & -> & ->).
    destruct a as [|a0 a]; [congruence|]. destruct b as [|b0 b]; [congruence|].
    destruct c as [|c0 c]; [congruence|]. destruct d as [|d0 d]; [congruence|].
    unfold coords_pattern. cbn [Re.concat fold_right].
    change (u "[[") with ([91] ++ [91]). change (u ",") with [44].
    change (u "]]") with ([93] ++ [93] ++ []).
    rewrite <- !app_assoc.
    change [a0 :: a; b0 :: b; c0 :: c; d0 :: d]
      with ([] ++ [] ++ ((a0 :: a) :: []) ++ [] ++ [] ++ ((b0 :: b) :: [])
            ++ [] ++ [] ++ ((c0 :: c) :: []) ++ [] ++ []
            ++ ((d0 :: d) :: []) ++ [] ++ [] ++ []).
    repeat (apply matches_seq || apply matches_group || apply matches_empty
            || (apply matches_one; reflexivity)
            || (apply matches_plus; assumption)
            || (apply matches_star; assumption)).
Qed.

(** A run of accepted characters that ends at a refused one is determined by
    the text. *)
Lemma run_unique (P : char -> bool) : forall l1 l2 x y r1 r2,
  forallb P l1 = true -> forallb P l2 = true ->
  P x = false -> P y = false ->
  l1 ++ x :: r1 = l2 ++ y :: r2 ->
  l1 = l2 /\ x :: r1 = y :: r2.
Proof.
  induction l1 as [|c l1 IH]; intros [|c' l2] x y r1 r2 H1 H2 Hx Hy E;
    cbn [app forallb] in *.
  - auto.
  - injection E as -> _. apply andb_prop in H2 as [H2 _]. congruence.
  - injection E as -> _. apply andb_prop in H1 as [H1 _]. congruence.
  - injection E as -> E.
    apply andb_prop in H1 as [_ H1]. apply andb_prop in H2 as [_ H2].
    destruct (IH l2 x y r1 r2 H1 H2 Hx Hy E) as [-> E']. auto.
Qed.

(** No whitespace character is a decimal digit. *)
Lemma decimal_not_space c : Num.isdecimal c = true -> Num.isspace c = false.
Proof.
  intros Hd. destruct (Num.isspace c) eqn:Hs; [|reflexivity].
  unfold Num.isspace in Hs. apply existsb_exists in Hs as (x & Hin & Hx).
  apply N.eqb_eq in Hx. subst x. cbn [In] in Hin.
  repeat (destruct Hin as [<-|Hin]; [vm_compute in Hd; discriminate Hd|]).
  destruct Hin.
Qed.

Lemma digits_cons s : digits s ->
  exists c r, s = c :: r /\ Num.isdecimal c = true
              /\ forallb Num.isdecimal r = true.
Proof.
  intros [Hne Hs]. destruct s as [|c r]; [congruence|].
  exists c, r. cbn [forallb] in *. apply andb_prop in Hs as [Hc Hr]. auto.
Qed.

(** At a given place of a text the pattern matches in one way only. *)
Lemma bracketed_tuple_unique s1 g1 t1 s2 g2 t2 :
  bracketed_tuple s1 g1 -> bracketed_tuple s2 g2 ->
  s1 ++ t1 = s2 ++ t2 -> s1 = s2 /\ g1 = g2.
Proof.
  intros (a & b & c & d & p1 & p2 & p3 & Ha & Hb & Hc & Hd & P1 & P2 & P3
          & -> & ->)
         (a' & b' & c' & d' & q1 & q2 & q3 & Ha' & Hb' & Hc' & Hd' & Q1 & Q2
          & Q3 & -> & ->) E.
  apply digits_cons in Ha as (a0 & ar & -> & Ha0 & Ha).
  apply digits_cons in Hb as (b0 & br & -> & Hb0 & Hb).
  apply digits_cons in Hc as (c0 & cr & -> & Hc0 & Hc).
  apply digits_cons in Hd as (d0 & dr & -> & Hd0 & Hd).
  apply digits_cons in Ha' as (a0' & ar' & -> & Ha0' & Ha').
  apply digits_cons in Hb' as (b0' & br' & -> & Hb0' & Hb').
  apply digits_cons in Hc' as (c0' & cr' & -> & Hc0' & Hc').
  apply digits_cons in Hd' as (d0' & dr' & -> & Hd0' & Hd').
  change (u "[[") with [91; 91] in *. change (u ",") with [44] in *.
  change (u "]]") with [93; 93] in *.
  repeat rewrite <- app_assoc in E. cbn [app] in E.
  repeat rewrite <- app_assoc in E. cbn [app] in E.
  injection E as <- E.
  apply (run_unique Num.isdecimal) in E as [<- E]; auto.
  injection E as E.
  apply (run_unique Num.isspace) in E as [<- E];
    auto using decimal_not_space.
  injection E as <- E.
  apply (run_unique Num.isdecimal) in E as [<- E]; auto.
  injection E as E.
  apply (run_unique Num.isspace) in E as [<- E];
    auto using decimal_not_space.
  injection E as <- E.
  apply (run_unique Num.isdecimal) in E as [<- E]; auto.
  injection E as E.
  apply (run_unique Num.isspace) in E as [<- E];
    auto using decimal_not_space.
  injection E as <- E.
  apply (run_unique Num.isdecimal) in E as [<- E]; auto.
Qed.

Lemma slice_skipn text i j :
  (i <= j)%nat -> skipn i text = slice text i j ++ skipn j text.
Proof.
  intros Hij. unfold slice.
  replace (skipn j text) with (skipn (j - i) (skipn i text)).
  - symmetry. apply firstn_skipn.
  - rewrite skipn_skipn. f_equal. lia.
Qed.

Lemma slice_length text i j :
  (i <= j <= List.length text)%nat -> List.length (slice text i j) = (j - i)%nat.
Proof.
  intros H. unfold slice. rewrite length_firstn, length_skipn. lia.
Qed.

(** Two matches of the coordinate pattern that start at the same index are
    the same match. *)
Lemma occurs_unique text i j j' gs gs' :
  occurs coords_pattern text i j gs -> occurs coords_pattern text i j' gs' ->
  j = j' /\ gs = gs'.
Proof.
  intros [Hij Hm] [Hij' Hm'].
  apply coords_pattern_spec in Hm, Hm'.
  destruct (bracketed_tuple_unique _ _ (skipn j text) _ _ (skipn j' text) Hm Hm')
    as [Es Eg].
  { rewrite <- !slice_skipn by lia. reflexivity. }
  split; [|exact Eg].
  apply (f_equal (@List.length _)) in Es.
  rewrite !slice_length in Es by lia. lia.
Qed.

(** The leftmost non-overlapping matches of the coordinate pattern are
    determined by the text. *)
Lemma leftmost_unique text : forall from spans spans',
  leftmost coords_pattern text from spans ->
  leftmost coords_pattern text from spans' ->
  spans = spans'.
Proof.
  intros from spans spans' H. revert spans'.
  induction H as [from Hno|from i j gs spans Hij Hocc Hfirst _ IH];
    intros spans' H'.
  - inversion H' as [|from' i' j' gs' rest Hij' Hocc']; subst; [reflexivity|].
    destruct (Hno i' j' gs'); [lia|exact Hocc'].
  - inversion H' as [from' Hno'|from' i' j' gs' rest Hij' Hocc' Hfirst' Hrest];
      subst.
    + destruct (Hno' i j gs); [lia|exact Hocc].
    + assert (i = i').
      { destruct (Nat.lt_trichotomy i i') as [Hlt|[Heq|Hgt]]; [|exact Heq|].
        - destruct (Hfirst' i j gs); [lia|exact Hocc].
        - destruct (Hfirst i' j' gs'); [lia|exact Hocc']. }
      subst i'.
      destruct (occurs_unique _ _ _ _ _ _ Hocc Hocc') as [<- <-].
      f_equal. now apply IH.
Qed.

(** The groups of a match are four strings of decimal digits. *)
Lemma occurs_groups text i j gs :
  occurs coords_pattern text i j gs ->
  exists a b c d,
    gs = [a; b; c; d] /\ digits a /\ digits b /\ digits c /\ digits d.
Proof.
  intros [_ Hm]. apply coords_pattern_spec in Hm
    as (a & b & c & d & _ & _ & _ & Ha & Hb & Hc & Hd & _ & _ & _ & -> & _).
  exists a, b, c, d. auto.
Qed.

(* ================================================================== *)
(** * Scaling: the division does not overflow *)
(* ================================================================== *)

Local Open Scope Z_scope.

Lemma digits2_pos_bound p : forall k, Zpos p < 2 ^ k -> Zpos (digits2_pos p) <= k.
Proof.
  induction p as [p IH|p IH|]; intros k H; cbn [digits2_pos].
  - destruct (Z.le_gt_cases k 0) as [Hk|Hk].
    { assert (2 ^ k <= 2 ^ 0) by (apply Z.pow_le_mono_r; lia).
      change (2 ^ 0) with 1 in *. lia. }
    replace k with (Z.succ (k - 1)) in H by lia.
    rewrite Z.pow_succ_r in H by lia.
    specialize (IH (k - 1)). rewrite Pos2Z.inj_succ. lia.
  - destruct (Z.le_gt_cases k 0) as [Hk|Hk].
    { assert (2 ^ k <= 2 ^ 0) by (apply Z.pow_le_mono_r; lia).
      change (2 ^ 0) with 1 in *. lia. }
    replace k with (Z.succ (k - 1)) in H by lia.
    rewrite Z.pow_succ_r in H by lia.
    specialize (IH (k - 1)). rewrite Pos2Z.inj_succ. lia.
  - destruct (Z.le_gt_cases k 0) as [Hk|Hk]; [|lia].
    assert (2 ^ k <= 2 ^ 0) by (apply Z.pow_le_mono_r; lia).
    change (2 ^ 0) with 1 in *. lia.
Qed.

Lemma Zdigits2_bound m k : 0 <= m < 2 ^ k -> 0 <= k -> 0 <= Zdigits2 m <= k.
Proof.
  intros [H0 Hk] K. destruct m as [|p|p]; cbn [Zdigits2]; [lia| |lia].
  split; [lia|]. now apply digits2_pos_bound.
Qed.

Lemma shr_1_bounds mrs :
  0 <= shr_m mrs -> 0 <= shr_m (shr_1 mrs) <= shr_m mrs.
Proof.
  destruct mrs as [m r s]. cbn [shr_m shr_1].
  destruct m as [|[p|p|]|[p|p|]]; cbn [shr_m]; lia.
Qed.

Lemma iter_shr_1_bounds p : forall mrs,
  0 <= shr_m mrs -> 0 <= shr_m (iter_pos shr_1 p mrs) <= shr_m mrs.
Proof.
  induction p as [p IH|p IH|]; intros mrs H; cbn [iter_pos].
  - pose proof (shr_1_bounds mrs H) as H1.
    pose proof (IH _ (proj1 H1)) as H2.
    pose proof (IH _ (proj1 H2)) as H3. lia.
  - pose proof (IH _ H) as H2.
    pose proof (IH _ (proj1 H2)) as H3. lia.
  - now apply shr_1_bounds.
Qed.

Lemma shr_record_of_loc_m m l : shr_m (shr_record_of_loc m l) = m.
Proof. destruct l as [|[]]; reflexivity. Qed.

(** One alignment step keeps the mantissa between zero and its old value and
    raises the exponent to the exponent of the format, if that is larger. *)
Lemma shr_fexp_bounds m e l :
  0 <= m ->
  0 <= shr_m (fst (shr_fexp Num.prec Num.emax m e l)) <= m /\
  snd (shr_fexp Num.prec Num.emax m e l)
    = Z.max e (fexp Num.prec Num.emax (Zdigits2 m + e)).
Proof.
  intros Hm. unfold shr_fexp, shr.
  destruct (fexp Num.prec Num.emax (Zdigits2 m + e) - e) as [|p|p] eqn:E;
    cbn [fst snd].
  - rewrite shr_record_of_loc_m. lia.
  - pose proof (iter_shr_1_bounds p (shr_record_of_loc m l)) as H.
    rewrite shr_record_of_loc_m in H. specialize (H Hm). lia.
  - rewrite shr_record_of_loc_m. lia.
Qed.

Lemma round_nearest_even_bounds m l :
  m <= round_nearest_even m l <= m + 1.
Proof.
  unfold round_nearest_even. destruct l as [|[]]; try lia.
  destruct (Z.even m); lia.
Qed.

Lemma fexp_le e k : e <= k -> -1074 <= k - 53 ->
  fexp Num.prec Num.emax e <= k - 53.
Proof.
  unfold fexp, emin, Num.prec, Num.emax. lia.
Qed.

(** Rounding a mantissa below [2 ^ k] with an exponent that is not positive
    gives a finite number when [k] is small. *)
Lemma binary_round_aux_finite sx mx ex lx k :
  0 <= mx < 2 ^ k -> 0 <= k <= 400 -> -1074 <= ex <= 0 ->
  forall s, binary_round_aux Num.prec Num.emax sx mx ex lx <> S754_infinity s.
Proof.
  intros Hmx Hk Hex s. unfold binary_round_aux.
  destruct (shr_fexp_bounds mx ex lx (proj1 Hmx)) as [Hm1 He1].
  destruct (shr_fexp Num.prec Num.emax mx ex lx) as [mrs1 e1].
  cbn [fst snd] in Hm1, He1.
  set (m1 := round_nearest_even (shr_m mrs1) (loc_of_shr_record mrs1)).
  pose proof (round_nearest_even_bounds (shr_m mrs1) (loc_of_shr_record mrs1))
    as Hr. fold m1 in Hr.
  assert (Hm1' : 0 <= m1) by lia.
  destruct (shr_fexp_bounds m1 e1 loc_Exact Hm1') as [Hm2 He2].
  destruct (shr_fexp Num.prec Num.emax m1 e1 loc_Exact) as [mrs2 e2].
  cbn [fst snd] in Hm2, He2.
  assert (Hd : 0 <= Zdigits2 mx <= k) by now apply Zdigits2_bound.
  assert (Hd1 : 0 <= Zdigits2 m1 <= k + 1).
  { apply Zdigits2_bound; [|lia]. rewrite Z.pow_add_r by lia.
    change (2 ^ 1) with 2. lia. }
  assert (He1' : -1074 <= e1 <= k).
  { rewrite He1. unfold fexp, emin, Num.prec, Num.emax. lia. }
  assert (He2' : e2 <= 971).
  { rewrite He2. unfold fexp, emin, Num.prec, Num.emax. lia. }
  destruct (shr_m mrs2); try discriminate.
  change (Num.emax - Num.prec) with 971.
  destruct (e2 <=? 971) eqn:E; [discriminate|].
  apply Z.leb_gt in E. lia.
Qed.

(** Dividing an integer below [2 ^ 64] by 1000 does not overflow. *)
Lemma truediv_scaled n :
  0 <= n < 2 ^ 64 -> Num.truediv n 1000 = Ok (scaled n).
Proof.
  intros Hn. unfold Num.truediv, scaled.
  destruct n as [|p|p]; [reflexivity| |lia].
  cbn [Num.exact]. unfold SFdiv.
  destruct (SFdiv_core_binary Num.prec Num.emax (Z.pos p) 0 1000 0)
    as [[mz ez] lz] eqn:E.
  assert (H : forall s,
             binary_round_aux Num.prec Num.emax (xorb false false) mz ez lz
             <> S754_infinity s).
  { unfold SFdiv_core_binary in E.
    set (e' := Z.min (fexp Num.prec Num.emax
                        (Zdigits2 (Z.pos p) + 0 - (Zdigits2 1000 + 0))) (0 - 0))
      in E.
    pose proof (Zdigits2_bound (Z.pos p) 64 Hn ltac:(lia)) as Hd.
    assert (Hd' : 1 <= Zdigits2 (Z.pos p)) by (cbn [Zdigits2]; lia).
    assert (He' : -62 <= e' <= 0).
    { unfold e', fexp, emin, Num.prec, Num.emax.
      change (Zdigits2 1000) with 10. lia. }
    set (m' := match 0 - 0 - e' with
               | Z.pos _ => Z.shiftl (Z.pos p) (0 - 0 - e')
               | 0 => Z.pos p
               | Z.neg _ => 0
               end) in E.
    assert (Hm' : 0 <= m' < 2 ^ 126).
    { unfold m'. destruct (0 - 0 - e') eqn:Es; [| |lia].
      - split; [lia|]. apply Z.lt_trans with (2 ^ 64); [lia|].
        apply Z.pow_lt_mono_r; lia.
      - rewrite Z.shiftl_mul_pow2 by lia. split; [lia|].
        apply Z.lt_le_trans with (2 ^ 64 * 2 ^ Z.pos p0).
        + apply Z.mul_lt_mono_pos_r; [apply Z.pow_pos_nonneg; lia|lia].
        + rewrite <- Z.pow_add_r by lia. apply Z.pow_le_mono_r; lia. }
    pose proof (Z.div_eucl_eq m' 1000 ltac:(lia)) as Hq.
    pose proof (Z.mod_pos_bound m' 1000 ltac:(lia)) as Hr.
    unfold Z.modulo in Hr.
    destruct (Z.div_eucl m' 1000) as [q r]. injection E as <- <- <-.
    intros s. apply binary_round_aux_finite with (k := 126); lia. }
  destruct (binary_round_aux Num.prec Num.emax (xorb false false) mz ez lz);
    try reflexivity.
  destruct (H s). reflexivity.
Qed.

(** ** The quotient is rounded to the nearest float *)

Lemma digits2_pos_spec p :
  2 ^ (Zpos (digits2_pos p) - 1) <= Zpos p < 2 ^ Zpos (digits2_pos p).
Proof.
  induction p as [p IH|p IH|]; cbn [digits2_pos].
  - rewrite Pos2Z.inj_succ.
    replace (Z.succ (Z.pos (digits2_pos p)) - 1) with (Z.succ (Z.pos (digits2_pos p) - 1)) by lia.
    rewrite !Z.pow_succ_r by lia. lia.
  - rewrite Pos2Z.inj_succ.
    replace (Z.succ (Z.pos (digits2_pos p)) - 1) with (Z.succ (Z.pos (digits2_pos p) - 1)) by lia.
    rewrite !Z.pow_succ_r by lia. lia.
  - cbn. lia.
Qed.


Lemma shr_1_spec m r s : 0 <= m ->
  shr_1 (Build_shr_record m r s) = Build_shr_record (m / 2) (Z.odd m) (r || s).
Proof.
  intros Hm. rewrite <- Z.div2_div.
  destruct m as [|[p|p|]|p]; try lia; reflexivity.
Qed.










(* ================================================================== *)
(** * The Annotation Renderer: coordinates *)
(* ================================================================== *)

Lemma digits_value_some s : forallb Num.isdecimal s = true ->
  forall acc, 0 <= acc -> exists n, Num.digits_value acc s = Some n /\ 0 <= n.
Proof.
  induction s as [|c r IH]; intros Hs acc Hacc; cbn [Num.digits_value].
  - eauto.
  - cbn [forallb] in Hs. apply andb_prop in Hs as [Hc Hr].
    unfold Num.isdecimal in Hc. destruct (Num.decimal c) as [d|]; [|discriminate].
    apply IH; [exact Hr|lia].
Qed.

(** [int] converts every string of digits that is not too long. *)
Lemma int_of_digits s :
  digits s -> (List.length s <= Json.int_max_str_digits)%nat ->
  exists n, Num.int s = Ok n /\ 0 <= n.
Proof.
  intros [Hne Hs] Hlen. unfold Num.int.
  destruct (digits_value_some s Hs 0 ltac:(lia)) as (n & E & Hn).
  destruct s as [|c r]; [congruence|]. rewrite E.
  destruct (Nat.ltb_spec Json.int_max_str_digits (List.length (c :: r)));
    [lia|eauto].
Qed.

(** The groups of a match are unpacked into four integers, unless one of them
    has more digits than [int] accepts. *)
Lemma unpack_int4_of_match text i j gs :
  occurs coords_pattern text i j gs ->
  Forall (fun g => (List.length g <= Json.int_max_str_digits)%nat) gs ->
  exists x1 y1 x2 y2,
    unpack_int4 gs = Ok (x1, y1, x2, y2) /\
    0 <= x1 /\ 0 <= y1 /\ 0 <= x2 /\ 0 <= y2.
Proof.
  intros Hocc Hlen.
  apply occurs_groups in Hocc as (a & b & c & d & -> & Ha & Hb & Hc & Hd).
  inversion Hlen as [|? ? La Hlen1]; subst.
  inversion Hlen1 as [|? ? Lb Hlen2]; subst.
  inversion Hlen2 as [|? ? Lc Hlen3]; subst.
  inversion Hlen3 as [|? ? Ld _]; subst.
  destruct (int_of_digits a Ha La) as (x1 & E1 & H1).
  destruct (int_of_digits b Hb Lb) as (y1 & E2 & H2).
  destruct (int_of_digits c Hc Lc) as (x2 & E3 & H3).
  destruct (int_of_digits d Hd Ld) as (y2 & E4 & H4).
  exists x1, y1, x2, y2. unfold unpack_int4.
  rewrite E1, E2, E3, E4. cbn [bind]. auto.
Qed.

Section Scaling.

Context {pil : Pillow}.

(** The loop body for a tuple whose scaled values fit a float: the four
    values go to [rectangle] as they are computed. *)
Lemma draw_match_scaled w h img m x1 y1 x2 y2 :
  unpack_int4 m = Ok (x1, y1, x2, y2) ->
  0 <= x1 * w < 2 ^ 64 -> 0 <= y1 * h < 2 ^ 64 ->
  0 <= x2 * w < 2 ^ 64 -> 0 <= y2 * h < 2 ^ 64 ->
  draw_match w h img m =
    rectangle img
      [scaled (x1 * w); scaled (y1 * h); scaled (x2 * w); scaled (y2 * h)]
      (u "#00ff00") 3.
Proof.
  intros Hm H1 H2 H3 H4. unfold draw_match. rewrite Hm. cbn [bind].
  rewrite !truediv_scaled by assumption. reflexivity.
Qed.

Lemma size_bounds img w h :
  size img = (w, h) -> 0 <= w < 2 ^ 31 /\ 0 <= h < 2 ^ 31.
Proof.
  intros H. pose proof (size_range img) as R. rewrite H in R. exact R.
Qed.

End Scaling.

(* ================================================================== *)
(** * The Annotation Renderer: failures *)
(* ================================================================== *)

Section RendererFailures.

Context {pil : Pillow}.

Lemma undecodable_image_raises image_bytes response_text e :
  Image_open image_bytes = Raise e ->
  draw_bounding_boxes_try image_bytes response_text = Raise e.
Proof. intros H. unfold draw_bounding_boxes_try. now rewrite H. Qed.

(** The [try] block once the image is open. *)
Lemma draw_bounding_boxes_try_open image_bytes response_text img :
  Image_open image_bytes = Ok img ->
  draw_bounding_boxes_try image_bytes response_text =
    (_ <- ImageDraw_Draw img ;;
     img' <- for_each (Re.findall coords_pattern response_text) img
               (draw_match (fst (size img)) (snd (size img))) ;;
     buffered <- save img' (u "PNG") ;;
     Ok (Base64.b64encode_str buffered)).
Proof.
  intros H. unfold draw_bounding_boxes_try. rewrite H. cbn [bind].
  destruct (size img). reflexivity.
Qed.


Lemma encoding_failure_raises image_bytes response_text img img' e :
  Image_open image_bytes = Ok img ->
  ImageDraw_Draw img = Ok tt ->
  for_each (Re.findall coords_pattern response_text) img
    (draw_match (fst (size img)) (snd (size img))) = Ok img' ->
  save img' (u "PNG") = Raise e ->
  draw_bounding_boxes_try image_bytes response_text = Raise e.
Proof.
  intros Ho Hd Hl Hs. rewrite (draw_bounding_boxes_try_open _ _ _ Ho).
  rewrite Hd. cbn [bind]. rewrite Hl. cbn [bind]. now rewrite Hs.
Qed.

Lemma encodable_app s t :
  Console.encodable (s ++ t) = Console.encodable s && Console.encodable t.
Proof. apply forallb_app. Qed.

Lemma int_too_long_encodable n :
  Console.encodable (exn_str (Json.int_too_long n)) = true.
Proof.
  unfold Json.int_too_long, str_of_nat, str_of_N. cbn [exn_str].
  now rewrite !encodable_app, !encodable_literal.
Qed.

(** The exceptions of the loop body can be printed: for the groups of a
    match, [int] raises nothing but the error about the number of digits. *)
Lemma int_raises_encodable s e :
  digits s -> Num.int s = Raise e -> Console.encodable (exn_str e) = true.
Proof.
  intros [Hne Hs] H. unfold Num.int in H.
  destruct (digits_value_some s Hs 0%Z ltac:(lia)) as (n & E & _).
  destruct s as [|c r]; [congruence|]. rewrite E in H.
  destruct (Json.int_max_str_digits <? List.length (c :: r))%nat;
    [|discriminate H].
  injection H as <-. apply int_too_long_encodable.
Qed.

Lemma truediv_raises_encodable a b e :
  Num.truediv a b = Raise e -> Console.encodable (exn_str e) = true.
Proof.
  unfold Num.truediv. intros H.
  destruct b; [injection H as <-; apply encodable_literal|..];
    destruct (SFdiv _ _ _ _); try discriminate H;
    injection H as <-; apply encodable_literal.
Qed.

Lemma draw_match_raises_encodable w h img m e :
  digit_groups m -> draw_match w h img m = Raise e ->
  Console.encodable (exn_str e) = true.
Proof.
  intros (a & b & c & d & -> & Ha & Hb & Hc & Hd) H.
  unfold draw_match, unpack_int4 in H.
  repeat match type of H with
  | bind (bind ?x _) _ = Raise _ =>
      let E := fresh "E" in
      destruct x eqn:E; cbn [bind] in H;
      [|injection H as <-; eauto using int_raises_encodable]
  | bind ?x _ = Raise _ =>
      let E := fresh "E" in
      destruct x eqn:E; cbn [bind] in H;
      [|injection H as <-;
        eauto using int_raises_encodable, truediv_raises_encodable]
  end.
  eapply rectangle_message; eauto.
Qed.

Lemma loop_raises_encodable w h ms : Forall digit_groups ms ->
  forall img e,
    for_each ms img (draw_match w h) = Raise e ->
    Console.encodable (exn_str e) = true.
Proof.
  induction 1 as [|m ms Hm _ IH]; intros img e H; cbn [for_each] in H.
  - discriminate H.
  - destruct (draw_match w h img m) as [img'|e'] eqn:E; cbn [bind] in H.
    + eapply IH; eauto.
    + injection H as <-. eapply draw_match_raises_encodable; eauto.
Qed.

Lemma leftmost_occurs p text from spans :
  leftmost p text from spans ->
  Forall (fun sp => occurs p text (span_start sp) (span_end sp) (span_groups sp))
    spans.
Proof. induction 1; constructor; auto. Qed.

(** Every item of the list [findall] returns for the coordinate pattern is
    made of the four integers of a match. *)
Lemma findall_digit_groups text :
  Forall digit_groups (Re.findall coords_pattern text).
Proof.
  destruct (findall_leftmost coords_pattern text coords_never_empty)
    as (spans & Hl & ->).
  apply leftmost_occurs in Hl. apply Forall_map.
  eapply Forall_impl; [|exact Hl]. intros sp Hocc.
  destruct (occurs_groups _ _ _ _ Hocc) as (a & b & c & d & H). exists a, b, c, d.
  exact H.
Qed.

(** Whatever the [try] block raises, the handler can print it. *)
Lemma try_error_encodable image_bytes response_text e :
  draw_bounding_boxes_try image_bytes response_text = Raise e ->
  Console.encodable (exn_str e) = true.
Proof.
  intros H.
  destruct (Image_open image_bytes) as [img|e'] eqn:Ho.
  - rewrite (draw_bounding_boxes_try_open _ _ _ Ho) in H.
    destruct (ImageDraw_Draw img) as [[]|e'] eqn:Hd; cbn [bind] in H.
    + destruct (for_each _ img _) as [img'|e'] eqn:Hl; cbn [bind] in H.
      * destruct (save img' (u "PNG")) as [png|e'] eqn:Hs; cbn [bind] in H;
          [discriminate H|].
        injection H as <-. eapply save_message; eauto.
      * injection H as <-.
        eapply loop_raises_encodable; [apply findall_digit_groups|exact Hl].
    + injection H as <-. eapply ImageDraw_Draw_message; eauto.
  - rewrite (undecodable_image_raises _ _ _ Ho) in H. injection H as <-.
    eapply Image_open_message; eauto.
Qed.

(** The renderer never raises. *)
Lemma draw_bounding_boxes_total image_bytes response_text :
  draw_bounding_boxes image_bytes response_text =
    Ok (match draw_bounding_boxes_try image_bytes response_text with
        | Ok s => Some s
        | Raise _ => None
        end).
Proof.
  unfold draw_bounding_boxes.
  destruct (draw_bounding_boxes_try image_bytes response_text) as [s|e] eqn:E;
    [reflexivity|].
  cbn [bind try_except is_Exception].
  assert (H : Console.print_str (u "Error drawing boxes: " ++ exn_str e) = Ok tt).
  { apply print_str_encodable. rewrite encodable_app, encodable_literal.
    exact (try_error_encodable _ _ _ E). }
  rewrite H. reflexivity.
Qed.

End RendererFailures.

(* ================================================================== *)
(** * The Stream Aggregator *)
(* ================================================================== *)

Lemma bind_Ok {A B} (m : pyresult A) (k : A -> pyresult B) a :
  m = Ok a -> bind m k = k a.
Proof. intros ->. reflexivity. Qed.

Lemma bind_Raise {A B} (m : pyresult A) (k : A -> pyresult B) e :
  m = Raise e -> bind m k = Raise e.
Proof. intros ->. reflexivity. Qed.

(** [json.loads('')] raises [JSONDecodeError]: the guard [if chunk:] skips a
    chunk that the handler would have skipped too. *)
Lemma empty_chunk_undecodable : json_undecodable [].
Proof. eexists. split; reflexivity. Qed.

Lemma decode_chunk_nonempty chunk v :
  decode_chunk chunk = Ok v -> chunk <> [].
Proof. intros H ->. discriminate H. Qed.

(** [bytes.decode] raises nothing but [UnicodeDecodeError]. *)
Lemma decode_from_raises n : forall pos bs e,
  (List.length bs <= n)%nat ->
  Utf8.decode_from pos bs = Raise e -> exn_class_of e = UnicodeDecodeError.
Proof.
  induction n as [|n IH]; intros pos bs e Hlen H.
  - destruct bs; [discriminate H|cbn in Hlen; lia].
  - destruct bs as [|b1 r1]; [discriminate H|].
    cbn [Utf8.decode_from] in H. cbn [List.length] in Hlen.
    repeat match type of H with
    | (if ?c then _ else _) = _ => destruct c
    | match ?l with [] => _ | _ :: _ => _ end = _ =>
        destruct l; cbn [List.length] in Hlen
    | bind ?m _ = Raise _ =>
        let E := fresh "E" in
        destruct m eqn:E; cbn [bind] in H;
        [discriminate H|apply IH in E; [|lia]]
    | Raise _ = Raise _ => injection H as <-
    end; try reflexivity; try congruence.
Qed.

Lemma utf8_decode_raises bs e :
  Utf8.decode bs = Raise e -> exn_class_of e = UnicodeDecodeError.
Proof. apply decode_from_raises with (n := List.length bs). lia. Qed.

Lemma utf8_error_not_json bs e :
  Utf8.decode bs = Raise e -> is_JSONDecodeError e = false.
Proof.
  intros H. unfold is_JSONDecodeError. now rewrite (utf8_decode_raises _ _ H).
Qed.

Section Aggregator.

Context {pil : Pillow} {net : HttpxClient}.

(** The three ways a chunk can go through the loop body, by what decoding it
    gives. *)
Lemma process_chunk_decoded acc chunk v :
  decode_chunk chunk = Ok v ->
  process_chunk acc chunk =
    (content <- Json.get v (u "response") (Json.JStr []) ;;
     _ <- Console.print content ;;
     iadd acc content).
Proof.
  intros H. pose proof (decode_chunk_nonempty _ _ H) as Hne.
  destruct chunk as [|b0 bs]; [congruence|].
  unfold process_chunk. unfold decode_chunk in H.
  destruct (Utf8.decode (b0 :: bs)) as [s|e]; [|discriminate]. cbn [bind] in *.
  rewrite H. cbn [bind].
  destruct v; try reflexivity.
  cbn [Json.get bind].
  set (content := match Json.dict_lookup items (u "response") with
                  | Some v => v
                  | None => Json.JStr []
                  end).
  destruct (Console.print content) as [[]|e] eqn:P; cbn [bind try_except].
  - destruct content; try reflexivity. cbn [iadd bind].
    destruct (Json.truthy _); reflexivity.
  - now rewrite (print_error_not_json _ _ P).
Qed.

Lemma process_chunk_fragment acc chunk delta :
  fragment chunk delta -> process_chunk acc chunk = Ok (acc ++ delta).
Proof.
  intros [d delta' H L Hd | d H L]; rewrite (process_chunk_decoded acc _ _ H);
    cbn [Json.get bind]; rewrite L; cbn [Console.print]; [|reflexivity].
  apply print_str_encodable in Hd. rewrite Hd. reflexivity.
Qed.

Lemma process_chunk_undecodable acc chunk :
  json_undecodable chunk -> process_chunk acc chunk = Ok acc.
Proof.
  intros (e & H & He). destruct chunk as [|b0 bs]; [reflexivity|].
  unfold process_chunk. unfold decode_chunk in H.
  destruct (Utf8.decode (b0 :: bs)) as [s|e'] eqn:E; cbn [bind] in *.
  - rewrite H. cbn [bind try_except]. rewrite He. reflexivity.
  - injection H as ->. rewrite (utf8_error_not_json _ _ E) in He. discriminate He.
Qed.

(** A chunk that raises anything but [JSONDecodeError] ends the loop. *)
Lemma process_chunk_raises acc chunk e :
  decode_chunk chunk = Raise e -> is_JSONDecodeError e = false ->
  process_chunk acc chunk = Raise e.
Proof.
  intros H He. destruct chunk as [|b0 bs].
  { destruct empty_chunk_undecodable as (e0 & H0 & He0). congruence. }
  unfold process_chunk. unfold decode_chunk in H.
  destruct (Utf8.decode (b0 :: bs)) as [s|e']; cbn [bind] in *.
  - rewrite H. cbn [bind try_except]. rewrite He. reflexivity.
  - injection H as ->. cbn [try_except]. rewrite He. reflexivity.
Qed.

(** The loop over the stream: the text grows by the delta of each valid
    chunk and skips the chunks that are not valid JSON. *)
Lemma aggregate_deltas chunks ds acc :
  deltas chunks ds ->
  for_each chunks acc process_chunk = Ok (acc ++ List.concat ds).
Proof.
  intros H. revert acc.
  induction H as [|chunk delta chunks ds Hf _ IH|chunk chunks ds Hu _ IH];
    intros acc; cbn [for_each List.concat].
  - now rewrite app_nil_r.
  - rewrite (process_chunk_fragment acc _ _ Hf). cbn [bind].
    rewrite IH, app_assoc. reflexivity.
  - rewrite (process_chunk_undecodable acc _ Hu). cbn [bind]. apply IH.
Qed.

Lemma deltas_of_fragments chunks ds :
  Forall2 fragment chunks ds -> deltas chunks ds.
Proof. induction 1; [constructor|now constructor]. Qed.

(** The line printed before the request is ASCII. *)
Lemma sending_is_printed :
  Console.print_str
    (u "--- Sending request to Ollama (" ++ MODEL_NAME ++ u ") ---") = Ok tt.
Proof. reflexivity. Qed.

(** The request succeeds when the stream was read to its end. *)
Lemma perform_ocr_success image_data prompt r text_response :
  the_request image_data prompt = Ok r ->
  is_success r = true ->
  for_each (chunks r) [] process_chunk = Ok text_response ->
  ending r = Closed ->
  perform_ocr image_data prompt =
    Return (OcrResult text_response
              (match draw_bounding_boxes_try image_data text_response with
               | Ok s => Some s
               | Raise _ => None
               end) true).
Proof.
  intros Hreq Hok Hloop Hend. unfold perform_ocr, perform_ocr_try.
  rewrite sending_is_printed. cbn [bind].
  unfold the_request in Hreq. rewrite Hreq. cbn [bind].
  unfold raise_for_status. unfold is_success in Hok. rewrite Hok. cbn [bind].
  rewrite Hloop. cbn [bind]. rewrite Hend. cbn [bind].
  rewrite draw_bounding_boxes_total. reflexivity.
Qed.

(** The request fails with the exception a chunk raises. *)
Lemma perform_ocr_chunk_raises image_data prompt r e :
  the_request image_data prompt = Ok r ->
  is_success r = true ->
  for_each (chunks r) [] process_chunk = Raise e ->
  perform_ocr image_data prompt =
    HTTPException 500
      ((if is_HTTPError e then u "Ollama API Error: "
        else u "Internal Server Error: ") ++ exn_str e).
Proof.
  intros Hreq Hok Hloop. unfold perform_ocr, perform_ocr_try.
  rewrite sending_is_printed. cbn [bind].
  unfold the_request in Hreq. rewrite Hreq. cbn [bind].
  unfold raise_for_status. unfold is_success in Hok. rewrite Hok. cbn [bind].
  rewrite Hloop. cbn [bind]. destruct (is_HTTPError e); reflexivity.
Qed.

End Aggregator.

(** A fragment whose text delta can be printed goes through the loop. *)
Lemma printable_fragment chunk delta :
  decodes_as_fragment chunk delta -> Console.encodable delta = true ->
  fragment chunk delta.
Proof.
  intros [d delta' H L|d H L] He.
  - now apply (fragment_text chunk d delta').
  - now apply (fragment_no_text chunk d).
Qed.

Lemma printable_fragments chunks ds :
  Forall2 decodes_as_fragment chunks ds ->
  Forall (fun delta => Console.encodable delta = true) ds ->
  Forall2 fragment chunks ds.
Proof.
  induction 1 as [|chunk delta chunks ds Hd _ IH]; intros He; [constructor|].
  inversion He as [|? ? He1 He2]; subst.
  constructor; [now apply printable_fragment|now apply IH].
Qed.

(** C2, as stated, fails for a fragment whose text delta holds a lone
    surrogate, which JSON spells [\ud800]: the chunk decodes to an object
    whose field [response] is a string, the loop prints the string before it
    extends the text, [print] cannot encode the surrogate and raises
    [UnicodeEncodeError], and the request fails with the status 500, whatever
    the image and the prompt. *)
Lemma lone_surrogate_delta_fails_the_request :
  let chunk := jb "{'response':'\ud800'}" in
  decodes_as_fragment chunk [0xD800%N] /\
  forall (pil : Pillow) image_data prompt,
    @perform_ocr pil (Fake.httpx (Ok (Response 200 [chunk] Closed)))
      image_data prompt =
    HTTPException 500
      (u "Internal Server Error: 'utf-8' codec can't encode character '\ud800' in position 0: surrogates not allowed").
Proof.
  intros chunk. split.
  - apply (decodes_with_text chunk [(u "response", Json.JStr [0xD800%N])]);
      reflexivity.
  - intros pil image_data prompt.
    rewrite (perform_ocr_chunk_raises
               (net := Fake.httpx (Ok (Response 200 [chunk] Closed)))
               image_data prompt (Response 200 [chunk] Closed)
               (Console.encode_error 0xD800%N 0 1)); reflexivity.
Qed.

(** C2, amended.  When every chunk of the stream decodes as a fragment and no
    text delta holds a surrogate code point, the text the loop accumulates and
    the request returns is the concatenation of the fragments' text deltas in
    the order of arrival; a fragment without the field [response] contributes
    the empty string ([decodes_without_text]).  The request succeeds, with the
    annotation the renderer gives for that text. *)
Theorem text_is_concatenation_of_deltas
    (pil : Pillow) (net : HttpxClient) image_data prompt r ds :
  the_request image_data prompt = Ok r ->
  is_success r = true ->
  ending r = Closed ->
  Forall2 decodes_as_fragment (chunks r) ds ->
  Forall (fun delta => Console.encodable delta = true) ds ->
  for_each (chunks r) [] process_chunk = Ok (List.concat ds) /\
  exists annotated,
    draw_bounding_boxes image_data (List.concat ds) = Ok annotated /\
    perform_ocr image_data prompt =
      Return (OcrResult (List.concat ds) annotated true).
Proof.
  intros Hreq Hok Hend Hfr Henc.
  assert (Hloop : for_each (chunks r) [] process_chunk = Ok (List.concat ds)).
  { apply (aggregate_deltas _ _ []). apply deltas_of_fragments.
    now apply printable_fragments. }
  split; [exact Hloop|].
  eexists. split; [apply draw_bounding_boxes_total|].
  now apply perform_ocr_success with (r := r).
Qed.

Lemma text_is_concatenation_of_deltas_witness :
  let r := Response 200 [jb "{'response':'Hello ','done':false}";
                         jb "{'done':false}";
                         jb "{'response':'World','done':true}"] Closed in
  let net := Fake.httpx (Ok r) in
  for_each (chunks r) [] process_chunk = Ok (u "Hello World") /\
  exists annotated,
    @draw_bounding_boxes Fake.pillow [x00; x00; x10; x00; x10] (u "Hello World")
      = Ok annotated /\
    @perform_ocr Fake.pillow net [x00; x00; x10; x00; x10] (u "read") =
      Return (OcrResult (u "Hello World") annotated true).
Proof.
  intros r net.
  refine (text_is_concatenation_of_deltas Fake.pillow net _ (u "read") r
            [u "Hello "; []; u "World"] eq_refl eq_refl eq_refl _ _).
  - repeat constructor.
    + eapply decodes_with_text; vm_compute; reflexivity.
    + eapply decodes_without_text; vm_compute; reflexivity.
    + eapply decodes_with_text; vm_compute; reflexivity.
  - repeat constructor.
Defined.

(** The part of C1 that the program satisfies: chunks that are not valid JSON
    are skipped, and the text is the concatenation of the deltas of the valid
    chunks. *)
Lemma json_errors_are_skipped
    (pil : Pillow) (net : HttpxClient) image_data prompt r ds :
  the_request image_data prompt = Ok r ->
  is_success r = true ->
  ending r = Closed ->
  deltas (chunks r) ds ->
  exists annotated,
    perform_ocr image_data prompt =
      Return (OcrResult (List.concat ds) annotated true).
Proof.
  intros Hreq Hok Hend Hd.
  eexists. apply perform_ocr_success with (r := r); auto.
  apply (aggregate_deltas _ _ [] Hd).
Qed.

(** C1.  A chunk that ends inside a multi-byte character cannot be decoded,
    yet it is not skipped: [chunk.decode('utf-8')] raises [UnicodeDecodeError],
    which the handler for [json.JSONDecodeError] does not catch, and the
    request fails although the first and the last chunk are valid. *)
Theorem undecodable_bytes_fail_the_request (pil : Pillow) image_data prompt :
  let r := Response 200 [jb "{'response':'Hello '}";
                         jb "{'response':'" ++ [xe4; xb8];
                         [xad] ++ jb "'}";
                         jb "{'response':'World','done':true}"] Closed in
  @perform_ocr pil (Fake.httpx (Ok r)) image_data prompt =
    HTTPException 500
      (u "Internal Server Error: 'utf-8' codec can't decode bytes in position 13-14: unexpected end of data").
Proof.
  intros r.
  rewrite (perform_ocr_chunk_raises (net := Fake.httpx (Ok r)) image_data prompt r
             (Utf8.unexpected_end 0xe4 13 2)); reflexivity.
Qed.

(** C10.  A chunk that is valid JSON but not an object ends the request with
    the generic internal error, whatever text the chunks before it gave and
    whatever follows it.  The chunks that go through the loop without an
    error are the ones that are not valid JSON, which are skipped, and the
    fragments, which extend the text. *)
Theorem non_object_chunk_fails_the_request
    (pil : Pillow) (net : HttpxClient) image_data prompt r before chunk after
    partial_text v :
  the_request image_data prompt = Ok r ->
  is_success r = true ->
  chunks r = before ++ chunk :: after ->
  for_each before [] process_chunk = Ok partial_text ->
  decode_chunk chunk = Ok v ->
  (forall d, v <> Json.JDict d) ->
  perform_ocr image_data prompt =
    HTTPException 500
      (u "Internal Server Error: '" ++ u (Json.type_name v)
       ++ u "' object has no attribute 'get'") /\
  (forall acc c acc',
     process_chunk acc c = Ok acc' ->
     (json_undecodable c /\ acc' = acc) \/
     (exists delta, fragment c delta /\ acc' = acc ++ delta)).
Proof.
  intros Hreq Hok Hch Hbefore Hv Hnd. split.
  - rewrite (perform_ocr_chunk_raises image_data prompt r
               (Exn AttributeError
                  (u "'" ++ u (Json.type_name v)
                   ++ u "' object has no attribute 'get'"))); auto.
    rewrite Hch, for_each_app, Hbefore. cbn [bind for_each].
    rewrite (process_chunk_decoded _ _ _ Hv).
    destruct v; try reflexivity. now destruct (Hnd items).
  - intros acc c acc' H.
    destruct (decode_chunk c) as [w|e] eqn:E.
    + rewrite (process_chunk_decoded _ _ _ E) in H.
      destruct w; try discriminate H.
      cbn [Json.get bind] in H.
      destruct (Json.dict_lookup items (u "response")) as [[]|] eqn:L;
        try discriminate H; cbn [Console.print] in H.
      * destruct (Console.print_str s) as [[]|e] eqn:P; [|discriminate H].
        injection H as <-. right. eexists. split; [|reflexivity].
        eapply fragment_text; try eassumption.
        now apply print_str_encodable.
      * injection H as <-. right. eexists. split; [|reflexivity].
        eapply fragment_no_text; eassumption.
    + destruct (is_JSONDecodeError e) eqn:He.
      * left. split; [now exists e|].
        rewrite process_chunk_undecodable in H by now exists e. congruence.
      * rewrite (process_chunk_raises _ _ _ E He) in H. discriminate H.
Qed.

Lemma non_object_chunk_fails_the_request_witness :
  let r := Response 200 [jb "{'response':'Hello '}"; jb "[1, 2]";
                         jb "{'response':'World'}"] Closed in
  @perform_ocr Fake.pillow (Fake.httpx (Ok r)) [x00; x00; x10; x00; x10] (u "read") =
    HTTPException 500
      (u "Internal Server Error: 'list' object has no attribute 'get'").
Proof.
  intros r.
  exact (proj1 (non_object_chunk_fails_the_request Fake.pillow (Fake.httpx (Ok r))
           [x00; x00; x10; x00; x10] (u "read") r
           [jb "{'response':'Hello '}"] (jb "[1, 2]") [jb "{'response':'World'}"]
           (u "Hello ") (Json.JList [Json.JInt 1; Json.JInt 2])
           eq_refl eq_refl eq_refl eq_refl eq_refl
           (fun d H => match H with end))).
Defined.

(** C7.  When the request cannot be sent (the connection fails or times out),
    when the status is not 2xx, or when reading the body times out, the
    request fails with the one upstream error, status 500 and a detail text
    made of the prefix ["Ollama API Error: "] and the message of the
    exception.  Nothing is returned: the text accumulated before a read
    failure is dropped. *)
Theorem upstream_failure_fails_the_request
    (pil : Pillow) (net : HttpxClient) image_data prompt msg :
  unavailable (the_request image_data prompt) msg ->
  perform_ocr image_data prompt =
    HTTPException 500 (u "Ollama API Error: " ++ msg) /\
  (forall result, perform_ocr image_data prompt <> Return result).
Proof.
  intros H.
  assert (E : perform_ocr image_data prompt =
              HTTPException 500 (u "Ollama API Error: " ++ msg)).
  { unfold perform_ocr, perform_ocr_try.
    rewrite sending_is_printed. cbn [bind]. unfold the_request in H.
    inversion H as [e k Hk Heq|r Hst Heq|r e k partial_text Hst Hloop Hend Hk Heq];
      cbn [bind].
    - unfold is_HTTPError. rewrite Hk. reflexivity.
    - unfold raise_for_status. unfold is_success in Hst. rewrite Hst.
      reflexivity.
    - unfold raise_for_status. unfold is_success in Hst. rewrite Hst.
      cbn [bind]. rewrite Hloop. cbn [bind]. rewrite Hend. cbn [bind].
      unfold is_HTTPError. rewrite Hk. reflexivity. }
  split; [exact E|]. intros result. rewrite E. discriminate.
Qed.

Lemma upstream_failure_fails_the_request_witness :
  let timeout := Exn (Httpx ReadTimeout) (u "timed out") in
  let r := Response 200 [jb "{'response':'Hello '}"] (Broken timeout) in
  @perform_ocr Fake.pillow (Fake.httpx (Ok r)) [x00; x00; x10; x00; x10] (u "read") =
    HTTPException 500 (u "Ollama API Error: timed out").
Proof.
  intros timeout r.
  apply (upstream_failure_fails_the_request Fake.pillow (Fake.httpx (Ok r))
           [x00; x00; x10; x00; x10] (u "read") (u "timed out")).
  apply (unavailable_read (net := Fake.httpx (Ok r)) r timeout ReadTimeout (u "Hello "));
    reflexivity.
Defined.

(** The same for a connection that cannot be established and for a status
    that is not 2xx. *)
Example connection_refused :
  let refused := Exn (Httpx ConnectError) (u "All connection attempts failed") in
  @perform_ocr Fake.pillow (Fake.httpx (Raise refused)) [] (u "read") =
    HTTPException 500 (u "Ollama API Error: All connection attempts failed").
Proof. reflexivity. Qed.

Example model_not_found :
  let r := Response 404 [jb "{'error':'model not found'}"] Closed in
  @perform_ocr Fake.pillow (Fake.httpx (Ok r)) [] (u "read") =
    HTTPException 500
      (u "Ollama API Error: Server error for url 'http://localhost:11434/api/generate'").
Proof. reflexivity. Qed.

(** C3.  Whatever raises inside the renderer (an image that cannot be opened,
    see [undecodable_image_raises], an encoding that fails, see
    [encoding_failure_raises], or anything else in its [try] block), the
    renderer returns [None] and does not raise, and a request whose stream was
    read to its end still returns the accumulated text. *)
Theorem annotation_failure_never_fails_the_request
    (pil : Pillow) (net : HttpxClient) image_data prompt text_response e :
  draw_bounding_boxes_try image_data text_response = Raise e ->
  draw_bounding_boxes image_data text_response = Ok None /\
  (forall r,
     the_request image_data prompt = Ok r ->
     is_success r = true ->
     for_each (chunks r) [] process_chunk = Ok text_response ->
     ending r = Closed ->
     perform_ocr image_data prompt =
       Return (OcrResult text_response None true)).
Proof.
  intros H. split.
  - rewrite draw_bounding_boxes_total, H. reflexivity.
  - intros r Hreq Hok Hloop Hend.
    rewrite (perform_ocr_success image_data prompt r text_response) by assumption.
    now rewrite H.
Qed.

Lemma annotation_failure_never_fails_the_request_witness :
  let r := Response 200 [jb "{'response':'Hello [[1,2,3,4]]'}"] Closed in
  @perform_ocr Fake.pillow (Fake.httpx (Ok r)) (b "not an image") (u "read") =
    Return (OcrResult (u "Hello [[1,2,3,4]]") None true).
Proof.
  intros r.
  exact (proj2 (annotation_failure_never_fails_the_request Fake.pillow
                  (Fake.httpx (Ok r)) (b "not an image") (u "read")
                  (u "Hello [[1,2,3,4]]")
                  (Exn UnidentifiedImageError (u "cannot identify image file"))
                  eq_refl)
           r eq_refl eq_refl eq_refl eq_refl).
Defined.








(** C6, as stated, fails for an image that Pillow opens and cannot write as
    PNG, one in the mode CMYK for instance: the text has no match and the
    renderer returns [None], not an image. *)
Lemma unwritable_image_has_no_annotation :
  let image_bytes := [x01; x00; x64; x00; x64] in
  (exists img, @Image_open Fake.pillow image_bytes = Ok img) /\
  (forall i j gs, ~ occurs coords_pattern (u "no boxes") i j gs) /\
  @draw_bounding_boxes Fake.pillow image_bytes (u "no boxes") = Ok None.
Proof.
  split; [eexists; reflexivity|]. split; [|reflexivity].
  apply findall_nil_no_match. reflexivity.
Qed.

(** C6, amended.  For a text without a match of the pattern the renderer
    draws nothing: the image it encodes is the decoded input as it is, so the
    annotation is the base64 text of the PNG encoding of the input image,
    and it is [None] when the drawing handle or the PNG encoding fails. *)
Theorem no_match_leaves_the_image_unchanged
    (pil : Pillow) image_bytes text img :
  Image_open image_bytes = Ok img ->
  (forall i j gs, ~ occurs coords_pattern text i j gs) ->
  draw_bounding_boxes image_bytes text =
    Ok (annotation (_ <- ImageDraw_Draw img ;; save img (u "PNG"))).
Proof.
  intros Ho Hno. rewrite draw_bounding_boxes_total.
  rewrite (draw_bounding_boxes_try_open _ _ _ Ho).
  rewrite (findall_no_match text Hno). cbn [for_each bind].
  destruct (ImageDraw_Draw img) as [[]|e]; cbn [bind]; [|reflexivity].
  destruct (save img (u "PNG")); reflexivity.
Qed.

Lemma no_match_leaves_the_image_unchanged_witness :
  let image_bytes := [x00; x00; x64; x00; x64] in
  @draw_bounding_boxes Fake.pillow image_bytes (u "no boxes") =
    Ok (Some (Base64.b64encode_str [x00; x00; x64; x00; x64; x00])).
Proof.
  intros image_bytes.
  apply (no_match_leaves_the_image_unchanged Fake.pillow image_bytes
           (u "no boxes") (Fake.Picture x00 x64 x00 x64 Fake.RGB []) eq_refl).
  apply findall_nil_no_match. reflexivity.
Defined.

(** C8.  The matches the renderer works on are the non-overlapping textual
    matches of the bracketed pattern in the order of appearance: [findall]
    returns the groups of the leftmost matches [spans], whatever list
    satisfies [leftmost].  The rectangles are drawn in that order: the
    renderer goes through [spans] from the first to the last and, for each
    match, converts and scales its four numbers and calls [rectangle] on the
    image that carries the rectangles of the matches before it; the
    rectangles of the later matches are drawn over the result. *)
Theorem matches_are_drawn_in_order_of_appearance
    (pil : Pillow) (image_bytes : bytes) (response_text : str) :
  exists spans,
    leftmost coords_pattern response_text 0 spans /\
    (forall spans', leftmost coords_pattern response_text 0 spans' ->
                    spans' = spans) /\
    Re.findall coords_pattern response_text = map span_groups spans /\
    let draw (img im : image) (sp : span) :=
      '(x1, y1, x2, y2) <- unpack_int4 (span_groups sp) ;;
      left <- Num.truediv (x1 * fst (size img)) 1000 ;;
      top <- Num.truediv (y1 * snd (size img)) 1000 ;;
      right <- Num.truediv (x2 * fst (size img)) 1000 ;;
      bottom <- Num.truediv (y2 * snd (size img)) 1000 ;;
      rectangle im [left; top; right; bottom] (u "#00ff00") 3 in
    draw_bounding_boxes_try image_bytes response_text =
      (img <- Image_open image_bytes ;;
       _ <- ImageDraw_Draw img ;;
       img' <- for_each spans img (draw img) ;;
       buffered <- save img' (u "PNG") ;;
       Ok (Base64.b64encode_str buffered)) /\
    forall before sp after,
      spans = before ++ sp :: after ->
      draw_bounding_boxes_try image_bytes response_text =
        (img <- Image_open image_bytes ;;
         _ <- ImageDraw_Draw img ;;
         img1 <- for_each before img (draw img) ;;
         img2 <- draw img img1 sp ;;
         img' <- for_each after img2 (draw img) ;;
         buffered <- save img' (u "PNG") ;;
         Ok (Base64.b64encode_str buffered)).
Proof.
  destruct (findall_leftmost coords_pattern response_text coords_never_empty)
    as (spans & Hl & Hf).
  exists spans. split; [exact Hl|]. split.
  { intros spans' Hl'.
    exact (leftmost_unique response_text 0 spans' spans Hl' Hl). }
  split; [exact Hf|]. intros draw.
  assert (Hall : draw_bounding_boxes_try image_bytes response_text =
            (img <- Image_open image_bytes ;;
             _ <- ImageDraw_Draw img ;;
             img' <- for_each spans img (draw img) ;;
             buffered <- save img' (u "PNG") ;;
             Ok (Base64.b64encode_str buffered))).
  { destruct (Image_open image_bytes) as [img|e] eqn:Ho.
    - rewrite (draw_bounding_boxes_try_open _ _ _ Ho), Hf. cbn [bind].
      now rewrite for_each_map.
    - now rewrite (undecodable_image_raises _ _ _ Ho). }
  split; [exact Hall|].
  intros before sp after ->. rewrite Hall.
  destruct (Image_open image_bytes) as [img|e]; [|reflexivity]. cbn [bind].
  destruct (ImageDraw_Draw img) as [[]|e]; [|reflexivity]. cbn [bind].
  rewrite for_each_app.
  destruct (for_each before img (draw img)) as [img1|e]; [|reflexivity].
  cbn [bind for_each].
  destruct (draw img img1 sp) as [img2|e]; reflexivity.
Qed.

(* ================================================================== *)
(** * The whole request *)
(* ================================================================== *)

(** C9.  A request with a 500 by 500 image and the prompt "extract text", to
    which the upstream answers with the two fragments of the scenario,
    returns the text "Hello [[0,0,500,1000]] World", and its annotation is
    the encoding of the image after one call of [rectangle], for the box
    from (0, 0) to (250, 500). *)
Theorem end_to_end_scenario
    (pil : Pillow) (net : HttpxClient) image_data img :
  Image_open image_data = Ok img ->
  size img = (500, 500) ->
  the_request image_data (u "extract text") =
    Ok (Response 200
          [jb "{'response':'Hello ','done':false}";
           jb "{'response':'[[0,0,500,1000]] World','done':true}"]
          Closed) ->
  perform_ocr image_data (u "extract text") =
    Return
      (OcrResult (u "Hello [[0,0,500,1000]] World")
         (annotation
            (_ <- ImageDraw_Draw img ;;
             img' <- rectangle img [flt 0; flt 0; flt 250; flt 500]
                       (u "#00ff00") 3 ;;
             save img' (u "PNG")))
         true).
Proof.
  intros Ho Hsize Hreq.
  rewrite (perform_ocr_success image_data (u "extract text") _
             (u "Hello [[0,0,500,1000]] World") Hreq);
    [|reflexivity|vm_compute; reflexivity|reflexivity].
  rewrite (draw_bounding_boxes_try_open _ _ _ Ho), Hsize. cbn [fst snd].
  replace (Re.findall coords_pattern (u "Hello [[0,0,500,1000]] World"))
    with [[u "0"; u "0"; u "500"; u "1000"]] by (vm_compute; reflexivity).
  cbn [for_each].
  rewrite (draw_match_scaled 500 500 img [u "0"; u "0"; u "500"; u "1000"]
             0 0 500 1000 eq_refl)
    by (change (2 ^ 64) with 18446744073709551616; lia).
  change (scaled (0 * 500)) with (flt 0).
  change (scaled (500 * 500)) with (flt 250).
  change (scaled (1000 * 500)) with (flt 500).
  destruct (ImageDraw_Draw img) as [[]|e]; cbn [bind annotation]; [|reflexivity].
  destruct (rectangle img _ _ _) as [img'|e]; cbn [bind]; [|reflexivity].
  destruct (save img' (u "PNG")); reflexivity.
Qed.

Lemma end_to_end_scenario_witness :
  let image_data := [x00; x01; xf4; x01; xf4] in
  let r := Response 200
             [jb "{'response':'Hello ','done':false}";
              jb "{'response':'[[0,0,500,1000]] World','done':true}"]
             Closed in
  @perform_ocr Fake.pillow (Fake.httpx (Ok r)) image_data (u "extract text") =
    Return
      (OcrResult (u "Hello [[0,0,500,1000]] World")
         (Some (Base64.b64encode_str [x00; x01; xf4; x01; xf4; x01]))
         true).
Proof.
  intros image_data r.
  exact (end_to_end_scenario Fake.pillow (Fake.httpx (Ok r)) image_data
           (Fake.Picture x01 xf4 x01 xf4 Fake.RGB []) eq_refl eq_refl eq_refl).
Defined.

(** The boxes the stand-in records for a text with two tuples, the second
    one written with Arabic-Indic digits: they come in the order of the text.
    The image is 1000 by 1000, so that the coordinates are not changed. *)
Example boxes_are_recorded_in_order :
  @draw_bounding_boxes_try Fake.pillow [x00; x03; xe8; x03; xe8]
    (u "a [[100, 200,300,400]] b [[" ++ [0x661%N; 0x660%N] ++ u ",20,30,40]]") =
  Ok (Base64.b64encode_str [x00; x03; xe8; x03; xe8; x02]) /\
  @for_each _ _
    (Re.findall coords_pattern
       (u "a [[100, 200,300,400]] b [[" ++ [0x661%N; 0x660%N] ++ u ",20,30,40]]"))
    (Fake.Picture x03 xe8 x03 xe8 Fake.RGB [])
    (@draw_match Fake.pillow 1000 1000) =
  Ok (Fake.Picture x03 xe8 x03 xe8 Fake.RGB
        [[flt 100; flt 200; flt 300; flt 400];
         [flt 10; flt 20; flt 30; flt 40]]).
Proof. split; vm_compute; reflexivity. Qed.

(* ================================================================== *)
(** * The decoder and the boundaries of chunks *)
(* ================================================================== *)

(** [aiter_bytes] cuts the body where the transport does, not where a line
    of the stream ends.  The lemmas of this part say what the decoder makes
    of a chunk with text added after or before it. *)

Local Open Scope N_scope.

(** ** Numbers *)

Lemma span_digits_app s : forall ds r t,
  Json.span_digits s = (ds, r) ->
  not_first Json.is_digit (r ++ t) ->
  Json.span_digits (s ++ t) = (ds, r ++ t).
Proof.
  induction s as [|c s IH]; intros ds r t H Ht; cbn [Json.span_digits app] in *.
  - injection H as <- <-. cbn [app] in *. destruct t as [|c t]; [reflexivity|].
    cbn [Json.span_digits]. cbn [not_first] in Ht. now rewrite Ht.
  - destruct (Json.is_digit c) eqn:D.
    + destruct (Json.span_digits s) as [ds' r'] eqn:E. injection H as <- <-.
      now rewrite (IH _ _ t eq_refl Ht).
    + injection H as <- <-. reflexivity.
Qed.

Lemma span_digits_digits s : forall ds r,
  Json.span_digits s = (ds, r) -> not_first Json.is_digit r.
Proof.
  induction s as [|c s IH]; intros ds r H; cbn [Json.span_digits] in H.
  - injection H as <- <-. exact I.
  - destruct (Json.is_digit c) eqn:D.
    + destruct (Json.span_digits s) as [ds' r'] eqn:E. injection H as <- <-.
      eapply IH; eauto.
    + injection H as <- <-. exact D.
Qed.

Lemma not_first_weaken (P Q : char -> bool) l :
  (forall c, Q c = false -> P c = false) -> not_first Q l -> not_first P l.
Proof. destruct l; cbn; auto. Qed.

Lemma continues_digit c : continues_number c = false -> Json.is_digit c = false.
Proof.
  unfold continues_number. intros H.
  repeat (apply orb_false_iff in H as [H ?]). auto.
Qed.

Lemma continues_parts c : continues_number c = false ->
  Json.is_digit c = false /\ (c =? 46) = false /\
  (c =? 101) = false /\ (c =? 69) = false.
Proof.
  unfold continues_number. intros H.
  repeat (apply orb_false_iff in H as [H ?]). auto.
Qed.

Lemma scan_fraction_app s f r t :
  Json.scan_fraction s = (f, r) ->
  not_first (fun c => Json.is_digit c || (c =? 46)) (r ++ t) ->
  Json.scan_fraction (s ++ t) = (f, r ++ t).
Proof.
  intros H Ht. unfold Json.scan_fraction in *.
  destruct s as [|dot [|d s]]; cbn [app] in *.
  - injection H as <- <-. cbn [app] in *.
    destruct t as [|c [|c' t]]; [reflexivity| |].
    + reflexivity.
    + cbn [not_first] in Ht. apply orb_false_iff in Ht as [_ Ht].
      rewrite Ht. reflexivity.
  - injection H as <- <-. cbn [app not_first] in *.
    apply orb_false_iff in Ht as [_ Ht].
    destruct t as [|c t]; [reflexivity|]. rewrite Ht. reflexivity.
  - destruct ((dot =? 46) && Json.is_digit d) eqn:E.
    + destruct (Json.span_digits s) as [ds r'] eqn:Es. injection H as <- <-.
      rewrite (span_digits_app s ds r' t Es); [reflexivity|].
      eapply not_first_weaken; [|exact Ht]. intros c Hc.
      now apply orb_false_iff in Hc as [Hc _].
    + injection H as <- <-. reflexivity.
Qed.

Lemma scan_exponent_app s x r t :
  Json.scan_exponent s = (x, r) ->
  not_first continues_number (r ++ t) ->
  Json.scan_exponent (s ++ t) = (x, r ++ t).
Proof.
  intros H Ht. unfold Json.scan_exponent in *.
  destruct s as [|e s]; cbn [app] in *.
  - injection H as <- <-. cbn [app] in *.
    destruct t as [|c t]; [reflexivity|]. cbn [not_first] in Ht.
    apply continues_parts in Ht as (_ & _ & H1 & H2). rewrite H1, H2. reflexivity.
  - destruct ((e =? 101) || (e =? 69)) eqn:E.
    + assert (Hd : not_first Json.is_digit (r ++ t)).
      { eapply not_first_weaken; [|exact Ht]. apply continues_digit. }
      destruct s as [|sg s']; cbn [app] in *.
      * cbn [Json.span_digits] in H. injection H as <- <-.
        cbn [app not_first] in Ht. apply continues_parts in Ht as (_ & _ & H1 & H2).
        apply orb_true_iff in E as [E|E]; congruence.
      * destruct ((sg =? 45) || (sg =? 43)) eqn:S.
        -- destruct (Json.span_digits s') as [ds r2] eqn:Es.
           destruct ds as [|d ds].
           ++ injection H as <- <-. cbn [app not_first] in Ht.
              apply continues_parts in Ht as (_ & _ & H1 & H2).
              apply orb_true_iff in E as [E|E]; congruence.
           ++ injection H as <- <-.
              rewrite (span_digits_app s' _ _ t Es Hd). reflexivity.
        -- destruct (Json.span_digits (sg :: s')) as [ds r2] eqn:Es.
           destruct ds as [|d ds].
           ++ injection H as <- <-. cbn [app not_first] in Ht.
              apply continues_parts in Ht as (_ & _ & H1 & H2).
              apply orb_true_iff in E as [E|E]; congruence.
           ++ injection H as <- <-.
              change (sg :: s' ++ t) with ((sg :: s') ++ t).
              rewrite (span_digits_app (sg :: s') _ _ t Es Hd). reflexivity.
    + injection H as <- <-. reflexivity.
Qed.

(** What [scan_fraction] and [scan_exponent] leave starts with the character
    they stopped at. *)
Lemma scan_exponent_first s x r :
  Json.scan_exponent s = (x, r) -> x <> [] ->
  exists e s', s = e :: s' /\ ((e =? 101) || (e =? 69)) = true.
Proof.
  unfold Json.scan_exponent. destruct s as [|e s]; intros H Hx.
  - injection H as <- <-. congruence.
  - destruct ((e =? 101) || (e =? 69)) eqn:E.
    + eauto.
    + injection H as <- <-. congruence.
Qed.

Lemma scan_exponent_nil s r :
  Json.scan_exponent s = ([], r) -> r = s.
Proof.
  unfold Json.scan_exponent. destruct s as [|e s]; intros H.
  - now injection H.
  - destruct ((e =? 101) || (e =? 69)).
    + destruct (match s with
                | [] => ([], s)
                | sg :: r' => if (sg =? 45) || (sg =? 43) then ([sg], r') else ([], s)
                end) as [sign r1].
      destruct (Json.span_digits r1) as [[|d ds] r2].
      * now injection H.
      * discriminate H.
    + now injection H.
Qed.

Lemma scan_fraction_first s f r :
  Json.scan_fraction s = (f, r) -> f <> [] ->
  exists s', s = 46 :: s'.
Proof.
  unfold Json.scan_fraction. destruct s as [|dot [|d s]]; intros H Hf;
    try (injection H as <- <-; congruence).
  destruct ((dot =? 46) && Json.is_digit d) eqn:E.
  - apply andb_true_iff in E as [E _]. apply N.eqb_eq in E. subst. eauto.
  - injection H as <- <-. congruence.
Qed.

Lemma scan_fraction_nil s r :
  Json.scan_fraction s = ([], r) -> r = s.
Proof.
  unfold Json.scan_fraction. destruct s as [|dot [|d s]]; intros H;
    try (now injection H).
  destruct ((dot =? 46) && Json.is_digit d).
  - destruct (Json.span_digits s). discriminate H.
  - now injection H.
Qed.

Ltac exponent_first Ee Ht :=
  match type of Ee with
  | Json.scan_exponent ?s3 = (?expo, ?s4) =>
    destruct expo as [|? ?];
    [ apply scan_exponent_nil in Ee; subst s4;
      eapply not_first_weaken; [|exact Ht];
      let a := fresh "a" in let Ha := fresh "Ha" in
      intros a Ha; apply continues_parts in Ha as (-> & -> & _); reflexivity
    | let He := fresh "He" in
      destruct (scan_exponent_first _ _ _ Ee) as (? & ? & -> & He);
      [discriminate|];
      cbn [app not_first];
      apply orb_true_iff in He as [He|He]; apply N.eqb_eq in He; subst;
      reflexivity ]
  end.

(** The part of a number after its sign. *)
Lemma unsigned_number_app doc doc' s0 sign s1 v r t :
  (let '(int_part, s2) :=
     match s1 with
     | c :: r =>
       if c =? 48 then ([c], r)
       else if Json.is_digit c
            then let '(ds, r') := Json.span_digits r in (c :: ds, r')
            else ([], s1)
     | [] => ([], s1)
     end in
   match int_part with
   | [] => Json.fail_at doc "Expecting value" s0
   | _ =>
     let '(frac, s3) := Json.scan_fraction s2 in
     let '(expo, s4) := Json.scan_exponent s3 in
     match frac, expo with
     | [], [] =>
       if (Json.int_max_str_digits <? List.length int_part)%nat
       then Raise (Json.int_too_long (List.length int_part))
       else Ok (Json.JInt (match sign with
                           | [] => Json.decimal_value int_part
                           | _ => - Json.decimal_value int_part
                           end%Z), s4)
     | _, _ => Ok (Json.JFloat (sign ++ int_part ++ frac ++ expo), s4)
     end
   end) = Ok (v, r) ->
  not_first continues_number (r ++ t) ->
  (let '(int_part, s2) :=
     match s1 ++ t with
     | c :: r =>
       if c =? 48 then ([c], r)
       else if Json.is_digit c
            then let '(ds, r') := Json.span_digits r in (c :: ds, r')
            else ([], s1 ++ t)
     | [] => ([], s1 ++ t)
     end in
   match int_part with
   | [] => Json.fail_at doc' "Expecting value" (s0 ++ t)
   | _ =>
     let '(frac, s3) := Json.scan_fraction s2 in
     let '(expo, s4) := Json.scan_exponent s3 in
     match frac, expo with
     | [], [] =>
       if (Json.int_max_str_digits <? List.length int_part)%nat
       then Raise (Json.int_too_long (List.length int_part))
       else Ok (Json.JInt (match sign with
                           | [] => Json.decimal_value int_part
                           | _ => - Json.decimal_value int_part
                           end%Z), s4)
     | _, _ => Ok (Json.JFloat (sign ++ int_part ++ frac ++ expo), s4)
     end
   end) = Ok (v, r ++ t).
Proof.
  intros H Ht.
  destruct s1 as [|c s1']; [discriminate H|]. cbn [app].
  destruct (c =? 48) eqn:Z0.
  - destruct (Json.scan_fraction s1') as [frac s3] eqn:Ef.
    destruct (Json.scan_exponent s3) as [expo s4] eqn:Ee.
    assert (H3 : not_first (fun c => Json.is_digit c || (c =? 46)) (s3 ++ t)).
    { assert (r = s4) as ->.
      { destruct frac, expo; cbn [List.length] in H; now injection H. }
      exponent_first Ee Ht. }
    assert (r = s4) as ->.
    { destruct frac, expo; cbn [List.length] in H; now injection H. }
    cbv beta iota.
    pose proof (scan_fraction_app _ _ _ t Ef H3) as E1.
    pose proof (scan_exponent_app _ _ _ t Ee Ht) as E2.
    unfold str, char in *.
    rewrite E1. cbv beta iota. rewrite E2. cbv beta iota.
    destruct frac, expo; cbn [List.length] in H |- *; injection H as <-; reflexivity.
  - destruct (Json.is_digit c) eqn:D; [|discriminate H].
    destruct (Json.span_digits s1') as [ds s2] eqn:Ed.
    destruct (Json.scan_fraction s2) as [frac s3] eqn:Ef.
    destruct (Json.scan_exponent s3) as [expo s4] eqn:Ee.
    assert (r = s4) as ->.
    { destruct frac, expo; try (now injection H).
      destruct (_ <? _)%nat; [discriminate H|]. now injection H. }
    assert (H3 : not_first (fun c => Json.is_digit c || (c =? 46)) (s3 ++ t)).
    { exponent_first Ee Ht. }
    assert (H2 : not_first Json.is_digit (s2 ++ t)).
    { destruct frac as [|x frac].
      - apply scan_fraction_nil in Ef. subst s3.
        eapply not_first_weaken; [|exact H3]. intros a Ha.
        now apply orb_false_iff in Ha as [-> _].
      - destruct (scan_fraction_first _ _ _ Ef) as (s' & ->); [discriminate|].
        reflexivity. }
    pose proof (span_digits_app _ _ _ t Ed H2) as E0.
    pose proof (scan_fraction_app _ _ _ t Ef H3) as E1.
    pose proof (scan_exponent_app _ _ _ t Ee Ht) as E2.
    unfold str, char in *.
    rewrite E0. cbv beta iota. rewrite E1. cbv beta iota.
    rewrite E2. cbv beta iota.
    destruct frac, expo; try (injection H as <-; reflexivity).
    destruct (_ <? _)%nat; [discriminate H|]. injection H as <-; reflexivity.
Qed.

(** A number is read in the same way when text is added after it, if the
    character that follows it cannot continue a number. *)
Lemma match_number_app doc doc' s v r t :
  Json.match_number doc s = Ok (v, r) ->
  not_first continues_number (r ++ t) ->
  Json.match_number doc' (s ++ t) = Ok (v, r ++ t).
Proof.
  intros H Ht. unfold Json.match_number in *.
  destruct s as [|c s']; [discriminate H|]. cbn [app].
  destruct (c =? 45).
  - exact (unsigned_number_app doc doc' (c :: s') [c] s' v r t H Ht).
  - exact (unsigned_number_app doc doc' (c :: s') [] (c :: s') v r t H Ht).
Qed.

(** ** Strings *)

(** An escape [\u] is followed by four digits and one more character. *)
Lemma scanstring_escape_u doc start rest acc x r :
  Json.scanstring doc start (92 :: 117 :: rest) acc = Ok (x, r) ->
  (5 <= List.length rest)%nat.
Proof.
  intros H. cbn [Json.scanstring] in H.
  change (92 =? 34) with false in H. change (92 =? 92) with true in H.
  change (117 =? 117) with true in H. cbv beta iota in H.
  destruct rest as [|h1 [|h2 [|h3 [|h4 [|h5 r5]]]]]; try discriminate H.
  cbn [List.length]. lia.
Qed.

Lemma scanstring_backslash doc start acc x r :
  Json.scanstring doc start [92] acc = Ok (x, r) -> False.
Proof. intros H. discriminate H. Qed.

Lemma pair_test_false doc start r5 acc x r t :
  (List.length r5 < 7)%nat ->
  Json.scanstring doc start r5 acc = Ok (x, r) ->
  match r5 ++ t with
  | b :: v :: _ => (b =? 92) && (v =? 117)
  | _ => false
  end = false.
Proof.
  intros Hlen H.
  destruct r5 as [|b [|v rest]].
  - discriminate H.
  - cbn [app]. destruct t as [|v t]; [reflexivity|].
    destruct (b =? 92) eqn:B; [|reflexivity]. apply N.eqb_eq in B. subst b.
    now apply scanstring_backslash in H.
  - cbn [app].
    destruct (b =? 92) eqn:B; [|reflexivity]. apply N.eqb_eq in B. subst b.
    destruct (v =? 117) eqn:V; [|reflexivity]. apply N.eqb_eq in V. subst v.
    apply scanstring_escape_u in H. cbn [List.length] in Hlen.
    exfalso. unfold str, char in *. lia.
Qed.

Lemma scanstring_app doc doc' n : forall s start start' acc x r t,
  (List.length s <= n)%nat ->
  Json.scanstring doc start s acc = Ok (x, r) ->
  Json.scanstring doc' start' (s ++ t) acc = Ok (x, r ++ t).
Proof.
  induction n as [|n IH]; intros s start start' acc x r t Hlen H.
  { destruct s; [discriminate H|cbn in Hlen; lia]. }
  destruct s as [|c r0]; [discriminate H|].
  cbn [List.length] in Hlen.
  cbn [Json.scanstring app] in H |- *.
  destruct (c =? 34). { injection H as <- <-. reflexivity. }
  destruct (c =? 92).
  2:{ destruct (c <=? 31); [discriminate H|]. apply (IH _ start); [lia|exact H]. }
  destruct r0 as [|e r1]; [discriminate H|]. cbn [app List.length] in *.
  destruct (e =? 117).
  2:{ destruct (Json.simple_escape e); [|discriminate H].
      apply (IH _ start); [lia|exact H]. }
  destruct r1 as [|h1 [|h2 [|h3 [|h4 [|h5 r5']]]]]; try discriminate H.
  cbn [app List.length] in *.
  destruct (Json.hex4 h1 h2 h3 h4) as [c1|]; [|discriminate H].
  destruct (Nat.ltb (List.length (h5 :: r5')) 7) eqn:Short.
  - apply Nat.ltb_lt in Short.
    assert (H' : Json.scanstring doc start (h5 :: r5') (c1 :: acc) = Ok (x, r)).
    { destruct r5' as [|v [|l1 [|l2 [|l3 [|l4 [|z r11']]]]]]; try exact H.
      cbn [List.length] in Short. lia. }
    clear H.
    pose proof (pair_test_false _ _ _ _ _ _ t Short H') as T.
    assert (G : Json.scanstring doc' start' ((h5 :: r5') ++ t) (c1 :: acc)
                = Ok (x, r ++ t)).
    { apply (IH _ start); [cbn [List.length]; lia|exact H']. }
    cbn [app] in T, G.
    destruct (r5' ++ t) as [|v [|l1 [|l2 [|l3 [|l4 [|z r11']]]]]]; try exact G.
    rewrite <- andb_assoc, T, andb_false_r. exact G.
  - apply Nat.ltb_ge in Short.
    destruct r5' as [|v [|l1 [|l2 [|l3 [|l4 [|z r11']]]]]];
      try (cbn [List.length] in Short; lia).
    cbn [app List.length] in *.
    destruct (Json.is_high_surrogate c1 && (h5 =? 92) && (v =? 117)).
    + destruct (Json.hex4 l1 l2 l3 l4) as [c2|]; [|discriminate H].
      destruct (Json.is_low_surrogate c2).
      * apply (IH (z :: r11') start); [cbn [List.length]; lia|exact H].
      * apply (IH (h5 :: v :: l1 :: l2 :: l3 :: l4 :: z :: r11') start);
          [cbn [List.length]; lia|exact H].
    + apply (IH (h5 :: v :: l1 :: l2 :: l3 :: l4 :: z :: r11') start);
        [cbn [List.length]; lia|exact H].
Qed.

(** ** Arrays and objects *)

Lemma skip_whitespace_app r : forall c r' t,
  Json.skip_whitespace r = c :: r' ->
  Json.skip_whitespace (r ++ t) = c :: r' ++ t.
Proof.
  induction r as [|a r IH]; intros c r' t H; cbn [Json.skip_whitespace app] in *.
  - discriminate H.
  - destruct (Json.is_whitespace a); [now apply IH|].
    injection H as <- <-. reflexivity.
Qed.

Lemma skip_whitespace_first r : forall c r',
  Json.skip_whitespace r = c :: r' -> Json.is_whitespace c = false.
Proof.
  induction r as [|a r IH]; intros c r' H; cbn [Json.skip_whitespace] in H.
  - discriminate H.
  - destruct (Json.is_whitespace a) eqn:W; [now apply IH in H|].
    now injection H as <- <-.
Qed.

(** Whitespace only: nothing is left when it is skipped. *)
Lemma skip_whitespace_nil_app r t :
  Json.skip_whitespace r = [] ->
  Json.skip_whitespace (r ++ t) = Json.skip_whitespace t.
Proof.
  induction r as [|a r IH]; intros H; cbn [Json.skip_whitespace app] in *.
  - reflexivity.
  - destruct (Json.is_whitespace a); [now apply IH|discriminate H].
Qed.

Lemma whitespace_ends_number c :
  Json.is_whitespace c = true -> continues_number c = false.
Proof.
  unfold Json.is_whitespace, continues_number, Json.is_digit. intros H.
  repeat (apply orb_true_iff in H as [H|H]); apply N.eqb_eq in H; subst;
    reflexivity.
Qed.

(** After a value inside an array or an object comes whitespace or a
    delimiter, which ends a number. *)
Lemma delimiter_follows r c r' t :
  Json.skip_whitespace r = c :: r' ->
  continues_number c = false ->
  not_first continues_number (r ++ t).
Proof.
  intros H Hc. destruct r as [|a r]; [discriminate H|].
  cbn [app not_first]. cbn [Json.skip_whitespace] in H.
  destruct (Json.is_whitespace a) eqn:W.
  - now apply whitespace_ends_number.
  - now injection H as -> _.
Qed.

Lemma starts_with_app p : forall s r t,
  Json.starts_with p s = Some r -> Json.starts_with p (s ++ t) = Some (r ++ t).
Proof.
  induction p as [|a p IH]; intros s r t H; cbn [Json.starts_with] in *.
  - now injection H as <-.
  - destruct s as [|c s]; [discriminate H|]. cbn [app].
    destruct (a =? c); [now apply IH|discriminate H].
Qed.

Lemma scan_once_eq doc depth s :
  Json.scan_once doc depth s =
  match s with
  | [] => Json.fail_at doc "Expecting value" s
  | c :: r =>
    if c =? 34 then
      '(v, r') <- Json.scanstring doc (Json.index_of doc s) r [] ;; Ok (Json.JStr v, r')
    else if c =? 123 then
      match depth with
      | O => Raise (Json.recursion_error "object")
      | S d =>
        match Json.skip_whitespace r with
        | c' :: r' =>
          if c' =? 125 then Ok (Json.JDict [], r')
          else Json.parse_object doc (Json.scan_once doc d)
                 (S (List.length r)) (c' :: r') []
        | [] => Json.parse_object doc (Json.scan_once doc d) (S (List.length r)) [] []
        end
      end
    else if c =? 91 then
      match depth with
      | O => Raise (Json.recursion_error "array")
      | S d =>
        match Json.skip_whitespace r with
        | c' :: r' =>
          if c' =? 93 then Ok (Json.JList [], r')
          else Json.parse_array doc (Json.scan_once doc d)
                 (S (List.length r)) (c' :: r') []
        | [] => Json.parse_array doc (Json.scan_once doc d) (S (List.length r)) [] []
        end
      end
    else
      match Json.starts_with (u "null") s, Json.starts_with (u "true") s,
            Json.starts_with (u "false") s, Json.starts_with (u "NaN") s,
            Json.starts_with (u "Infinity") s, Json.starts_with (u "-Infinity") s with
      | Some r', _, _, _, _, _ => Ok (Json.JNone, r')
      | _, Some r', _, _, _, _ => Ok (Json.JBool true, r')
      | _, _, Some r', _, _, _ => Ok (Json.JBool false, r')
      | _, _, _, Some r', _, _ => Ok (Json.JFloat (u "NaN"), r')
      | _, _, _, _, Some r', _ => Ok (Json.JFloat (u "Infinity"), r')
      | _, _, _, _, _, Some r' => Ok (Json.JFloat (u "-Infinity"), r')
      | _, _, _, _, _, _ => Json.match_number doc s
      end
  end.
Proof. destruct depth; reflexivity. Qed.

Section Stable.

Variables doc doc' : str.
Variables scan scan' : str -> pyresult (Json.value * str).
Hypothesis scan_app : forall s v r t,
  scan s = Ok (v, r) -> number_ends v (r ++ t) ->
  scan' (s ++ t) = Ok (v, r ++ t).
Hypothesis scan_nil : forall v r, scan [] <> Ok (v, r).

Lemma delimiter_ends v r c r' t :
  Json.skip_whitespace r = c :: r' ->
  continues_number c = false ->
  number_ends v (r ++ t).
Proof.
  intros H Hc. destruct v; try exact I; eapply delimiter_follows; eauto.
Qed.

Lemma parse_array_app fuel : forall fuel' s acc v r t,
  (fuel <= fuel')%nat ->
  Json.parse_array doc scan fuel s acc = Ok (v, r) ->
  Json.parse_array doc' scan' fuel' (s ++ t) acc = Ok (v, r ++ t).
Proof.
  induction fuel as [|fuel IH]; intros fuel' s acc v r t Hf H.
  { discriminate H. }
  destruct fuel' as [|fuel']; [lia|].
  cbn [Json.parse_array] in H |- *.
  destruct (scan s) as [[w r1]|e] eqn:E; [|discriminate H]. cbn [bind] in H.
  destruct (Json.skip_whitespace r1) as [|c r2] eqn:W; [discriminate H|].
  destruct (c =? 93) eqn:C1; [|destruct (c =? 44) eqn:C2; [|discriminate H]].
  - apply N.eqb_eq in C1. subst c.
    rewrite (scan_app s w r1 t E)
      by (eapply delimiter_ends; [exact W|reflexivity]).
    cbn [bind]. rewrite (skip_whitespace_app _ _ _ t W).
    injection H as <- <-. reflexivity.
  - apply N.eqb_eq in C2. subst c.
    rewrite (scan_app s w r1 t E)
      by (eapply delimiter_ends; [exact W|reflexivity]).
    cbn [bind]. rewrite (skip_whitespace_app _ _ _ t W).
    change (44 =? 93) with false. change (44 =? 44) with true. cbv iota.
    destruct (Json.skip_whitespace r2) as [|c3 r3] eqn:W2.
    + (* nothing after the comma: the next value is missing *)
      exfalso. destruct fuel as [|fuel]; [discriminate H|].
      cbn [Json.parse_array] in H.
      destruct (scan []) as [[w' r']|e'] eqn:E'; [|discriminate H].
      exact (scan_nil _ _ eq_refl).
    + rewrite (skip_whitespace_app _ _ _ t W2).
      change (c3 :: r3 ++ t) with ((c3 :: r3) ++ t).
      apply IH; [lia|exact H].
Qed.

Lemma parse_object_app fuel : forall fuel' s acc v r t,
  (fuel <= fuel')%nat ->
  Json.parse_object doc scan fuel s acc = Ok (v, r) ->
  Json.parse_object doc' scan' fuel' (s ++ t) acc = Ok (v, r ++ t).
Proof.
  induction fuel as [|fuel IH]; intros fuel' s acc v r t Hf H.
  { discriminate H. }
  destruct fuel' as [|fuel']; [lia|].
  cbn [Json.parse_object] in H |- *.
  destruct s as [|q r0]; [discriminate H|]. cbn [app].
  destruct (q =? 34); [|discriminate H].
  destruct (Json.scanstring doc (Json.index_of doc (q :: r0)) r0 [])
    as [[key r1]|e] eqn:K; [|discriminate H].
  rewrite (scanstring_app doc doc' (List.length r0) r0 _
             (Json.index_of doc' (q :: r0 ++ t)) [] key r1 t (le_n _) K).
  cbn [bind] in H |- *.
  destruct (Json.skip_whitespace r1) as [|colon r2] eqn:W1; [discriminate H|].
  rewrite (skip_whitespace_app _ _ _ t W1).
  destruct (colon =? 58); [|discriminate H].
  destruct (Json.skip_whitespace r2) as [|c2 r2'] eqn:W2.
  { exfalso. destruct (scan []) as [[w' r']|e'] eqn:E'; [|discriminate H].
    exact (scan_nil _ _ eq_refl). }
  rewrite (skip_whitespace_app _ _ _ t W2).
  destruct (scan (c2 :: r2')) as [[w r3]|e] eqn:E; [|discriminate H].
  cbn [bind] in H.
  destruct (Json.skip_whitespace r3) as [|c r4] eqn:W3; [discriminate H|].
  destruct (c =? 125) eqn:C1; [|destruct (c =? 44) eqn:C2; [|discriminate H]].
  - apply N.eqb_eq in C1. subst c.
    change (c2 :: r2' ++ t) with ((c2 :: r2') ++ t).
    rewrite (scan_app _ w r3 t E)
      by (eapply delimiter_ends; [exact W3|reflexivity]).
    cbn [bind]. rewrite (skip_whitespace_app _ _ _ t W3).
    injection H as <- <-. reflexivity.
  - apply N.eqb_eq in C2. subst c.
    change (c2 :: r2' ++ t) with ((c2 :: r2') ++ t).
    rewrite (scan_app _ w r3 t E)
      by (eapply delimiter_ends; [exact W3|reflexivity]).
    cbn [bind]. rewrite (skip_whitespace_app _ _ _ t W3).
    change (44 =? 125) with false. change (44 =? 44) with true. cbv iota.
    destruct (Json.skip_whitespace r4) as [|c5 r5] eqn:W4.
    + exfalso. destruct fuel as [|fuel]; discriminate H.
    + rewrite (skip_whitespace_app _ _ _ t W4).
      change (c5 :: r5 ++ t) with ((c5 :: r5) ++ t).
      apply IH; [lia|exact H].
Qed.

End Stable.

(** ** Values *)

Lemma scan_once_nil doc depth v r : Json.scan_once doc depth [] <> Ok (v, r).
Proof. rewrite scan_once_eq. discriminate. Qed.

(** What [match_number] returns is a number, and it starts with a digit or
    with a minus sign and a digit. *)
Lemma match_number_shape doc s v r :
  Json.match_number doc s = Ok (v, r) ->
  (forall l, number_ends v l -> not_first continues_number l) /\
  match s with
  | c :: s' =>
    Json.is_digit c = true \/
    (c = 45 /\ match s' with c2 :: _ => Json.is_digit c2 = true | [] => False end)
  | [] => False
  end.
Proof.
  intros H. unfold Json.match_number in H.
  destruct s as [|c s']; [discriminate H|].
  assert (T : forall sign s0 s1,
    (let '(int_part, s2) :=
       match s1 with
       | c :: r =>
         if c =? 48 then ([c], r)
         else if Json.is_digit c
              then let '(ds, r') := Json.span_digits r in (c :: ds, r')
              else ([], s1)
       | [] => ([], s1)
       end in
     match int_part with
     | [] => Json.fail_at doc "Expecting value" s0
     | _ =>
       let '(frac, s3) := Json.scan_fraction s2 in
       let '(expo, s4) := Json.scan_exponent s3 in
       match frac, expo with
       | [], [] =>
         if (Json.int_max_str_digits <? List.length int_part)%nat
         then Raise (Json.int_too_long (List.length int_part))
         else Ok (Json.JInt (match sign with
                             | [] => Json.decimal_value int_part
                             | _ => - Json.decimal_value int_part
                             end%Z), s4)
       | _, _ => Ok (Json.JFloat (sign ++ int_part ++ frac ++ expo), s4)
       end
     end) = Ok (v, r) ->
    (forall l, number_ends v l -> not_first continues_number l) /\
    match s1 with c2 :: _ => Json.is_digit c2 = true | [] => False end).
  { clear. intros sign s0 s1 H.
    destruct s1 as [|c s1]; [discriminate H|].
    assert (D : Json.is_digit c = true).
    { destruct (c =? 48) eqn:Z0; [apply N.eqb_eq in Z0; now subst|].
      destruct (Json.is_digit c); [reflexivity|discriminate H]. }
    split; [|exact D].
    destruct (if c =? 48 then ([c], s1)
              else if Json.is_digit c
                   then let '(ds, r') := Json.span_digits s1 in (c :: ds, r')
                   else ([], c :: s1)) as [[|d ip] s2]; [discriminate H|].
    destruct (Json.scan_fraction s2) as [frac s3].
    destruct (Json.scan_exponent s3) as [expo s4].
    destruct frac, expo; try (injection H as <- _; exact (fun _ x => x)).
    destruct (_ <? _)%nat; [discriminate H|].
    injection H as <- _; exact (fun _ x => x). }
  destruct (c =? 45) eqn:M.
  - apply N.eqb_eq in M. subst c.
    apply (T [45] (45 :: s') s') in H as [H1 H2]. split; [exact H1|].
    right. split; [reflexivity|exact H2].
  - apply (T [] (c :: s') (c :: s')) in H as [H1 H2]. split; [exact H1|]. now left.
Qed.

(** The literals and the numbers. *)
Lemma scan_literal_app doc doc' s v r t :
  match Json.starts_with (u "null") s, Json.starts_with (u "true") s,
        Json.starts_with (u "false") s, Json.starts_with (u "NaN") s,
        Json.starts_with (u "Infinity") s, Json.starts_with (u "-Infinity") s with
  | Some r', _, _, _, _, _ => Ok (Json.JNone, r')
  | _, Some r', _, _, _, _ => Ok (Json.JBool true, r')
  | _, _, Some r', _, _, _ => Ok (Json.JBool false, r')
  | _, _, _, Some r', _, _ => Ok (Json.JFloat (u "NaN"), r')
  | _, _, _, _, Some r', _ => Ok (Json.JFloat (u "Infinity"), r')
  | _, _, _, _, _, Some r' => Ok (Json.JFloat (u "-Infinity"), r')
  | _, _, _, _, _, _ => Json.match_number doc s
  end = Ok (v, r) ->
  number_ends v (r ++ t) ->
  match Json.starts_with (u "null") (s ++ t), Json.starts_with (u "true") (s ++ t),
        Json.starts_with (u "false") (s ++ t), Json.starts_with (u "NaN") (s ++ t),
        Json.starts_with (u "Infinity") (s ++ t),
        Json.starts_with (u "-Infinity") (s ++ t) with
  | Some r', _, _, _, _, _ => Ok (Json.JNone, r')
  | _, Some r', _, _, _, _ => Ok (Json.JBool true, r')
  | _, _, Some r', _, _, _ => Ok (Json.JBool false, r')
  | _, _, _, Some r', _, _ => Ok (Json.JFloat (u "NaN"), r')
  | _, _, _, _, Some r', _ => Ok (Json.JFloat (u "Infinity"), r')
  | _, _, _, _, _, Some r' => Ok (Json.JFloat (u "-Infinity"), r')
  | _, _, _, _, _, _ => Json.match_number doc' (s ++ t)
  end = Ok (v, r ++ t).
Proof.
  intros H Ht.
  destruct s as [|c s]; [discriminate H|].
  change (u "null") with (110 :: u "ull") in *.
  change (u "true") with (116 :: u "rue") in *.
  change (u "false") with (102 :: u "alse") in *.
  change (u "NaN") with (78 :: u "aN") in *.
  change (u "Infinity") with (73 :: u "nfinity") in *.
  change (u "-Infinity") with (45 :: 73 :: u "nfinity") in *.
  cbn [app]. cbn [Json.starts_with] in H |- *.
  (* a literal is told by its first letter, which starts no number *)
  assert (L : forall k rest,
    (Json.is_digit k || (k =? 45)) = false ->
    match Json.starts_with rest s with
    | Some r' => None
    | None => Some (Json.match_number doc (k :: s))
    end <> Some (Ok (v, r))).
  { intros k rest Hk. destruct (Json.starts_with rest s); [discriminate|].
    intros [= E]. apply match_number_shape in E as [_ [E|[E _]]].
    - rewrite E in Hk. discriminate Hk.
    - subst k. discriminate Hk. }
  destruct (N.eqb_spec 110 c) as [<-|N1].
  { change (116 =? 110) with false in *. change (102 =? 110) with false in *.
    change (78 =? 110) with false in *. change (73 =? 110) with false in *.
    change (45 =? 110) with false in *. cbv iota in H |- *.
    specialize (L 110 (u "ull") eq_refl).
    destruct (Json.starts_with (u "ull") s) as [r'|] eqn:E; [|congruence].
    rewrite (starts_with_app _ _ _ t E). injection H as <- <-. reflexivity. }
  destruct (N.eqb_spec 116 c) as [<-|N2].
  { change (102 =? 116) with false in *.
    change (78 =? 116) with false in *. change (73 =? 116) with false in *.
    change (45 =? 116) with false in *. cbv iota in H |- *.
    specialize (L 116 (u "rue") eq_refl).
    destruct (Json.starts_with (u "rue") s) as [r'|] eqn:E; [|congruence].
    rewrite (starts_with_app _ _ _ t E). injection H as <- <-. reflexivity. }
  destruct (N.eqb_spec 102 c) as [<-|N3].
  { change (78 =? 102) with false in *. change (73 =? 102) with false in *.
    change (45 =? 102) with false in *. cbv iota in H |- *.
    specialize (L 102 (u "alse") eq_refl).
    destruct (Json.starts_with (u "alse") s) as [r'|] eqn:E; [|congruence].
    rewrite (starts_with_app _ _ _ t E). injection H as <- <-. reflexivity. }
  destruct (N.eqb_spec 78 c) as [<-|N4].
  { change (73 =? 78) with false in *.
    change (45 =? 78) with false in *. cbv iota in H |- *.
    specialize (L 78 (u "aN") eq_refl).
    destruct (Json.starts_with (u "aN") s) as [r'|] eqn:E; [|congruence].
    rewrite (starts_with_app _ _ _ t E). injection H as <- <-. reflexivity. }
  destruct (N.eqb_spec 73 c) as [<-|N5].
  { change (45 =? 73) with false in *. cbv iota in H |- *.
    specialize (L 73 (u "nfinity") eq_refl).
    destruct (Json.starts_with (u "nfinity") s) as [r'|] eqn:E; [|congruence].
    rewrite (starts_with_app _ _ _ t E). injection H as <- <-. reflexivity. }
  clear L.
  destruct (N.eqb_spec 45 c) as [<-|N6].
  { destruct s as [|c2 s].
    { discriminate H. }
    cbn [app].
    destruct (N.eqb_spec 73 c2) as [<-|N7].
    - destruct (Json.starts_with (u "nfinity") s) as [r'|] eqn:E.
      + rewrite (starts_with_app _ _ _ t E). injection H as <- <-. reflexivity.
      + apply match_number_shape in H as [_ [H|[_ H]]]; discriminate H.
    - pose proof (match_number_shape _ _ _ _ H) as [Hv _].
      exact (match_number_app doc doc' (45 :: c2 :: s) v r t H (Hv _ Ht)). }
  pose proof (match_number_shape _ _ _ _ H) as [Hv _].
  exact (match_number_app doc doc' (c :: s) v r t H (Hv _ Ht)).
Qed.

(** A value is read in the same way when text is added after it. *)
Lemma scan_once_app doc doc' depth : forall s v r t,
  Json.scan_once doc depth s = Ok (v, r) ->
  number_ends v (r ++ t) ->
  Json.scan_once doc' depth (s ++ t) = Ok (v, r ++ t).
Proof.
  induction depth as [|d IH]; intros s v r t H Ht;
    rewrite scan_once_eq in H |- *;
    (destruct s as [|c s]; [discriminate H|]); cbn [app];
    (destruct (c =? 34);
     [ destruct (Json.scanstring doc (Json.index_of doc (c :: s)) s [])
         as [[x r']|e] eqn:K; [|discriminate H];
       rewrite (scanstring_app doc doc' (List.length s) s _
                  (Json.index_of doc' (c :: s ++ t)) [] x r' t (le_n _) K);
       cbn [bind] in H |- *; injection H as <- <-; reflexivity
     | ]);
    (destruct (c =? 123); [|destruct (c =? 91)]);
    try discriminate H;
    try (change (c :: s ++ t) with ((c :: s) ++ t);
         now apply scan_literal_app with (doc := doc)).
  - (* an object *)
    destruct (Json.skip_whitespace s) as [|c' r'] eqn:W; [discriminate H|].
    rewrite (skip_whitespace_app _ _ _ t W).
    destruct (c' =? 125); [injection H as <- <-; reflexivity|].
    change (c' :: r' ++ t) with ((c' :: r') ++ t).
    apply (parse_object_app doc doc' (Json.scan_once doc d) (Json.scan_once doc' d))
      with (fuel := S (List.length s)); auto using scan_once_nil.
    rewrite length_app. lia.
  - (* an array *)
    destruct (Json.skip_whitespace s) as [|c' r'] eqn:W.
    { exfalso. cbn [Json.parse_array] in H.
      destruct (Json.scan_once doc d []) as [[w x]|e] eqn:E; [|discriminate H].
      now apply scan_once_nil in E. }
    rewrite (skip_whitespace_app _ _ _ t W).
    destruct (c' =? 93); [injection H as <- <-; reflexivity|].
    change (c' :: r' ++ t) with ((c' :: r') ++ t).
    apply (parse_array_app doc doc' (Json.scan_once doc d) (Json.scan_once doc' d))
      with (fuel := S (List.length s)); auto using scan_once_nil.
    rewrite length_app. lia.
Qed.

(** ** Bytes *)

(** Decoding goes through the bytes from left to right: the decoding of a
    text that decodes well is a prefix of the decoding of every extension. *)
Lemma decode_from_app n : forall a pos x b,
  (List.length a <= n)%nat ->
  Utf8.decode_from pos a = Ok x ->
  Utf8.decode_from pos (a ++ b) =
    (y <- Utf8.decode_from (List.length a + pos) b ;; Ok (x ++ y)).
Proof.
  induction n as [|n IH]; intros a pos x b Hlen H.
  { destruct a; [|cbn in Hlen; lia]. injection H as <-. cbn [app List.length].
    change (0 + pos)%nat with pos. destruct (Utf8.decode_from pos b); reflexivity. }
  destruct a as [|b1 r1].
  { injection H as <-. cbn [app List.length].
    change (0 + pos)%nat with pos. destruct (Utf8.decode_from pos b); reflexivity. }
  cbn [Utf8.decode_from app] in H |- *. cbn [List.length] in Hlen |- *.
  repeat match type of H with
  | (if ?c then _ else _) = _ => destruct c
  | match ?l with [] => _ | _ :: _ => _ end = _ =>
      destruct l; cbn [List.length app] in Hlen |- *
  | bind ?m _ = Ok _ =>
      let E := fresh "E" in
      destruct m eqn:E; cbn [bind] in H; [|discriminate H];
      apply IH with (b := b) in E; [|lia]; rewrite E; clear E
  | Raise _ = Ok _ => discriminate H
  | Ok _ = Ok _ => injection H as <-
  end;
  repeat match goal with
  | |- context [Utf8.decode_from (?l + (?k + pos))%nat b] =>
      replace (l + (k + pos))%nat with (k + l + pos)%nat by lia
  end;
  cbn [Nat.add];
  destruct (Utf8.decode_from _ b); reflexivity.
Qed.

(** The position only shows in the message of an error. *)
Lemma decode_from_pos n : forall a pos pos' x,
  (List.length a <= n)%nat ->
  Utf8.decode_from pos a = Ok x -> Utf8.decode_from pos' a = Ok x.
Proof.
  induction n as [|n IH]; intros a pos pos' x Hlen H.
  { destruct a; [exact H|cbn in Hlen; lia]. }
  destruct a as [|b1 r1]; [exact H|].
  cbn [Utf8.decode_from] in H |- *. cbn [List.length] in Hlen.
  repeat match type of H with
  | (if ?c then _ else _) = _ => destruct c
  | match ?l with [] => _ | _ :: _ => _ end = _ =>
      destruct l; cbn [List.length] in Hlen
  | bind ?m _ = Ok _ =>
      let E := fresh "E" in
      destruct m eqn:E; cbn [bind] in H; [|discriminate H];
      match goal with
      | |- bind (Utf8.decode_from ?q _) _ = _ =>
        apply IH with (pos' := q) in E; [|lia]; rewrite E; clear E
      end
  | Raise _ = Ok _ => discriminate H
  end; exact H.
Qed.

Lemma whitespace_ascii c : Json.is_whitespace c = true -> c < 0x80.
Proof.
  unfold Json.is_whitespace. intros H.
  repeat (apply orb_true_iff in H as [H|H]); apply N.eqb_eq in H; subst; lia.
Qed.

(** Whitespace bytes decode to whitespace. *)
Lemma decode_whitespace w : forall pos,
  forallb whitespace_byte w = true ->
  exists s, Utf8.decode_from pos w = Ok s /\ Json.skip_whitespace s = [].
Proof.
  induction w as [|b w IH]; intros pos H.
  - exists []. split; reflexivity.
  - cbn [forallb] in H. apply andb_true_iff in H as [Hb Hw].
    destruct (IH (1 + pos)%nat Hw) as (s & Hs & Hn).
    exists (Byte.to_N b :: s). cbn [Utf8.decode_from].
    pose proof (whitespace_ascii _ Hb) as Hlt. apply N.ltb_lt in Hlt.
    rewrite Hlt, Hs. cbn [bind Json.skip_whitespace].
    unfold whitespace_byte in Hb. rewrite Hb. auto.
Qed.

(** A text that decodes to whitespace is made of whitespace bytes: a
    sequence of several bytes encodes a character from U+0080 on. *)
Lemma whitespace_decoded n : forall t pos s,
  (List.length t <= n)%nat ->
  Utf8.decode_from pos t = Ok s -> Json.skip_whitespace s = [] ->
  forallb whitespace_byte t = true.
Proof.
  assert (W : forall c s, 0x80 <= c -> Json.skip_whitespace (c :: s) = [] -> False).
  { intros c s Hc H. cbn [Json.skip_whitespace] in H.
    destruct (Json.is_whitespace c) eqn:E; [|discriminate H].
    apply whitespace_ascii in E. lia. }
  induction n as [|n IH]; intros t pos s Hlen H Hs.
  { destruct t; [reflexivity|cbn in Hlen; lia]. }
  destruct t as [|b1 r1]; [reflexivity|].
  cbn [Utf8.decode_from] in H. cbn [List.length] in Hlen.
  destruct (Byte.to_N b1 <? 0x80) eqn:A.
  - destruct (Utf8.decode_from (1 + pos) r1) as [s'|] eqn:E; [|discriminate H].
    injection H as <-. cbn [Json.skip_whitespace] in Hs.
    destruct (Json.is_whitespace (Byte.to_N b1)) eqn:Wb; [|discriminate Hs].
    cbn [forallb]. unfold whitespace_byte at 1. rewrite Wb.
    cbn [andb]. eapply IH; [|exact E|exact Hs]. lia.
  - exfalso. apply N.ltb_ge in A.
    pose proof (N.mod_upper_bound (Byte.to_N b1) 32 ltac:(lia)).
    pose proof (N.div_mod' (Byte.to_N b1) 32).
    pose proof (N.mod_upper_bound (Byte.to_N b1) 16 ltac:(lia)).
    pose proof (N.div_mod' (Byte.to_N b1) 16).
    pose proof (N.mod_upper_bound (Byte.to_N b1) 8 ltac:(lia)).
    pose proof (N.div_mod' (Byte.to_N b1) 8).
    repeat match type of H with
    | (if ?c then _ else _) = _ =>
        let C := fresh "C" in destruct c eqn:C
    | match ?l with [] => _ | _ :: _ => _ end = _ => destruct l
    | bind ?m _ = Ok _ =>
        let E := fresh "E" in
        destruct m eqn:E; cbn [bind] in H; [|discriminate H]
    | Raise _ = Ok _ => discriminate H
    end; injection H as <-; eapply W; try exact Hs;
    unfold Utf8.second_of_3, Utf8.second_of_4, Utf8.is_continuation, Utf8.low6 in *;
    repeat match goal with
    | C : (_ <? _) = true |- _ => apply N.ltb_lt in C
    | C : (_ <? _) = false |- _ => apply N.ltb_ge in C
    | C : _ && _ = true |- _ => apply andb_true_iff in C as [? C]
    | C : (_ <=? _) = true |- _ => apply N.leb_le in C
    | C : negb _ = true |- _ => apply negb_true_iff in C
    | C : (if ?c then _ else _) = false |- _ =>
        let D := fresh "D" in destruct c eqn:D
    | C : (_ =? _) = false |- _ => apply N.eqb_neq in C
    end;
    repeat match goal with
    | |- context [?x mod 64] =>
        pose proof (N.mod_upper_bound x 64 ltac:(lia));
        pose proof (N.div_mod' x 64);
        generalize dependent (x mod 64); generalize dependent (x / 64); intros
    end.
    all: clear Hs W IH E Hlen.
    all: generalize dependent (Byte.to_N b1 mod 32);
         generalize dependent (Byte.to_N b1 / 32);
         generalize dependent (Byte.to_N b1 mod 16);
         generalize dependent (Byte.to_N b1 / 16);
         generalize dependent (Byte.to_N b1 mod 8);
         generalize dependent (Byte.to_N b1 / 8); intros.
    all: try lia.

Qed.

(** ** Documents *)

Lemma whitespace_not_first l :
  Json.skip_whitespace l = [] -> not_first continues_number l.
Proof.
  destruct l as [|c l]; [exact (fun _ => I)|]. cbn [Json.skip_whitespace not_first].
  destruct (Json.is_whitespace c) eqn:W; [|discriminate].
  intros _. now apply whitespace_ends_number.
Qed.

Lemma whitespace_app r t :
  Json.skip_whitespace r = [] -> Json.skip_whitespace t = [] ->
  Json.skip_whitespace (r ++ t) = [].
Proof. intros Hr Ht. now rewrite skip_whitespace_nil_app. Qed.

Lemma whitespace_number_ends v l :
  Json.skip_whitespace l = [] -> number_ends v l.
Proof. intros H. destruct v; try exact I; now apply whitespace_not_first. Qed.

(** What [json.loads] does, for a document that is not empty and does not
    start with a byte order mark. *)
Lemma loads_ok s v :
  Json.loads s = Ok v <->
  exists c s' r,
    s = c :: s' /\ (c =? 0xFEFF) = false /\
    Json.scan_once s Json.recursion_limit (Json.skip_whitespace s) = Ok (v, r) /\
    Json.skip_whitespace r = [].
Proof.
  unfold Json.loads. split.
  - destruct s as [|c s']; [discriminate|].
    destruct (c =? 0xFEFF) eqn:B; [discriminate|].
    destruct (Json.scan_once _ _ _) as [[w r]|e]; [|discriminate].
    cbn [bind]. destruct (Json.skip_whitespace r) eqn:W; [|discriminate].
    intros [= ->]. exists c, s', r. auto.
  - intros (c & s' & r & -> & B & H & W). rewrite B, H. cbn [bind]. now rewrite W.
Qed.

Lemma scan_once_some doc depth s v r :
  Json.scan_once doc depth s = Ok (v, r) -> exists c s', s = c :: s'.
Proof.
  destruct s as [|c s']; [|eauto]. intros H. now apply scan_once_nil in H.
Qed.

(** Whitespace after a document is ignored. *)
Lemma loads_trailing s v t :
  Json.loads s = Ok v -> Json.skip_whitespace t = [] ->
  Json.loads (s ++ t) = Ok v.
Proof.
  intros H Ht. apply loads_ok in H as (c & s' & r & -> & B & H & W).
  apply loads_ok. exists c, (s' ++ t), (r ++ t).
  split; [reflexivity|]. split; [exact B|].
  destruct (scan_once_some _ _ _ _ _ H) as (c1 & s1 & E).
  split; [|now apply whitespace_app].
  change (c :: s' ++ t) with ((c :: s') ++ t).
  rewrite (skip_whitespace_app _ _ _ t E). rewrite E in H.
  change (c1 :: s1 ++ t) with ((c1 :: s1) ++ t).
  apply scan_once_app with (doc := c :: s'); [exact H|].
  apply whitespace_number_ends. now apply whitespace_app.
Qed.

(** Whitespace before a document is ignored. *)
Lemma loads_leading w s v :
  Json.loads s = Ok v -> Json.skip_whitespace w = [] ->
  Json.loads (w ++ s) = Ok v.
Proof.
  intros H Hw. destruct w as [|a w]; [exact H|].
  apply loads_ok in H as (c & s' & r & -> & B & H & W).
  apply loads_ok. exists a, (w ++ c :: s'), r.
  split; [reflexivity|]. split.
  { cbn [Json.skip_whitespace] in Hw.
    destruct (Json.is_whitespace a) eqn:Wa; [|discriminate Hw].
    apply whitespace_ascii in Wa. apply N.eqb_neq. lia. }
  split; [|exact W].
  change (a :: w ++ c :: s') with ((a :: w) ++ c :: s').
  rewrite (skip_whitespace_nil_app _ (c :: s') Hw).
  assert (E : number_ends v (r ++ [])).
  { rewrite app_nil_r. now apply whitespace_number_ends. }
  pose proof (scan_once_app (c :: s') ((a :: w) ++ c :: s') _ _ _ _ [] H E) as G.
  now rewrite !app_nil_r in G.
Qed.

(** Text after an object is an error of the decoder. *)
Lemma loads_extra_data s d t :
  Json.loads s = Ok (Json.JDict d) -> Json.skip_whitespace t <> [] ->
  exists e, Json.loads (s ++ t) = Raise e /\ is_JSONDecodeError e = true.
Proof.
  intros H Ht. apply loads_ok in H as (c & s' & r & -> & B & H & W).
  destruct (scan_once_some _ _ _ _ _ H) as (c1 & s1 & E).
  unfold Json.loads. cbn [app]. rewrite B.
  change (c :: s' ++ t) with ((c :: s') ++ t).
  rewrite (skip_whitespace_app _ _ _ t E). rewrite E in H.
  change (c1 :: s1 ++ t) with ((c1 :: s1) ++ t).
  rewrite (scan_once_app (c :: s') ((c :: s') ++ t) _ _ _ _ t H I).
  cbn [bind]. rewrite (skip_whitespace_nil_app _ _ W).
  destruct (Json.skip_whitespace t) as [|x y]; [congruence|].
  eexists. split; reflexivity.
Qed.

(** The members of an object make a [dict], the items of an array a [list]. *)
Lemma parse_object_dict doc scan fuel : forall s acc v r,
  Json.parse_object doc scan fuel s acc = Ok (v, r) -> exists d, v = Json.JDict d.
Proof.
  induction fuel as [|fuel IH]; intros s acc v r H; [discriminate H|].
  cbn [Json.parse_object] in H.
  destruct s as [|q r0]; [discriminate H|].
  destruct (q =? 34); [|discriminate H].
  destruct (Json.scanstring _ _ _ _) as [[key r1]|e]; [|discriminate H].
  cbn [bind] in H.
  destruct (Json.skip_whitespace r1) as [|colon r2]; [discriminate H|].
  destruct (colon =? 58); [|discriminate H].
  destruct (scan _) as [[w r3]|e]; [|discriminate H]. cbn [bind] in H.
  destruct (Json.skip_whitespace r3) as [|c r4]; [discriminate H|].
  destruct (c =? 125); [injection H as <- _; eauto|].
  destruct (c =? 44); [|discriminate H]. eapply IH; eauto.
Qed.

Lemma parse_array_list doc scan fuel : forall s acc v r,
  Json.parse_array doc scan fuel s acc = Ok (v, r) -> exists l, v = Json.JList l.
Proof.
  induction fuel as [|fuel IH]; intros s acc v r H; [discriminate H|].
  cbn [Json.parse_array] in H.
  destruct (scan _) as [[w r3]|e]; [|discriminate H]. cbn [bind] in H.
  destruct (Json.skip_whitespace r3) as [|c r4]; [discriminate H|].
  destruct (c =? 93); [injection H as <- _; eauto|].
  destruct (c =? 44); [|discriminate H]. eapply IH; eauto.
Qed.

(** An object starts with a brace, and what starts with a brace is an
    object. *)
Lemma scan_once_object doc depth c s v r :
  Json.scan_once doc depth (c :: s) = Ok (v, r) ->
  (c = 123 <-> exists d, v = Json.JDict d).
Proof.
  rewrite scan_once_eq. intros H.
  destruct (N.eqb_spec c 34) as [->|N1].
  { destruct (Json.scanstring _ _ _ _) as [[x r']|e]; [|discriminate H].
    injection H as <- _. split; [discriminate|]. intros [d [=]]. }
  destruct (N.eqb_spec c 123) as [->|N2].
  { split; [intros _|reflexivity].
    destruct depth as [|d]; [discriminate H|].
    destruct (Json.skip_whitespace s) as [|c' r'].
    - eapply parse_object_dict; eauto.
    - destruct (c' =? 125); [injection H as <- _; eauto|].
      eapply parse_object_dict; eauto. }
  split; [congruence|]. intros [d ->]. exfalso.
  destruct (N.eqb_spec c 91) as [->|N3].
  { destruct depth as [|d']; [discriminate H|].
    destruct (Json.skip_whitespace s) as [|c' r'].
    - apply parse_array_list in H as [l [=]].
    - destruct (c' =? 93); [discriminate H|].
      apply parse_array_list in H as [l [=]]. }
  repeat match type of H with
  | match Json.starts_with ?a ?b with _ => _ end = _ =>
      destruct (Json.starts_with a b)
  end; try discriminate H.
  apply match_number_shape in H as [H _].
  specialize (H [48] I). discriminate H.
Qed.

(** A proper beginning of an object, cut before its closing brace, is not a
    document. *)
Lemma loads_truncated p t d v :
  Json.loads (p ++ t) = Ok (Json.JDict d) -> Json.skip_whitespace t <> [] ->
  Json.loads p <> Ok v.
Proof.
  intros H Ht Hp.
  apply loads_ok in Hp as (c & p' & r & -> & B & Hp & W).
  apply loads_ok in H as (c0 & q & r2 & E0 & B0 & H & W2).
  destruct (scan_once_some _ _ _ _ _ Hp) as (c1 & s1 & E).
  clear E0 B0.
  rewrite (skip_whitespace_app _ _ _ t E) in H. rewrite E in Hp.
  assert (c1 = 123) as ->.
  { apply (scan_once_object _ _ _ _ _ _ H). eauto. }
  destruct (proj1 (scan_once_object _ _ _ _ _ _ Hp) eq_refl) as [d' ->].
  change (123 :: s1 ++ t) with ((123 :: s1) ++ t) in H.
  pose proof (scan_once_app _ ((c :: p') ++ t) _ _ _ _ t Hp I) as G.
  pose proof (eq_trans (eq_sym G) H) as X. injection X as _ <-.
  rewrite (skip_whitespace_nil_app _ _ W) in W2. contradiction.
Qed.

(** ** Chunks *)

Lemma decode_chunk_ok chunk v :
  decode_chunk chunk = Ok v <->
  exists s, Utf8.decode chunk = Ok s /\ Json.loads s = Ok v.
Proof.
  unfold decode_chunk. split.
  - destruct (Utf8.decode chunk) as [s|e]; [|discriminate]. cbn [bind]. eauto.
  - intros (s & -> & H). exact H.
Qed.

(** The decoding of two byte strings put together. *)
Lemma decode_app a b x :
  Utf8.decode a = Ok x ->
  Utf8.decode (a ++ b) =
    (y <- Utf8.decode_from (List.length a) b ;; Ok (x ++ y)).
Proof.
  intros H. unfold Utf8.decode.
  rewrite (decode_from_app (List.length a) a 0 x b (le_n _) H).
  now rewrite Nat.add_0_r.
Qed.

Lemma decode_app_ok a b x y :
  Utf8.decode a = Ok x -> Utf8.decode b = Ok y ->
  Utf8.decode (a ++ b) = Ok (x ++ y).
Proof.
  intros Ha Hb. rewrite (decode_app a b x Ha).
  now rewrite (decode_from_pos (List.length b) b 0 (List.length a) y (le_n _) Hb).
Qed.

Lemma decode_whitespace_bytes w :
  forallb whitespace_byte w = true ->
  exists s, Utf8.decode w = Ok s /\ Json.skip_whitespace s = [].
Proof. apply decode_whitespace. Qed.

(** A chunk decodes to the same value with whitespace around it. *)
Lemma decode_chunk_whitespace w chunk w' v :
  decode_chunk chunk = Ok v ->
  forallb whitespace_byte w = true -> forallb whitespace_byte w' = true ->
  decode_chunk (w ++ chunk ++ w') = Ok v.
Proof.
  intros H Hw Hw'. apply decode_chunk_ok in H as (s & Hs & Hv).
  destruct (decode_whitespace_bytes w Hw) as (x & Hx & Wx).
  destruct (decode_whitespace_bytes w' Hw') as (y & Hy & Wy).
  apply decode_chunk_ok. exists (x ++ s ++ y). split.
  - apply decode_app_ok; [exact Hx|]. now apply decode_app_ok.
  - apply loads_leading; [|exact Wx]. now apply loads_trailing.
Qed.

(** A chunk that holds an object and text after it is not valid JSON. *)
Lemma decode_chunk_extra_data c1 c2 d s2 :
  decode_chunk c1 = Ok (Json.JDict d) ->
  Utf8.decode c2 = Ok s2 -> Json.skip_whitespace s2 <> [] ->
  json_undecodable (c1 ++ c2).
Proof.
  intros H H2 Hs. apply decode_chunk_ok in H as (s1 & H1 & Hv).
  destruct (loads_extra_data s1 d s2 Hv Hs) as (e & He & Hj).
  exists e. split; [|exact Hj]. unfold decode_chunk.
  now rewrite (decode_app_ok c1 c2 s1 s2 H1 H2).
Qed.

(** A chunk that ends before the closing brace of an object does not decode. *)
Lemma decode_chunk_truncated p t d v :
  decode_chunk (p ++ t) = Ok (Json.JDict d) ->
  forallb whitespace_byte t = false ->
  decode_chunk p <> Ok v.
Proof.
  intros H Ht Hp.
  apply decode_chunk_ok in H as (s & Hs & Hd).
  apply decode_chunk_ok in Hp as (sp & Hsp & Hv).
  rewrite (decode_app p t sp Hsp) in Hs.
  destruct (Utf8.decode_from (List.length p) t) as [st|e] eqn:E; [|discriminate Hs].
  injection Hs as <-.
  eapply loads_truncated; [exact Hd| |exact Hv].
  intros W. rewrite (whitespace_decoded _ _ _ _ (le_n _) E W) in Ht.
  discriminate Ht.
Qed.

(* ================================================================== *)
(** * Further properties of the chunk loop *)
(* ================================================================== *)

(** What a chunk adds to the text does not depend on the text. *)
Lemma process_chunk_from_empty acc chunk :
  process_chunk acc chunk = (t <- process_chunk [] chunk ;; Ok (acc ++ t)).
Proof.
  destruct (decode_chunk chunk) as [v|e] eqn:E.
  - rewrite !(process_chunk_decoded _ _ _ E).
    destruct (Json.get v (u "response") (Json.JStr [])) as [content|e];
      [|reflexivity].
    cbn [bind]. destruct (Console.print content) as [[]|e]; [|reflexivity].
    cbn [bind]. destruct content; reflexivity.
  - destruct (is_JSONDecodeError e) eqn:J.
    + rewrite !process_chunk_undecodable by (exists e; auto).
      cbn [bind]. now rewrite app_nil_r.
    + now rewrite !(process_chunk_raises _ _ _ E J).
Qed.

Lemma for_each_from_empty chunks : forall acc,
  for_each chunks acc process_chunk =
    (t <- for_each chunks [] process_chunk ;; Ok (acc ++ t)).
Proof.
  induction chunks as [|c cs IH]; intros acc; cbn [for_each bind].
  - now rewrite app_nil_r.
  - rewrite (process_chunk_from_empty acc c).
    destruct (process_chunk [] c) as [t|e]; [|reflexivity]. cbn [bind].
    pose proof (IH (acc ++ t)) as E1. pose proof (IH t) as E2.
    unfold str, char, bytes in *. rewrite E1, E2.
    clear. destruct (for_each cs (@nil N) process_chunk) as [t2|e]; [|reflexivity].
    cbn [bind]. now rewrite app_assoc.
Qed.

(** X1.  The text of a stream does not depend on where it is cut in two: what
    the loop makes of a list of chunks is added to the text it starts from,
    and the text of two lists of chunks, one after the other, is the
    concatenation of their texts; an error in the first part is the error of
    the whole, and so is an error in the second part after a first part
    without one. *)
Theorem stream_text_is_compositional (chunks1 chunks2 : list bytes) (acc : str) :
  for_each chunks1 acc process_chunk =
    (t <- for_each chunks1 [] process_chunk ;; Ok (acc ++ t)) /\
  for_each (chunks1 ++ chunks2) [] process_chunk =
    (t1 <- for_each chunks1 [] process_chunk ;;
     t2 <- for_each chunks2 [] process_chunk ;; Ok (t1 ++ t2)).
Proof.
  split; [apply for_each_from_empty|].
  rewrite for_each_app.
  destruct (for_each chunks1 [] process_chunk) as [t1|e]; [|reflexivity].
  cbn [bind]. apply for_each_from_empty.
Qed.

(** X2.  Whitespace around a chunk is ignored: a line of the stream that
    arrives with its line feed, or with a carriage return and a line feed,
    decodes to the same value and changes the text in the same way as the
    line alone. *)
Theorem whitespace_around_a_chunk_is_ignored (w chunk w' : bytes) (v : Json.value) :
  decode_chunk chunk = Ok v ->
  forallb whitespace_byte w = true ->
  forallb whitespace_byte w' = true ->
  decode_chunk (w ++ chunk ++ w') = Ok v /\
  forall acc, process_chunk acc (w ++ chunk ++ w') = process_chunk acc chunk.
Proof.
  intros H Hw Hw'.
  pose proof (decode_chunk_whitespace w chunk w' v H Hw Hw') as G.
  split; [exact G|]. intros acc.
  now rewrite (process_chunk_decoded _ _ _ G), (process_chunk_decoded _ _ _ H).
Qed.

Lemma whitespace_around_a_chunk_is_ignored_witness :
  process_chunk (u "Hello ") (jb "{'response':'World'}" ++ [x0d; x0a])
    = Ok (u "Hello World").
Proof.
  exact (eq_trans
           (proj2 (whitespace_around_a_chunk_is_ignored
                     [] (jb "{'response':'World'}") [x0d; x0a]
                     (Json.JDict [(u "response", Json.JStr (u "World"))])
                     eq_refl eq_refl eq_refl) (u "Hello "))
           eq_refl).
Defined.

(** X3.  A chunk that holds an object and then more text, the next line of the
    stream for one, is not valid JSON: the decoder reports extra data, the
    handler skips the chunk, and the text of neither line is added. *)
Theorem text_after_an_object_drops_the_chunk
    (c1 c2 : bytes) (d : list (str * Json.value)) (s2 : str) :
  decode_chunk c1 = Ok (Json.JDict d) ->
  Utf8.decode c2 = Ok s2 ->
  Json.skip_whitespace s2 <> [] ->
  json_undecodable (c1 ++ c2) /\
  forall acc, process_chunk acc (c1 ++ c2) = Ok acc.
Proof.
  intros H1 H2 Hs.
  pose proof (decode_chunk_extra_data c1 c2 d s2 H1 H2 Hs) as U.
  split; [exact U|]. intros acc. now apply process_chunk_undecodable.
Qed.

Lemma text_after_an_object_drops_the_chunk_witness :
  let line1 := jb "{'response':'Hello '}" ++ [x0a] in
  let line2 := jb "{'response':'World','done':true}" ++ [x0a] in
  for_each [line1 ++ line2] [] process_chunk = Ok [] /\
  for_each [line1; line2] [] process_chunk = Ok (u "Hello World").
Proof.
  intros line1 line2. split; [|reflexivity].
  cbn [for_each].
  rewrite (proj2 (text_after_an_object_drops_the_chunk line1 line2
                    [(u "response", Json.JStr (u "Hello "))]
                    (u "{" ++ [34] ++ u "response" ++ [34] ++ u ":" ++ [34]
                     ++ u "World" ++ [34] ++ u "," ++ [34] ++ u "done" ++ [34]
                     ++ u ":true}" ++ [10])
                    eq_refl eq_refl ltac:(discriminate)) []).
  reflexivity.
Defined.

(** X4.  The beginning of an object, cut anywhere before its closing brace,
    adds nothing to the text: the loop skips it or fails on it, and never
    takes it for a complete fragment. *)
Theorem truncated_fragment_adds_no_text
    (p t : bytes) (d : list (str * Json.value)) (acc : str) :
  decode_chunk (p ++ t) = Ok (Json.JDict d) ->
  forallb whitespace_byte t = false ->
  process_chunk acc p = Ok acc \/ exists e, process_chunk acc p = Raise e.
Proof.
  intros H Ht.
  destruct (decode_chunk p) as [v|e] eqn:E.
  - now apply (decode_chunk_truncated p t d v H Ht) in E.
  - destruct (is_JSONDecodeError e) eqn:J.
    + left. apply process_chunk_undecodable. exists e. auto.
    + right. exists e. now apply process_chunk_raises.
Qed.

Lemma truncated_fragment_adds_no_text_witness :
  process_chunk (u "so far") (jb "{'response':'Hel") = Ok (u "so far") \/
  exists e, process_chunk (u "so far") (jb "{'response':'Hel") = Raise e.
Proof.
  exact (truncated_fragment_adds_no_text
           (jb "{'response':'Hel") (jb "lo'}")
           [(u "response", Json.JStr (u "Hello"))] (u "so far")
           eq_refl eq_refl).
Defined.

(** X5.  A chunk that starts with a byte order mark is skipped, whatever
    follows the mark. *)
Theorem byte_order_mark_drops_the_chunk (rest : bytes) (s acc : str) :
  Utf8.decode rest = Ok s ->
  json_undecodable ([xef; xbb; xbf] ++ rest) /\
  process_chunk acc ([xef; xbb; xbf] ++ rest) = Ok acc.
Proof.
  intros H.
  assert (U : json_undecodable ([xef; xbb; xbf] ++ rest)).
  { eexists. unfold decode_chunk.
    rewrite (decode_app_ok [xef; xbb; xbf] rest [0xFEFF] s eq_refl H).
    cbn [bind app]. split; reflexivity. }
  split; [exact U|]. now apply process_chunk_undecodable.
Qed.

Lemma byte_order_mark_drops_the_chunk_witness :
  process_chunk (u "so far") ([xef; xbb; xbf] ++ jb "{'response':'Hello'}")
    = Ok (u "so far").
Proof.
  exact (proj2 (byte_order_mark_drops_the_chunk (jb "{'response':'Hello'}")
                  _ (u "so far") eq_refl)).
Defined.

(** X6.  The loop reads one field of a fragment, [response]: two objects
    that agree on it change the text in the same way, whatever their other
    fields say.  A fragment with [done] set does not end the accumulation,
    and the text of the fragments after it is added like that of the others. *)
Theorem only_the_response_field_is_read
    (c c' : bytes) (d d' : list (str * Json.value)) :
  decode_chunk c = Ok (Json.JDict d) ->
  decode_chunk c' = Ok (Json.JDict d') ->
  Json.dict_lookup d (u "response") = Json.dict_lookup d' (u "response") ->
  forall acc rest,
    for_each (c :: rest) acc process_chunk = for_each (c' :: rest) acc process_chunk.
Proof.
  intros H H' L acc rest. cbn [for_each].
  rewrite (process_chunk_decoded _ _ _ H), (process_chunk_decoded _ _ _ H').
  cbn [Json.get]. now rewrite L.
Qed.

Lemma only_the_response_field_is_read_witness :
  for_each [jb "{'response':'Hello ','done':true}"; jb "{'response':'World'}"]
    [] process_chunk = Ok (u "Hello World").
Proof.
  rewrite (only_the_response_field_is_read
             (jb "{'response':'Hello ','done':true}")
             (jb "{'model':'deepseek-ocr','response':'Hello ','done':false}")
             _ _ eq_refl eq_refl eq_refl).
  reflexivity.
Defined.

(** X7.  A fragment whose field [response] is not a string (a number, a
    boolean, [null], an array, an object) ends the request with the generic
    internal error: the value is printed, and adding it to the text raises
    [TypeError].  The text of the chunks before it is lost, and the chunks
    after it are not read. *)
Theorem non_text_response_fails_the_request
    (pil : Pillow) (net : HttpxClient) image_data prompt r before chunk after
    partial_text d v :
  the_request image_data prompt = Ok r ->
  is_success r = true ->
  chunks r = before ++ chunk :: after ->
  for_each before [] process_chunk = Ok partial_text ->
  decode_chunk chunk = Ok (Json.JDict d) ->
  Json.dict_lookup d (u "response") = Some v ->
  (forall s, v <> Json.JStr s) ->
  perform_ocr image_data prompt =
    HTTPException 500%Z
      (u "Internal Server Error: can only concatenate str (not "
       ++ [34] ++ u (Json.type_name v) ++ [34] ++ u ") to str").
Proof.
  intros Hreq Hok Hch Hbefore Hd Hv Hns.
  rewrite (perform_ocr_chunk_raises image_data prompt r
             (Exn TypeError
                (u "can only concatenate str (not " ++ [34]
                 ++ u (Json.type_name v) ++ [34] ++ u ") to str"))); auto.
  rewrite Hch, for_each_app, Hbefore. cbn [bind for_each].
  rewrite (process_chunk_decoded _ _ _ Hd). cbn [Json.get]. rewrite Hv.
  cbn [bind]. destruct v; try reflexivity. now destruct (Hns s).
Qed.

Lemma non_text_response_fails_the_request_witness :
  let r := Response 200%Z [jb "{'response':'Hello '}";
                           jb "{'response':null,'done':true}"] Closed in
  @perform_ocr Fake.pillow (Fake.httpx (Ok r)) [x00; x00; x10; x00; x10] (u "read") =
    HTTPException 500%Z
      (u "Internal Server Error: can only concatenate str (not "
       ++ [34] ++ u "NoneType" ++ [34] ++ u ") to str").
Proof.
  intros r.
  exact (non_text_response_fails_the_request Fake.pillow (Fake.httpx (Ok r))
           [x00; x00; x10; x00; x10] (u "read") r
           [jb "{'response':'Hello '}"] (jb "{'response':null,'done':true}") []
           (u "Hello ")
           [(u "response", Json.JNone); (u "done", Json.JBool true)] Json.JNone
           eq_refl eq_refl eq_refl eq_refl eq_refl eq_refl
           (fun s H => match H with end)).
Defined.

(** X8.  The request succeeds exactly when it was sent, the status is 2xx,
    every chunk went through the loop and the stream was read to its end;
    the image plays no part in it.  A result always has [done] set, whether
    a fragment said so or not, and a failure always has the status 500,
    whatever the status of the upstream answer was, with one of two
    prefixes in its detail. *)
Theorem request_succeeds_when_the_stream_is_read
    (pil : Pillow) (net : HttpxClient) image_data prompt :
  ((exists result, perform_ocr image_data prompt = Return result) <->
   (exists r text_response,
      the_request image_data prompt = Ok r /\ is_success r = true /\
      for_each (chunks r) [] process_chunk = Ok text_response /\
      ending r = Closed)) /\
  (forall result,
     perform_ocr image_data prompt = Return result -> done result = true) /\
  (forall code detail,
     perform_ocr image_data prompt = HTTPException code detail ->
     code = 500%Z /\
     exists message,
       detail = u "Ollama API Error: " ++ message \/
       detail = u "Internal Server Error: " ++ message).
Proof.
  assert (F : forall e code detail,
            (if is_HTTPError e
             then HTTPException 500 (u "Ollama API Error: " ++ exn_str e)
             else HTTPException 500 (u "Internal Server Error: " ++ exn_str e))
            = HTTPException code detail ->
            code = 500%Z /\
            exists message,
              detail = u "Ollama API Error: " ++ message \/
              detail = u "Internal Server Error: " ++ message).
  { intros e code detail H.
    destruct (is_HTTPError e); injection H as <- <-;
      (split; [reflexivity|exists (exn_str e)]); [left|right]; reflexivity. }
  assert (N : forall e result,
            (if is_HTTPError e
             then HTTPException 500 (u "Ollama API Error: " ++ exn_str e)
             else HTTPException 500 (u "Internal Server Error: " ++ exn_str e))
            <> Return result).
  { intros e result. destruct (is_HTTPError e); discriminate. }
  destruct (the_request image_data prompt) as [r|e] eqn:Hreq.
  2:{ assert (E : perform_ocr image_data prompt =
                  if is_HTTPError e
                  then HTTPException 500 (u "Ollama API Error: " ++ exn_str e)
                  else HTTPException 500 (u "Internal Server Error: " ++ exn_str e)).
      { unfold perform_ocr, perform_ocr_try. rewrite sending_is_printed.
        cbn [bind]. unfold the_request in Hreq. rewrite Hreq. reflexivity. }
      rewrite E. split; [split|split].
      - intros [result H]. now apply N in H.
      - intros (r & t & H & _). discriminate H.
      - intros result H. now apply N in H.
      - apply F. }
  destruct (is_success r) eqn:Hok.
  2:{ assert (E : perform_ocr image_data prompt =
                  HTTPException 500
                    (u "Ollama API Error: " ++ status_error_message r)).
      { unfold perform_ocr, perform_ocr_try. rewrite sending_is_printed.
        cbn [bind]. unfold the_request in Hreq. rewrite Hreq. cbn [bind].
        unfold raise_for_status. unfold is_success in Hok. rewrite Hok.
        reflexivity. }
      rewrite E. split; [split|split].
      - intros [result H]. discriminate H.
      - intros (r' & t & [= <-] & H & _). congruence.
      - intros result H. discriminate H.
      - intros code detail [= <- <-].
        split; [reflexivity|]. eexists. left. reflexivity. }
  destruct (for_each (chunks r) [] process_chunk) as [t|e] eqn:Hloop.
  2:{ rewrite (perform_ocr_chunk_raises image_data prompt r e Hreq Hok Hloop).
      split; [split|split].
      - intros [result H]. destruct (is_HTTPError e); discriminate H.
      - intros (r' & t & [= <-] & _ & H & _). congruence.
      - intros result H. destruct (is_HTTPError e); discriminate H.
      - intros code detail [= <- <-]. split; [reflexivity|].
        exists (exn_str e). destruct (is_HTTPError e); [left|right]; reflexivity. }
  destruct (ending r) as [|e] eqn:Hend.
  - rewrite (perform_ocr_success image_data prompt r t Hreq Hok Hloop Hend).
    split; [split|split].
    + intros _. exists r, t. auto.
    + intros _. eauto.
    + intros result [= <-]. reflexivity.
    + intros code detail H. discriminate H.
  - assert (E : perform_ocr image_data prompt =
                if is_HTTPError e
                then HTTPException 500 (u "Ollama API Error: " ++ exn_str e)
                else HTTPException 500 (u "Internal Server Error: " ++ exn_str e)).
    { unfold perform_ocr, perform_ocr_try. rewrite sending_is_printed.
      cbn [bind]. unfold the_request in Hreq. rewrite Hreq. cbn [bind].
      unfold raise_for_status. unfold is_success in Hok. rewrite Hok.
      cbn [bind]. rewrite Hloop. cbn [bind]. rewrite Hend. reflexivity. }
    rewrite E. split; [split|split].
    + intros [result H]. now apply N in H.
    + intros (r' & t' & [= <-] & _ & _ & H). congruence.
    + intros result H. now apply N in H.
    + apply F.
Qed.

(** X9.  The result depends on the stream through its text only: two
    streams whose valid fragments spell the same text give the same result,
    however the text is cut into fragments.  The boxes are looked for in the
    whole text, so a tuple that arrives in two fragments is drawn like one
    that arrives in one. *)
Theorem result_depends_on_the_text_only
    (pil : Pillow) (net1 net2 : HttpxClient) image_data prompt r1 r2 ds1 ds2 :
  @the_request net1 image_data prompt = Ok r1 ->
  @the_request net2 image_data prompt = Ok r2 ->
  is_success r1 = true -> is_success r2 = true ->
  ending r1 = Closed -> ending r2 = Closed ->
  deltas (chunks r1) ds1 -> deltas (chunks r2) ds2 ->
  List.concat ds1 = List.concat ds2 ->
  @perform_ocr pil net1 image_data prompt = @perform_ocr pil net2 image_data prompt.
Proof.
  intros Q1 Q2 S1 S2 E1 E2 D1 D2 Heq.
  rewrite (@perform_ocr_success pil net1 image_data prompt r1 (List.concat ds1)
             Q1 S1 (aggregate_deltas _ _ [] D1) E1).
  rewrite (@perform_ocr_success pil net2 image_data prompt r2 (List.concat ds2)
             Q2 S2 (aggregate_deltas _ _ [] D2) E2).
  now rewrite Heq.
Qed.

Lemma result_depends_on_the_text_only_witness :
  let image_data := [x00; x01; xf4; x01; xf4] in
  let r1 := Response 200%Z [jb "{'response':'[[0,0,5'}"; jb "not json";
                            jb "{'response':'00,1000]]'}"] Closed in
  let r2 := Response 200%Z [jb "{'response':'[[0,0,500,1000]]','done':true}"]
              Closed in
  @perform_ocr Fake.pillow (Fake.httpx (Ok r1)) image_data (u "read") =
  @perform_ocr Fake.pillow (Fake.httpx (Ok r2)) image_data (u "read").
Proof.
  intros image_data r1 r2.
  apply (result_depends_on_the_text_only Fake.pillow
           (Fake.httpx (Ok r1)) (Fake.httpx (Ok r2)) image_data (u "read") r1 r2
           [u "[[0,0,5"; u "00,1000]]"] [u "[[0,0,500,1000]]"]);
    try reflexivity.
  - apply deltas_fragment; [eapply fragment_text; vm_compute; reflexivity|].
    apply deltas_skip; [eexists; split; vm_compute; reflexivity|].
    apply deltas_fragment; [eapply fragment_text; vm_compute; reflexivity|].
    apply deltas_nil.
  - apply deltas_fragment; [eapply fragment_text; vm_compute; reflexivity|].
    apply deltas_nil.
Defined.

(** ** What decoding a chunk raises *)

Lemma fail_at_error {A} doc msg rest e :
  @Json.fail_at doc A msg rest = Raise e -> json_error e.
Proof. intros [= <-]. now left. Qed.

Lemma scanstring_raises doc n : forall s start acc e,
  (List.length s <= n)%nat ->
  Json.scanstring doc start s acc = Raise e -> json_error e.
Proof.
  induction n as [|n IH]; intros s start acc e Hlen H.
  { destruct s; [|cbn in Hlen; lia]. injection H as <-. now left. }
  destruct s as [|c r0]; [injection H as <-; now left|].
  cbn [Json.scanstring] in H. cbn [List.length] in Hlen.
  repeat match type of H with
  | (if ?c then _ else _) = _ => destruct c
  | match ?l with [] => _ | _ :: _ => _ end = _ =>
      destruct l; cbn [List.length] in Hlen
  | match ?o with Some _ => _ | None => _ end = _ => destruct o
  | Ok _ = Raise _ => discriminate H
  | Raise _ = Raise _ => injection H as <-; now left
  | Json.fail_at _ _ _ = Raise _ => now apply fail_at_error in H
  | Json.scanstring _ _ _ _ = Raise _ =>
      apply IH in H; [exact H|cbn [List.length] in Hlen |- *; lia]
  end.
Qed.

Lemma match_number_raises doc s e :
  Json.match_number doc s = Raise e -> json_error e.
Proof.
  unfold Json.match_number. intros H.
  destruct (match s with
            | [] => ([], s)
            | c :: r => if c =? 45 then ([c], r) else ([], s)
            end) as [sign s1].
  destruct (match s1 with
            | [] => ([], s1)
            | c :: r =>
              if c =? 48 then ([c], r)
              else if Json.is_digit c
                   then let '(ds, r') := Json.span_digits r in (c :: ds, r')
                   else ([], s1)
            end) as [[|d ip] s2].
  { now apply fail_at_error in H. }
  destruct (Json.scan_fraction s2) as [frac s3].
  destruct (Json.scan_exponent s3) as [expo s4].
  destruct frac, expo; try discriminate H.
  destruct (_ <? _)%nat; [|discriminate H].
  injection H as <-. right. now left.
Qed.

Section Raises.

Variable doc : str.
Variable scan : str -> pyresult (Json.value * str).
Hypothesis scan_raises : forall s e, scan s = Raise e -> json_error e.

Lemma parse_array_raises fuel : forall s acc e,
  Json.parse_array doc scan fuel s acc = Raise e -> json_error e.
Proof.
  induction fuel as [|fuel IH]; intros s acc e H; cbn [Json.parse_array] in H.
  { now apply fail_at_error in H. }
  destruct (scan s) as [[v r]|e'] eqn:E; cbn [bind] in H.
  2:{ injection H as <-. eapply scan_raises; eauto. }
  destruct (Json.skip_whitespace r) as [|c r']; [now apply fail_at_error in H|].
  destruct (c =? 93); [discriminate H|].
  destruct (c =? 44); [eapply IH; eauto|now apply fail_at_error in H].
Qed.

Lemma parse_object_raises fuel : forall s acc e,
  Json.parse_object doc scan fuel s acc = Raise e -> json_error e.
Proof.
  induction fuel as [|fuel IH]; intros s acc e H; cbn [Json.parse_object] in H.
  { now apply fail_at_error in H. }
  destruct s as [|q r0]; [now apply fail_at_error in H|].
  destruct (q =? 34); [|now apply fail_at_error in H].
  destruct (Json.scanstring doc _ r0 []) as [[key r1]|e'] eqn:K; cbn [bind] in H.
  2:{ injection H as <-. eapply scanstring_raises; [|exact K]. apply le_n. }
  destruct (Json.skip_whitespace r1) as [|colon r2]; [now apply fail_at_error in H|].
  destruct (colon =? 58); [|now apply fail_at_error in H].
  destruct (scan _) as [[v r3]|e'] eqn:E; cbn [bind] in H.
  2:{ injection H as <-. eapply scan_raises; eauto. }
  destruct (Json.skip_whitespace r3) as [|c r4]; [now apply fail_at_error in H|].
  destruct (c =? 125); [discriminate H|].
  destruct (c =? 44); [eapply IH; eauto|now apply fail_at_error in H].
Qed.

End Raises.

Lemma scan_once_raises doc depth : forall s e,
  Json.scan_once doc depth s = Raise e -> json_error e.
Proof.
  induction depth as [|d IH]; intros s e H; rewrite scan_once_eq in H;
    (destruct s as [|c s]; [now apply fail_at_error in H|]);
    (destruct (c =? 34);
     [ destruct (Json.scanstring doc _ s []) as [[x r]|e'] eqn:K;
         cbn [bind] in H; [discriminate H|];
       injection H as <-; eapply scanstring_raises; [|exact K]; apply le_n
     | ]);
    (destruct (c =? 123); [|destruct (c =? 91)]);
    try (injection H as <-; right; right; reflexivity);
    try (repeat match type of H with
         | match Json.starts_with ?a ?b with _ => _ end = _ =>
             destruct (Json.starts_with a b)
         end; try discriminate H; now apply match_number_raises in H).
  - destruct (Json.skip_whitespace s) as [|c' r'].
    + eapply parse_object_raises; [exact IH|exact H].
    + destruct (c' =? 125); [discriminate H|].
      eapply parse_object_raises; [exact IH|exact H].
  - destruct (Json.skip_whitespace s) as [|c' r'].
    + eapply parse_array_raises; [exact IH|exact H].
    + destruct (c' =? 93); [discriminate H|].
      eapply parse_array_raises; [exact IH|exact H].
Qed.

Lemma loads_raises s e : Json.loads s = Raise e -> json_error e.
Proof.
  unfold Json.loads. intros H.
  destruct s as [|c s]; [now apply fail_at_error in H|].
  destruct (c =? 0xFEFF); [injection H as <-; now left|].
  destruct (Json.scan_once _ _ _) as [[v r]|e'] eqn:E; cbn [bind] in H.
  - destruct (Json.skip_whitespace r); [discriminate H|].
    now apply fail_at_error in H.
  - injection H as <-. eapply scan_once_raises; eauto.
Qed.

(** What decoding a chunk raises is no error of the transport. *)
Lemma decode_chunk_raises chunk e :
  decode_chunk chunk = Raise e ->
  exn_class_of e = UnicodeDecodeError \/ json_error e.
Proof.
  unfold decode_chunk. intros H.
  destruct (Utf8.decode chunk) as [s|e'] eqn:E; cbn [bind] in H.
  - right. now apply loads_raises in H.
  - injection H as <-. left. now apply utf8_decode_raises in E.
Qed.

(** X16.  A chunk whose decoding raises anything but [JSONDecodeError] fails
    the request: bytes that are not valid UTF-8 ([UnicodeDecodeError]), an
    integer of more than 4300 digits ([ValueError]), a document nested
    deeper than the interpreter allows ([RecursionError]).  The exception
    leaves the loop, the text of the chunks before it is lost, and the detail
    of the failure is the generic prefix and the message of the exception. *)
Theorem undecodable_chunk_fails_the_request
    (pil : Pillow) (net : HttpxClient) image_data prompt r before chunk after
    partial_text e :
  the_request image_data prompt = Ok r ->
  is_success r = true ->
  chunks r = before ++ chunk :: after ->
  for_each before [] process_chunk = Ok partial_text ->
  decode_chunk chunk = Raise e ->
  is_JSONDecodeError e = false ->
  perform_ocr image_data prompt =
    HTTPException 500%Z (u "Internal Server Error: " ++ exn_str e) /\
  (exn_class_of e = UnicodeDecodeError \/ exn_class_of e = ValueError \/
   exn_class_of e = RecursionError).
Proof.
  intros Hreq Hok Hch Hbefore Hd Hj.
  assert (C : exn_class_of e = UnicodeDecodeError \/ exn_class_of e = ValueError \/
              exn_class_of e = RecursionError).
  { destruct (decode_chunk_raises _ _ Hd) as [H|[H|[H|H]]]; auto.
    unfold is_JSONDecodeError in Hj. rewrite H in Hj. discriminate Hj. }
  split; [|exact C].
  rewrite (perform_ocr_chunk_raises image_data prompt r e Hreq Hok).
  - unfold is_HTTPError. destruct C as [->|[->| ->]]; reflexivity.
  - rewrite Hch, for_each_app, Hbefore. cbn [bind for_each].
    now rewrite (process_chunk_raises _ _ _ Hd Hj).
Qed.

Lemma undecodable_chunk_fails_the_request_witness :
  let r := Response 200%Z [jb "{'response':'Hello '}"; [xff];
                           jb "{'response':'World'}"] Closed in
  @perform_ocr Fake.pillow (Fake.httpx (Ok r)) [x00; x00; x10; x00; x10] (u "read") =
    HTTPException 500%Z
      (u "Internal Server Error: 'utf-8' codec can't decode byte 0xff in position 0: invalid start byte").
Proof.
  intros r.
  exact (proj1 (undecodable_chunk_fails_the_request Fake.pillow (Fake.httpx (Ok r))
                  [x00; x00; x10; x00; x10] (u "read") r
                  [jb "{'response':'Hello '}"] [xff] [jb "{'response':'World'}"]
                  (u "Hello ") (Utf8.invalid_start 0xff 0)
                  eq_refl eq_refl eq_refl eq_refl eq_refl eq_refl)).
Defined.

(* ================================================================== *)
(** * Further properties of the renderer *)
(* ================================================================== *)

Lemma decimal_bound c d : Num.decimal c = Some d -> d < 10.
Proof.
  unfold Num.decimal.
  destruct (find _ Num.decimal_runs) as [r|] eqn:F; [|discriminate].
  intros [= <-]. apply find_some in F as [_ F].
  apply andb_true_iff in F as [F1 F2].
  apply N.leb_le in F1. apply N.ltb_lt in F2. lia.
Qed.

Lemma digits_value_bound s : forall acc n,
  (0 <= acc)%Z -> Num.digits_value acc s = Some n ->
  (0 <= n < (acc + 1) * 10 ^ Z.of_nat (List.length s))%Z.
Proof.
  induction s as [|c r IH]; intros acc n Hacc H; cbn [Num.digits_value] in H.
  - injection H as <-. cbn [List.length]. change (10 ^ Z.of_nat 0)%Z with 1%Z. lia.
  - destruct (Num.decimal c) as [d|] eqn:D; [|discriminate H].
    apply decimal_bound in D.
    apply IH in H; [|lia].
    cbn [List.length]. rewrite Nat2Z.inj_succ, Z.pow_succ_r by lia.
    pose proof (Z.pow_pos_nonneg 10 (Z.of_nat (List.length r)) ltac:(lia) ltac:(lia)).
    nia.
Qed.

(** [int] on a number of at most nine digits. *)
Lemma int_number s :
  digits s -> (List.length s <= 9)%nat ->
  Num.int s = Ok (number s) /\ (0 <= number s < 10 ^ 9)%Z.
Proof.
  intros [Hne Hs] Hlen.
  destruct (digits_value_some s Hs 0%Z ltac:(lia)) as (n & E & Hn).
  pose proof (digits_value_bound s 0%Z n ltac:(lia) E) as B.
  unfold number, Num.int. rewrite E.
  destruct s as [|c r]; [congruence|]. rewrite ?E.
  destruct (Nat.ltb_spec Json.int_max_str_digits (List.length (c :: r))) as [L|L].
  { unfold Json.int_max_str_digits in L. lia. }
  split; [reflexivity|].
  assert (10 ^ Z.of_nat (List.length (c :: r)) <= 10 ^ 9)%Z.
  { apply Z.pow_le_mono_r; lia. }
  lia.
Qed.

Lemma for_each_ext {S X} (xs : list X) : forall (st : S) f g,
  (forall st x, In x xs -> f st x = g st x) ->
  for_each xs st f = for_each xs st g.
Proof.
  induction xs as [|x xs IH]; intros st f g H; [reflexivity|].
  cbn [for_each]. rewrite (H st x (or_introl eq_refl)).
  destruct (g st x) as [st'|e]; [|reflexivity]. cbn [bind].
  apply IH. intros st0 y Hy. apply H. now right.
Qed.

(** The loop body for a match whose numbers have at most nine digits. *)
Lemma draw_match_box {pil : Pillow} (img img0 : image) m :
  digit_groups m ->
  forallb (fun g => (List.length g <=? 9)%nat) m = true ->
  draw_match (fst (size img0)) (snd (size img0)) img m =
    rectangle img (box (fst (size img0)) (snd (size img0)) m) (u "#00ff00") 3%Z.
Proof.
  intros (a & b & c & d & -> & Ha & Hb & Hc & Hd) Hlen.
  cbn [forallb] in Hlen.
  repeat (apply andb_true_iff in Hlen as [?L Hlen]).
  apply Nat.leb_le in L, L0, L1, L2.
  destruct (int_number a Ha L) as [Ea Ba].
  destruct (int_number b Hb L0) as [Eb Bb].
  destruct (int_number c Hc L1) as [Ec Bc].
  destruct (int_number d Hd L2) as [Ed Bd].
  destruct (size img0) as [w h] eqn:Hsize.
  destruct (size_bounds img0 w h Hsize) as [BW BH]. cbn [fst snd box].
  change (2 ^ 31)%Z with 2147483648%Z in *.
  change (10 ^ 9)%Z with 1000000000%Z in *.
  apply draw_match_scaled.
  - unfold unpack_int4. rewrite Ea, Eb, Ec, Ed. reflexivity.
  - change (2 ^ 64)%Z with 18446744073709551616%Z. nia.
  - change (2 ^ 64)%Z with 18446744073709551616%Z. nia.
  - change (2 ^ 64)%Z with 18446744073709551616%Z. nia.
  - change (2 ^ 64)%Z with 18446744073709551616%Z. nia.
Qed.

(** X10.  When the numbers of every match have at most nine digits, of any
    script, the conversion and the scaling cannot fail: the renderer opens
    the image, draws one rectangle for each match, in the order of the
    matches, with the corners [box] computes from the four numbers and the
    size of the image, encodes the result as PNG and returns it in base64.
    It can raise only where Pillow does. *)
Theorem every_match_is_drawn
    (pil : Pillow) (image_bytes : bytes) (response_text : str) (img : image) :
  Image_open image_bytes = Ok img ->
  forallb (forallb (fun g => (List.length g <=? 9)%nat))
    (Re.findall coords_pattern response_text) = true ->
  draw_bounding_boxes_try image_bytes response_text =
    (_ <- ImageDraw_Draw img ;;
     img' <- for_each (Re.findall coords_pattern response_text) img
               (fun im m =>
                  rectangle im (box (fst (size img)) (snd (size img)) m)
                    (u "#00ff00") 3%Z) ;;
     buffered <- save img' (u "PNG") ;;
     Ok (Base64.b64encode_str buffered)).
Proof.
  intros Ho Hlen. rewrite (draw_bounding_boxes_try_open _ _ _ Ho).
  destruct (ImageDraw_Draw img) as [[]|e]; [|reflexivity]. cbn [bind].
  rewrite (for_each_ext (Re.findall coords_pattern response_text) img
             (draw_match (fst (size img)) (snd (size img)))
             (fun im m =>
                rectangle im (box (fst (size img)) (snd (size img)) m)
                  (u "#00ff00") 3%Z)); [reflexivity|].
  intros im m Hm. apply draw_match_box.
  - pose proof (findall_digit_groups response_text) as F.
    rewrite Forall_forall in F. now apply F.
  - rewrite forallb_forall in Hlen. now apply Hlen.
Qed.

Lemma every_match_is_drawn_witness :
  @draw_bounding_boxes_try Fake.pillow [x00; x03; xe8; x03; xe8]
    (u "a [[100, 200,300,400]] b [[" ++ [0x661%N; 0x660%N] ++ u ",20,30,40]]") =
  Ok (Base64.b64encode_str [x00; x03; xe8; x03; xe8; x02]).
Proof.
  rewrite (every_match_is_drawn Fake.pillow [x00; x03; xe8; x03; xe8]
             (u "a [[100, 200,300,400]] b [[" ++ [0x661%N; 0x660%N]
              ++ u ",20,30,40]]")
             (Fake.Picture x03 xe8 x03 xe8 Fake.RGB []) eq_refl eq_refl).
  vm_compute. reflexivity.
Defined.

(** The pattern matches nothing that does not start with a bracket. *)
Lemma no_bracket_no_match (c : char) (r : str) :
  (c =? 91) = false -> Re.match_at coords_pattern false (c :: r) = None.
Proof.
  intros H. unfold Re.match_at, coords_pattern.
  cbn [Re.concat fold_right Re.run Re.accepts].
  now rewrite N.eqb_sym, H.
Qed.

(** The search goes over the characters that are no brackets. *)
Lemma search_skip (pre : str) : forall (rest : str) skip,
  forallb (fun c => negb (c =? 91)) pre = true ->
  Re.search coords_pattern false skip (pre ++ rest) =
    Re.search coords_pattern false (skip + List.length pre) rest.
Proof.
  induction pre as [|c pre IH]; intros rest skip H.
  - cbn [app List.length]. now rewrite Nat.add_0_r.
  - cbn [forallb] in H. apply andb_true_iff in H as [Hc Hpre].
    apply negb_true_iff in Hc.
    cbn [app Re.search]. rewrite (no_bracket_no_match c _ Hc).
    rewrite (IH rest (S skip) Hpre). cbn [List.length]. f_equal. lia.
Qed.

(** At a tuple the pattern matches the tuple, and nothing longer or shorter. *)
Lemma match_at_tuple (s : str) gs (post : str) :
  bracketed_tuple s gs ->
  Re.match_at coords_pattern false (s ++ post) = Some (gs, post).
Proof.
  intros Hb. pose proof (proj2 (coords_pattern_spec s gs) Hb) as Hm.
  destruct (match_at_complete coords_pattern s post gs Hm) as [[g' r'] E].
  rewrite E. apply match_at_sound in E as (s1 & Es & Hm1).
  apply coords_pattern_spec in Hm1.
  destruct (bracketed_tuple_unique s gs post s1 g' r' Hb Hm1 Es) as [<- <-].
  apply app_inv_head in Es. now subst.
Qed.

(** With enough rounds the loop of [findall] gives what [findall] gives. *)
Lemma findall_loop_enough fuel (text : str) :
  (List.length text < fuel)%nat ->
  Re.findall_loop fuel coords_pattern false text = Re.findall coords_pattern text.
Proof.
  intros Hfuel.
  destruct (findall_loop_leftmost coords_pattern text coords_never_empty
              fuel 0%nat ltac:(lia) ltac:(lia)) as (spans & Hl & E).
  destruct (findall_leftmost coords_pattern text coords_never_empty)
    as (spans' & Hl' & E').
  cbn [skipn] in E. rewrite E, E'.
  now rewrite (leftmost_unique text 0%nat spans spans' Hl Hl').
Qed.

Lemma bracketed_tuple_not_empty s gs : bracketed_tuple s gs -> s <> [].
Proof.
  intros (a & b & c & d & sp1 & sp2 & sp3 & _ & _ & _ & _ & _ & _ & _ & _ & ->).
  discriminate.
Qed.

(** X11.  A tuple is found where it stands.  For a text made of a part
    without an opening bracket, a tuple (two opening brackets, four unsigned
    integers separated by commas, each comma followed by optional whitespace,
    two closing brackets) and a rest, the matches are the four integers of
    the tuple, as they are written, and then the matches of the rest. *)
Theorem a_tuple_is_found_where_it_stands (pre s post : str) (gs : list str) :
  forallb (fun c => negb (c =? 91)) pre = true ->
  bracketed_tuple s gs ->
  Re.findall coords_pattern (pre ++ s ++ post) =
    gs :: Re.findall coords_pattern post.
Proof.
  intros Hpre Hb. unfold Re.findall at 1.
  replace (2 * List.length (pre ++ s ++ post) + 2)%nat
    with (S (2 * List.length (pre ++ s ++ post) + 1))%nat by lia.
  cbn [Re.findall_loop].
    rewrite (search_skip pre (s ++ post) 0%nat Hpre).
  pose proof (bracketed_tuple_not_empty s gs Hb) as Hne.
  destruct s as [|c s']; [congruence|].
  cbn [app Re.search].
  change (c :: s' ++ post) with ((c :: s') ++ post).
  rewrite (match_at_tuple (c :: s') gs post Hb).
  cbn [Re.groups Re.matched Re.rest]. rewrite consumed_app.
  cbn [Re.is_empty]. f_equal.
  apply findall_loop_enough. rewrite !length_app. lia.
Qed.

Lemma a_tuple_is_found_where_it_stands_witness :
  Re.findall coords_pattern
    (u "Title at " ++ u "[[12, 34,56,  78]]" ++ u " and [[1,2,3,4]]") =
  [[u "12"; u "34"; u "56"; u "78"]; [u "1"; u "2"; u "3"; u "4"]].
Proof.
  rewrite (a_tuple_is_found_where_it_stands
             (u "Title at ") (u "[[12, 34,56,  78]]") (u " and [[1,2,3,4]]")
             [u "12"; u "34"; u "56"; u "78"] eq_refl).
  - reflexivity.
  - exists (u "12"), (u "34"), (u "56"), (u "78"), (u " "), [], (u "  ").
    unfold digits, spaces. repeat split; try reflexivity; discriminate.
Defined.

(* ================================================================== *)
(** * Base64 *)
(* ================================================================== *)

Lemma unsextet_sextet n : n < 64 -> unsextet (Base64.sextet n) = Some n.
Proof.
  intros H. unfold Base64.sextet, unsextet.
  destruct (N.ltb_spec n 26).
  { replace ((65 <=? 65 + n) && (65 + n <=? 90)) with true.
    - f_equal. lia.
    - symmetry. apply andb_true_iff. split; apply N.leb_le; lia. }
  destruct (N.ltb_spec n 52).
  { replace ((65 <=? 71 + n) && (71 + n <=? 90)) with false.
    - replace ((97 <=? 71 + n) && (71 + n <=? 122)) with true.
      + f_equal. lia.
      + symmetry. apply andb_true_iff. split; apply N.leb_le; lia.
    - symmetry. apply andb_false_iff. right. apply N.leb_gt. lia. }
  destruct (N.ltb_spec n 62).
  { replace ((65 <=? n - 4) && (n - 4 <=? 90)) with false.
    - replace ((97 <=? n - 4) && (n - 4 <=? 122)) with false.
      + replace ((48 <=? n - 4) && (n - 4 <=? 57)) with true.
        * f_equal. lia.
        * symmetry. apply andb_true_iff. split; apply N.leb_le; lia.
      + symmetry. apply andb_false_iff. left. apply N.leb_gt. lia.
    - symmetry. apply andb_false_iff. left. apply N.leb_gt. lia. }
  destruct (N.eqb_spec n 62) as [->|]; [reflexivity|].
  assert (n = 63) as -> by lia. reflexivity.
Qed.

Lemma sextet_not_pad n : n < 64 -> (Base64.sextet n =? 61) = false.
Proof.
  intros H. apply N.eqb_neq. unfold Base64.sextet.
  destruct (N.ltb_spec n 26); [lia|].
  destruct (N.ltb_spec n 52); [lia|].
  destruct (N.ltb_spec n 62); [lia|].
  destruct (N.eqb_spec n 62); lia.
Qed.

Lemma byte_of_to_N b : byte_of (Byte.to_N b) = Some b.
Proof.
  unfold byte_of. pose proof (Byte.to_N_bounded b).
  rewrite N.mod_small by lia. apply Byte.of_to_N.
Qed.

Lemma byte_of_eq n b : n mod 256 = Byte.to_N b -> byte_of n = Some b.
Proof. unfold byte_of. intros ->. apply Byte.of_to_N. Qed.

(** Quotients and remainders as unknowns, for [lia]. *)
Ltac forget_div_mod :=
  repeat match goal with
  | |- context [N.div ?a ?b] => generalize dependent (N.div a b); intros
  | |- context [N.modulo ?a ?b] => generalize dependent (N.modulo a b); intros
  | H : context [N.div ?a ?b] |- _ => generalize dependent (N.div a b); intros
  | H : context [N.modulo ?a ?b] |- _ => generalize dependent (N.modulo a b); intros
  end.

Lemma sextets_1 n : n < 256 ->
  n / 4 < 64 /\ n mod 4 * 16 < 64 /\
  ((n / 4 * 64 + n mod 4 * 16) / 16) mod 256 = n.
Proof.
  intros H.
  assert (E : n / 4 * 64 + n mod 4 * 16 = n * 16).
  { pose proof (N.div_mod' n 4). forget_div_mod. lia. }
  rewrite E, N.div_mul by lia. rewrite (N.mod_small n 256) by lia.
  pose proof (N.mod_upper_bound n 4 ltac:(lia)).
  pose proof (N.div_mod' n 4). clear E. forget_div_mod. lia.
Qed.

Lemma sextets_2 b1 b2 : b1 < 256 -> b2 < 256 ->
  let n := b1 * 256 + b2 in
  let w := (n / 1024 * 64 + n / 16 mod 64) * 64 + n mod 16 * 4 in
  n / 1024 < 64 /\ n / 16 mod 64 < 64 /\ n mod 16 * 4 < 64 /\
  (w / 1024) mod 256 = b1 /\ (w / 4) mod 256 = b2.
Proof.
  intros H1 H2 n w.
  assert (Hn : n < 65536) by (unfold n; lia).
  assert (E16 : n / 1024 = n / 16 / 64) by (now rewrite N.Div0.div_div).
  pose proof (N.div_mod' n 16) as D1.
  pose proof (N.mod_upper_bound n 16 ltac:(lia)) as M1.
  pose proof (N.div_mod' (n / 16) 64) as D2.
  pose proof (N.mod_upper_bound (n / 16) 64 ltac:(lia)) as M2.
  assert (Ew : w = n * 4).
  { unfold w. rewrite E16. clear w E16. forget_div_mod. lia. }
  assert (Q : n / 16 / 64 < 64).
  { apply N.Div0.div_lt_upper_bound. apply N.Div0.div_lt_upper_bound. lia. }
  split; [rewrite E16; exact Q|]. split; [exact M2|]. split; [lia|].
  clear D1 D2 M1 M2 Q E16.
  rewrite Ew. split.
  - replace (n * 4 / 1024) with b1; [apply N.mod_small; lia|].
    apply (N.div_unique _ _ _ (b2 * 4)); unfold n; lia.
  - rewrite N.div_mul by lia. unfold n.
    symmetry. apply (N.mod_unique _ _ b1); lia.
Qed.

Lemma sextets_3 b1 b2 b3 : b1 < 256 -> b2 < 256 -> b3 < 256 ->
  let n := b1 * 65536 + b2 * 256 + b3 in
  let m := ((n / 262144 * 64 + n / 4096 mod 64) * 64 + n / 64 mod 64) * 64
           + n mod 64 in
  n / 262144 < 64 /\ n / 4096 mod 64 < 64 /\ n / 64 mod 64 < 64 /\ n mod 64 < 64 /\
  (m / 65536) mod 256 = b1 /\ (m / 256) mod 256 = b2 /\ m mod 256 = b3.
Proof.
  intros H1 H2 H3 n m.
  assert (Hn : n < 16777216) by (unfold n; lia).
  assert (E1 : n / 4096 = n / 64 / 64) by (now rewrite N.Div0.div_div).
  assert (E2 : n / 262144 = n / 64 / 64 / 64) by (now rewrite !N.Div0.div_div).
  pose proof (N.div_mod' n 64) as D1.
  pose proof (N.mod_upper_bound n 64 ltac:(lia)) as M1.
  pose proof (N.div_mod' (n / 64) 64) as D2.
  pose proof (N.mod_upper_bound (n / 64) 64 ltac:(lia)) as M2.
  pose proof (N.div_mod' (n / 64 / 64) 64) as D3.
  pose proof (N.mod_upper_bound (n / 64 / 64) 64 ltac:(lia)) as M3.
  assert (Q : n / 64 / 64 / 64 < 64).
  { repeat apply N.Div0.div_lt_upper_bound. lia. }
  assert (Em : m = n).
  { unfold m. rewrite E1, E2. clear m E1 E2. forget_div_mod. lia. }
  split; [rewrite E2; exact Q|]. split; [rewrite E1; exact M3|].
  split; [exact M2|]. split; [exact M1|].
  rewrite Em. clear D1 D2 D3 M1 M2 M3 Q E1 E2 Em m. split; [|split].
  - replace (n / 65536) with b1; [apply N.mod_small; lia|].
    apply (N.div_unique _ _ _ (b2 * 256 + b3)); unfold n; lia.
  - replace (n / 256) with (b1 * 256 + b2).
    + symmetry. apply (N.mod_unique _ _ b1); lia.
    + apply (N.div_unique _ _ _ b3); unfold n; lia.
  - symmetry. apply (N.mod_unique _ _ (b1 * 256 + b2)); unfold n; lia.
Qed.

(** Decoding what was encoded gives the bytes back. *)
Lemma base64_round_trip n : forall data,
  (List.length data <= n)%nat -> b64decode (Base64.encode data) = Some data.
Proof.
  induction n as [|n IH]; intros data Hlen.
  { destruct data; [reflexivity|cbn in Hlen; lia]. }
  destruct data as [|b1 [|b2 [|b3 rest]]]; [reflexivity| | |].
  - cbn [Base64.encode].
    pose proof (Byte.to_N_bounded b1) as B1.
    destruct (sextets_1 (Byte.to_N b1) ltac:(lia)) as (S1 & S2 & E).
    cbn [b64decode]. rewrite (unsextet_sextet _ S1), (unsextet_sextet _ S2).
    change (Base64.pad =? 61) with true. cbv iota.
    cbn [bytes_of fold_right]. now rewrite (byte_of_eq _ b1 E).
  - cbn [Base64.encode].
    pose proof (Byte.to_N_bounded b1) as B1. pose proof (Byte.to_N_bounded b2) as B2.
    destruct (sextets_2 (Byte.to_N b1) (Byte.to_N b2) ltac:(lia) ltac:(lia))
      as (S1 & S2 & S3 & E1 & E2).
    cbn [b64decode].
    rewrite (unsextet_sextet _ S1), (unsextet_sextet _ S2), (unsextet_sextet _ S3).
    rewrite (sextet_not_pad _ S3).
    change (Base64.pad =? 61) with true. cbv iota.
    cbn [bytes_of fold_right].
    now rewrite (byte_of_eq _ b1 E1), (byte_of_eq _ b2 E2).
  - cbn [Base64.encode].
    pose proof (Byte.to_N_bounded b1) as B1. pose proof (Byte.to_N_bounded b2) as B2.
    pose proof (Byte.to_N_bounded b3) as B3.
    destruct (sextets_3 (Byte.to_N b1) (Byte.to_N b2) (Byte.to_N b3)
                ltac:(lia) ltac:(lia) ltac:(lia))
      as (S1 & S2 & S3 & S4 & E1 & E2 & E3).
    cbn [b64decode].
    rewrite (unsextet_sextet _ S1), (unsextet_sextet _ S2),
      (unsextet_sextet _ S3), (unsextet_sextet _ S4).
    rewrite (sextet_not_pad _ S3), (sextet_not_pad _ S4).
    rewrite (IH rest) by (cbn [List.length] in Hlen; lia).
    cbn [bytes_of fold_right].
    now rewrite (byte_of_eq _ b1 E1), (byte_of_eq _ b2 E2), (byte_of_eq _ b3 E3).
Qed.

Lemma base64_char_sextet n : base64_char (Base64.sextet n) = true.
Proof.
  unfold base64_char. destruct (N.ltb_spec n 64) as [H|H].
  - now rewrite (unsextet_sextet n H).
  - unfold Base64.sextet.
    destruct (N.ltb_spec n 26); [lia|]. destruct (N.ltb_spec n 52); [lia|].
    destruct (N.ltb_spec n 62); [lia|]. destruct (N.eqb_spec n 62); [lia|].
    reflexivity.
Qed.

(** The text has four characters for every three bytes, the last group
    padded, and holds characters of the alphabet only. *)
Lemma base64_shape n : forall data,
  (List.length data <= n)%nat ->
  List.length (Base64.encode data) = (4 * ((List.length data + 2) / 3))%nat /\
  forallb base64_char (Base64.encode data) = true.
Proof.
  induction n as [|n IH]; intros data Hlen.
  { destruct data; [split; reflexivity|cbn in Hlen; lia]. }
  destruct data as [|b1 [|b2 [|b3 rest]]]; try (split; [reflexivity|]).
  - reflexivity.
  - cbn [Base64.encode forallb]. now rewrite !base64_char_sextet.
  - cbn [Base64.encode forallb]. now rewrite !base64_char_sextet.
  - cbn [List.length] in Hlen.
    destruct (IH rest ltac:(lia)) as [L F]. cbn [Base64.encode]. split.
    + cbn [List.length]. rewrite L.
      replace (S (S (S (List.length rest))) + 2)%nat
        with (List.length rest + 2 + 1 * 3)%nat by lia.
      rewrite Nat.div_add by lia. lia.
    + cbn [forallb]. now rewrite !base64_char_sextet, F.
Qed.


(** X13.  An annotation is the standard base64 text of the PNG file that
    Pillow wrote: it decodes to that file, has four characters for every
    three bytes of it, and holds nothing but letters, digits, [+], [/] and
    the padding sign. *)
Theorem the_annotation_is_base64
    (pil : Pillow) (image_bytes : bytes) (response_text s : str) :
  draw_bounding_boxes image_bytes response_text = Ok (Some s) ->
  exists img' png,
    save img' (u "PNG") = Ok png /\
    b64decode s = Some png /\
    List.length s = (4 * ((List.length png + 2) / 3))%nat /\
    forallb base64_char s = true.
Proof.
  rewrite draw_bounding_boxes_total. unfold draw_bounding_boxes_try.
  destruct (Image_open image_bytes) as [img|e]; [|discriminate]. cbn [bind].
  destruct (ImageDraw_Draw img) as [[]|e]; [|discriminate]. cbn [bind].
  destruct (size img) as [w h].
  destruct (for_each _ img (draw_match w h)) as [img'|e]; [|discriminate].
  cbn [bind]. destruct (save img' (u "PNG")) as [png|e] eqn:S; [|discriminate].
  cbn [bind]. intros [= <-]. exists img', png. split; [exact S|].
  split; [apply (base64_round_trip (List.length png)); lia|].
  apply (base64_shape (List.length png)). lia.
Qed.

Lemma the_annotation_is_base64_witness :
  exists img' png,
    @save Fake.pillow img' (u "PNG") = Ok png /\
    b64decode (u "AAH0AfQB") = Some png /\
    List.length (u "AAH0AfQB") = (4 * ((List.length png + 2) / 3))%nat /\
    forallb base64_char (u "AAH0AfQB") = true.
Proof.
  exact (the_annotation_is_base64 Fake.pillow [x00; x01; xf4; x01; xf4]
           (u "Hello [[0,0,500,1000]] World") (u "AAH0AfQB") eq_refl).
Defined.

(* ================================================================== *)
(** * Texts without a tuple, and numbers beyond the floats *)
(* ================================================================== *)

Lemma match_at_needs_start (s : str) :
  starts_tuple s = false -> Re.match_at coords_pattern false s = None.
Proof.
  intros H. unfold Re.match_at, coords_pattern.
  cbn [Re.concat fold_right Re.run Re.accepts].
  destruct s as [|a [|b [|c r]]]; try reflexivity.
  - now destruct (91 =? a).
  - destruct (91 =? a); [|reflexivity]. now destruct (91 =? b).
  - cbn [starts_tuple] in H. rewrite (N.eqb_sym a), (N.eqb_sym b) in H.
    destruct (91 =? a); [|reflexivity]. destruct (91 =? b); [|reflexivity].
    cbn [andb] in H. now rewrite H.
Qed.

Lemma search_needs_start (s : str) : forall skip,
  has_tuple_start s = false -> Re.search coords_pattern false skip s = None.
Proof.
  induction s as [|c s IH]; intros skip H.
  - reflexivity.
  - cbn [has_tuple_start] in H. apply orb_false_iff in H as [H1 H2].
    cbn [Re.search]. rewrite (match_at_needs_start _ H1). now apply IH.
Qed.

(** X14.  A text in which no tuple starts has no match.  Without two
    opening brackets directly followed by a decimal digit somewhere in the
    text, as in a tuple with a sign, with a space after the brackets or with
    one bracket only, [findall] returns nothing: the renderer draws nothing
    and encodes the image as it was opened. *)
Theorem no_tuple_start_no_rectangle
    (pil : Pillow) (image_bytes : bytes) (response_text : str) (img : image) :
  has_tuple_start response_text = false ->
  Image_open image_bytes = Ok img ->
  Re.findall coords_pattern response_text = [] /\
  draw_bounding_boxes image_bytes response_text =
    Ok (annotation (_ <- ImageDraw_Draw img ;; save img (u "PNG"))).
Proof.
  intros H Ho.
  assert (F : Re.findall coords_pattern response_text = []).
  { unfold Re.findall.
    replace (2 * List.length response_text + 2)%nat
      with (S (2 * List.length response_text + 1)) by lia.
    cbn [Re.findall_loop]. now rewrite (search_needs_start _ 0%nat H). }
  split; [exact F|].
  rewrite draw_bounding_boxes_total, (draw_bounding_boxes_try_open _ _ _ Ho), F.
  cbn [for_each bind].
  destruct (ImageDraw_Draw img) as [[]|e]; cbn [bind]; [|reflexivity].
  destruct (save img (u "PNG")); reflexivity.
Qed.

Lemma no_tuple_start_no_rectangle_witness :
  @draw_bounding_boxes Fake.pillow [x00; x00; x64; x00; x64]
    (u "[[-1,2,3,4]] [1,2,3,4] [[ 5,6,7,8]]") =
  Ok (Some (Base64.b64encode_str [x00; x00; x64; x00; x64; x00])).
Proof.
  exact (proj2 (no_tuple_start_no_rectangle Fake.pillow [x00; x00; x64; x00; x64]
                  (u "[[-1,2,3,4]] [1,2,3,4] [[ 5,6,7,8]]")
                  (Fake.Picture x00 x64 x00 x64 Fake.RGB []) eq_refl eq_refl)).
Defined.

Local Open Scope Z_scope.

(** ** Quotients beyond the range of a float *)

Lemma shr_1_m mrs : 0 <= shr_m mrs -> shr_m (shr_1 mrs) = shr_m mrs / 2.
Proof.
  destruct mrs as [m r s]. cbn [shr_m]. intros Hm.
  now rewrite (shr_1_spec m r s Hm).
Qed.

Lemma iter_shr_1_m p : forall mrs,
  0 <= shr_m mrs -> shr_m (iter_pos shr_1 p mrs) = shr_m mrs / 2 ^ Zpos p.
Proof.
  induction p as [p IH|p IH|]; intros mrs Hm; cbn [iter_pos].
  - pose proof (shr_1_bounds mrs Hm) as B1.
    pose proof (iter_shr_1_bounds p (shr_1 mrs) (proj1 B1)) as B2.
    rewrite IH by lia. rewrite IH by lia. rewrite (shr_1_m mrs Hm).
    rewrite !Z.div_div by (try apply Z.pow_pos_nonneg; lia).
    f_equal. rewrite <- Z.pow_add_r by lia.
    rewrite Pos2Z.inj_xI. rewrite <- (Z.pow_1_r 2) at 1.
    rewrite <- Z.pow_add_r by lia. f_equal. lia.
  - pose proof (iter_shr_1_bounds p mrs Hm) as B2.
    rewrite IH by lia. rewrite IH by lia.
    rewrite !Z.div_div by (try apply Z.pow_pos_nonneg; lia).
    f_equal. rewrite <- Z.pow_add_r by lia. f_equal. lia.
  - now rewrite shr_1_m.
Qed.

(** A positive number keeps a positive mantissa when it is brought to 53
    bits. *)
Lemma shr_fexp_positive m e l :
  0 < m -> 0 <= e ->
  0 < shr_m (fst (shr_fexp Num.prec Num.emax m e l)).
Proof.
  intros Hm He. unfold shr_fexp, shr.
  destruct m as [|p|p]; try lia. cbn [Zdigits2].
  pose proof (digits2_pos_spec p) as [Dlo Dhi].
  set (d := Z.pos (digits2_pos p)) in *.
  assert (Hd : 1 <= d) by (unfold d; lia).
  assert (Ef : fexp Num.prec Num.emax (d + e) - e = d - 53).
  { unfold fexp, emin, Num.prec, Num.emax. lia. }
  rewrite Ef.
  destruct (d - 53) as [|k|k] eqn:Ek; cbn [fst];
    try (rewrite shr_record_of_loc_m; lia).
  rewrite iter_shr_1_m by (rewrite shr_record_of_loc_m; lia).
  rewrite shr_record_of_loc_m.
  apply Z.div_str_pos. split; [apply Z.pow_pos_nonneg; lia|].
  apply Z.le_trans with (2 ^ (d - 1)); [|exact Dlo].
  apply Z.pow_le_mono_r; lia.
Qed.

(** A quotient from [2 ^ 1024] on is rounded to infinity. *)
Lemma binary_round_aux_overflow sx mx lx :
  2 ^ 1024 <= mx ->
  binary_round_aux Num.prec Num.emax sx mx 0 lx = S754_infinity sx.
Proof.
  intros Hmx.
  assert (Hpos : 0 < mx).
  { apply Z.lt_le_trans with (2 ^ 1024); [apply Z.pow_pos_nonneg; lia|exact Hmx]. }
  assert (Hd : 1025 <= Zdigits2 mx).
  { destruct mx as [|p|p]; try lia. cbn [Zdigits2].
    pose proof (digits2_pos_spec p) as [_ Dhi].
    destruct (Z.le_gt_cases 1025 (Z.pos (digits2_pos p))) as [H|H]; [exact H|].
    assert (2 ^ Z.pos (digits2_pos p) <= 2 ^ 1024) by (apply Z.pow_le_mono_r; lia).
    lia. }
  unfold binary_round_aux.
  destruct (shr_fexp_bounds mx 0 lx (Z.lt_le_incl _ _ Hpos)) as [_ He1].
  pose proof (shr_fexp_positive mx 0 lx Hpos (Z.le_refl 0)) as Hm1.
  destruct (shr_fexp Num.prec Num.emax mx 0 lx) as [mrs1 e1].
  cbn [fst snd] in He1, Hm1.
  assert (He1' : 972 <= e1).
  { rewrite He1. unfold fexp, emin, Num.prec, Num.emax. lia. }

  set (m1 := round_nearest_even (shr_m mrs1) (loc_of_shr_record mrs1)).
  pose proof (round_nearest_even_bounds (shr_m mrs1) (loc_of_shr_record mrs1))
    as Hr. fold m1 in Hr.
  assert (Hm1' : 0 < m1) by lia.
  destruct (shr_fexp_bounds m1 e1 loc_Exact (Z.lt_le_incl _ _ Hm1')) as [_ He2].
  pose proof (shr_fexp_positive m1 e1 loc_Exact Hm1' ltac:(lia)) as Hm2.
  destruct (shr_fexp Num.prec Num.emax m1 e1 loc_Exact) as [mrs2 e2].
  cbn [fst snd] in He2, Hm2.
  destruct (shr_m mrs2) as [|m|m]; try lia.
  change (Num.emax - Num.prec) with 971.
  destruct (Z.leb_spec e2 971) as [H|H]; [lia|reflexivity].
Qed.

(** [n / 1000] raises [OverflowError] when the quotient is beyond the
    floats. *)
Lemma truediv_overflow n :
  1000 * 2 ^ 1024 <= n ->
  Num.truediv n 1000 =
    Raise (Exn OverflowError (u "integer division result too large for a float")).
Proof.
  intros Hn.
  assert (P : 0 < 2 ^ 1024) by (apply Z.pow_pos_nonneg; lia).
  destruct n as [|p|p]; try lia.
  unfold Num.truediv. cbn [Num.exact]. unfold SFdiv, SFdiv_core_binary.
  assert (Hd : 1025 <= Zdigits2 (Z.pos p)).
  { cbn [Zdigits2]. pose proof (digits2_pos_spec p) as [_ Dhi].
    destruct (Z.le_gt_cases 1025 (Z.pos (digits2_pos p))) as [H|H]; [exact H|].
    assert (2 ^ Z.pos (digits2_pos p) <= 2 ^ 1024) by (apply Z.pow_le_mono_r; lia).
    lia. }
  change (Zdigits2 1000) with 10.
  assert (E : Z.min (fexp Num.prec Num.emax (Zdigits2 (Z.pos p) + 0 - (10 + 0)))
                (0 - 0) = 0).
  { unfold fexp, emin, Num.prec, Num.emax. lia. }
  rewrite E. cbn [Z.sub Z.opp Z.add].
  pose proof (Z.div_eucl_eq (Z.pos p) 1000 ltac:(lia)) as Hq.
  pose proof (Z.mod_pos_bound (Z.pos p) 1000 ltac:(lia)) as Hr.
  unfold Z.modulo in Hr.
  destruct (Z.div_eucl (Z.pos p) 1000) as [q r].
  rewrite binary_round_aux_overflow by lia. reflexivity.
Qed.

(** A division by 1000 gives a float or raises [OverflowError]. *)
Lemma truediv_1000 n :
  (exists q, Num.truediv n 1000 = Ok q) \/
  Num.truediv n 1000 =
    Raise (Exn OverflowError (u "integer division result too large for a float")).
Proof.
  unfold Num.truediv.
  destruct (SFdiv Num.prec Num.emax (Num.exact n) (Num.exact 1000)); eauto.
Qed.

(** A loop with an item on which the body raises, whatever the state, raises. *)
Lemma for_each_raises {S X} (xs : list X) (body : S -> X -> pyresult S) x :
  In x xs -> (forall st, exists e, body st x = Raise e) ->
  forall st, exists e, for_each xs st body = Raise e.
Proof.
  intros Hin Hx. induction xs as [|y ys IH]; [destruct Hin|].
  intros st. cbn [for_each].
  destruct Hin as [->|Hin].
  - destruct (Hx st) as [e ->]. cbn [bind]. eauto.
  - destruct (body st y) as [st'|e]; cbn [bind]; [now apply IH|eauto].
Qed.

(** X15.  A coordinate beyond the range of a float prevents the annotation.
    When one of the four products of a matched tuple with the width or the
    height of the image is [1000 * 2 ^ 1024] or more, as for a number of 313
    digits that does not start with a zero on an image whose sides are not
    zero, the division raises [OverflowError] wherever the rectangle is in
    the loop, nothing is drawn for it, and the renderer returns [None]. *)
Theorem huge_coordinate_prevents_the_annotation
    (pil : Pillow) (image_bytes : bytes) (response_text : str) (img : image)
    (m : list str) (x1 y1 x2 y2 : Z) :
  Image_open image_bytes = Ok img ->
  In m (Re.findall coords_pattern response_text) ->
  unpack_int4 m = Ok (x1, y1, x2, y2) ->
  1000 * 2 ^ 1024 <= x1 * fst (size img) \/
  1000 * 2 ^ 1024 <= y1 * snd (size img) \/
  1000 * 2 ^ 1024 <= x2 * fst (size img) \/
  1000 * 2 ^ 1024 <= y2 * snd (size img) ->
  (forall im,
     draw_match (fst (size img)) (snd (size img)) im m =
       Raise (Exn OverflowError
                (u "integer division result too large for a float"))) /\
  draw_bounding_boxes image_bytes response_text = Ok None.
Proof.
  intros Ho Hin Hm Hbig.
  assert (D : forall im,
            draw_match (fst (size img)) (snd (size img)) im m =
              Raise (Exn OverflowError
                       (u "integer division result too large for a float"))).
  { intros im. unfold draw_match. rewrite Hm. cbn [bind].
    destruct (truediv_1000 (x1 * fst (size img))) as [[q1 E1]|E1];
      rewrite E1; cbn [bind]; [|reflexivity].
    destruct (truediv_1000 (y1 * snd (size img))) as [[q2 E2]|E2];
      rewrite E2; cbn [bind]; [|reflexivity].
    destruct (truediv_1000 (x2 * fst (size img))) as [[q3 E3]|E3];
      rewrite E3; cbn [bind]; [|reflexivity].
    destruct (truediv_1000 (y2 * snd (size img))) as [[q4 E4]|E4];
      rewrite E4; cbn [bind]; [|reflexivity].
    exfalso.
    destruct Hbig as [H|[H|[H|H]]]; apply truediv_overflow in H; congruence. }
  split; [exact D|].
  rewrite draw_bounding_boxes_total.
  rewrite (draw_bounding_boxes_try_open _ _ _ Ho).
  destruct (ImageDraw_Draw img) as [[]|e]; [|reflexivity]. cbn [bind].
  destruct (for_each_raises (Re.findall coords_pattern response_text)
              (draw_match (fst (size img)) (snd (size img))) m Hin
              (fun im => ex_intro _ _ (D im)) img) as [e ->].
  reflexivity.
Qed.

Lemma huge_coordinate_prevents_the_annotation_witness :
  @draw_bounding_boxes Fake.pillow [x00; x01; xf4; x01; xf4]
    (u "[[1,2,3,4]] [[5,6,7,1" ++ repeat 48%N 312 ++ u "]]") = Ok None.
Proof.
  refine (proj2 (huge_coordinate_prevents_the_annotation Fake.pillow
                   [x00; x01; xf4; x01; xf4]
                   (u "[[1,2,3,4]] [[5,6,7,1" ++ repeat 48%N 312 ++ u "]]")
                   (Fake.Picture x01 xf4 x01 xf4 Fake.RGB [])
                   [u "5"; u "6"; u "7"; 49%N :: repeat 48%N 312]
                   5 6 7 (10 ^ 312) eq_refl _ _ _)).
  - vm_compute. right. left. reflexivity.
  - vm_compute. reflexivity.
  - right. right. right. apply Z.leb_le. vm_compute. reflexivity.
Defined.
